(** * Lyrics timeline of the enhanced LRC maker (src/app/js/lyrics.js)

    A shallow embedding of the [Lyrics] prototype: the word sequence with
    optional timestamps, [setTimeOfWord] with its two repair passes,
    [getIndexForTime], [getApproximateTime], the [toTimer] formatter and the
    LRC / ELRC codecs [fromLRC] and [toELRC].

    Conventions of the embedding.
    - A JavaScript Number is an extended rational: [NaN], the two infinities
      and exact finite values.  IEEE rounding and the sign of zero are not
      represented; every arithmetic operation is exact.  The code rounds
      each result to binary64, so the two agree where the exact result is
      a binary64 value.  Statements that only compare Numbers, or whose
      arithmetic is exact on every input, are made for all Numbers;
      statements about the digits of a time are made for the values of
      [exact_value] below, multiples of 1/8 on which every step is exact.
    - A JavaScript string is the list of its UTF-16 code units.
    - An exception is the [Throw] case of [result]; events emitted through
      the EventEmitter mix-in are collected in a log, in emission order. *)

From Stdlib Require Import ZArith QArith Qabs Qround Lqa List Bool Lia String Ascii NArith Setoid.
Import ListNotations.

Local Open Scope Z_scope.

(** ** Numbers *)

Module Num.

Inductive number : Type :=
| NaN
| PInf
| NInf
| Fin (q : Q).

Definition fin (q : Q) : number := Fin (Qred q).
Definition ofZ (z : Z) : number := Fin (inject_Z z).

Definition zeroQ (q : Q) : bool := Qnum q =? 0.
Definition posQ (q : Q) : bool := 0 <? Qnum q.
Definition negQ (q : Q) : bool := Qnum q <? 0.

Definition isNaN (a : number) : bool :=
  match a with NaN => true | _ => false end.

(** ToBoolean on a Number: [0] and [NaN] are falsy. *)
Definition truthy (a : number) : bool :=
  match a with
  | NaN => false
  | Fin q => negb (zeroQ q)
  | _ => true
  end.

(** [a <= b]; any comparison with [NaN] is false. *)
Definition le (a b : number) : bool :=
  match a, b with
  | NaN, _ | _, NaN => false
  | NInf, _ => true
  | _, PInf => true
  | PInf, _ => false
  | _, NInf => false
  | Fin x, Fin y => Qle_bool x y
  end.

Definition ge (a b : number) : bool := le b a.

(** [a < b]. *)
Definition lt (a b : number) : bool :=
  match a, b with
  | NaN, _ | _, NaN => false
  | PInf, _ => false
  | _, NInf => false
  | NInf, _ => true
  | _, PInf => true
  | Fin x, Fin y => negb (Qle_bool y x)
  end.

(** [a == b] on Numbers. *)
Definition eqb (a b : number) : bool :=
  match a, b with
  | PInf, PInf | NInf, NInf => true
  | Fin x, Fin y => Qeq_bool x y
  | _, _ => false
  end.

Definition neg (a : number) : number :=
  match a with
  | NaN => NaN
  | PInf => NInf
  | NInf => PInf
  | Fin q => fin (- q)
  end.

Definition add (a b : number) : number :=
  match a, b with
  | NaN, _ | _, NaN => NaN
  | PInf, NInf | NInf, PInf => NaN
  | PInf, _ | _, PInf => PInf
  | NInf, _ | _, NInf => NInf
  | Fin x, Fin y => fin (x + y)
  end.

Definition sub (a b : number) : number := add a (neg b).

(** An infinity with the sign of a non-zero finite factor. *)
Definition signed_inf (positive : bool) : number :=
  if positive then PInf else NInf.

Definition mul (a b : number) : number :=
  match a, b with
  | NaN, _ | _, NaN => NaN
  | Fin x, Fin y => fin (x * y)
  | Fin x, PInf | PInf, Fin x =>
      if zeroQ x then NaN else signed_inf (posQ x)
  | Fin x, NInf | NInf, Fin x =>
      if zeroQ x then NaN else signed_inf (negQ x)
  | PInf, PInf | NInf, NInf => PInf
  | PInf, NInf | NInf, PInf => NInf
  end.

(** Division; a finite value over zero is an infinity of the sign of the
    numerator (the zero divisor counts as positive), [0/0] is [NaN]. *)
Definition div (a b : number) : number :=
  match a, b with
  | NaN, _ | _, NaN => NaN
  | Fin x, Fin y =>
      if zeroQ y then
        (if zeroQ x then NaN else signed_inf (posQ x))
      else fin (x / y)
  | Fin _, PInf | Fin _, NInf => Fin 0
  | PInf, Fin y => signed_inf (negb (negQ y))
  | NInf, Fin y => signed_inf (negQ y)
  | _, _ => NaN
  end.

(** [Math.floor]. *)
Definition floor (a : number) : number :=
  match a with
  | Fin q => ofZ (Qfloor q)
  | _ => a
  end.

(** Truncation toward zero of a rational. *)
Definition Qtrunc (q : Q) : Z :=
  if negQ q then Qceiling q else Qfloor q.

(** The remainder operator [a % b]: the result has the sign of the
    dividend. *)
Definition rem (a b : number) : number :=
  match a, b with
  | NaN, _ | _, NaN => NaN
  | PInf, _ | NInf, _ => NaN
  | Fin x, PInf | Fin x, NInf => Fin x
  | Fin x, Fin y =>
      if zeroQ y then NaN
      else fin (x - y * inject_Z (Qtrunc (x / y)))
  end.

End Num.

Import Num.

(** ** Values, words and the timeline *)

(** What a [time] property or the [duration] can hold. *)
Inductive value : Type :=
| VUndefined
| VNull
| VNum (n : number).

(** ToBoolean. *)
Definition is_truthy (v : value) : bool :=
  match v with
  | VNum n => truthy n
  | _ => false
  end.

(** ToNumber. *)
Definition to_number (v : value) : number :=
  match v with
  | VUndefined => NaN
  | VNull => Fin 0
  | VNum n => n
  end.

(** [v == null], which also holds of [undefined]. *)
Definition is_nullish (v : value) : bool :=
  match v with
  | VNum _ => false
  | _ => true
  end.

(** The loose inequality [a != b]. *)
Definition loose_neq (a b : value) : bool :=
  match a, b with
  | VNum x, VNum y => negb (Num.eqb x y)
  | VNum _, _ | _, VNum _ => true
  | _, _ => false
  end.

Definition value_le (a b : value) : bool := Num.le (to_number a) (to_number b).
Definition value_ge (a b : value) : bool := Num.ge (to_number a) (to_number b).

(** A JavaScript string, as its code units. *)
Definition str : Type := list N.

Definition lit (s : string) : str :=
  List.map N_of_ascii (list_ascii_of_string s).

Record word : Type := mkWord { text : str; time : value }.

Record Lyrics : Type := mkLyrics { words : list word; duration : value }.

Definition length_of (l : Lyrics) : Z := Z.of_nat (List.length (words l)).

(** ** Exceptions and events *)

Inductive exn : Type :=
| TypeError
| AssertionError (msg : string).

Inductive result (A : Type) : Type :=
| Ok (a : A)
| Throw (e : exn).

Arguments Ok {A} a.
Arguments Throw {A} e.

Definition bind {A B : Type} (r : result A) (k : A -> result B) : result B :=
  match r with
  | Ok a => k a
  | Throw e => Throw e
  end.

Notation "x <- r ;; k" := (bind r (fun x => k))
  (at level 61, r at next level, right associativity).

(** [assert(cond, msg)] of the application's helpers. *)
Definition assert (cond : bool) (msg : string) : result unit :=
  if cond then Ok tt else Throw (AssertionError msg).

(** A ['timeChanged'] notification. *)
Inductive event : Type :=
| timeChanged (index : Z) (t : value).

(** [this[i]]: [None] stands for [undefined]. *)
Definition at_index (ws : list word) (i : Z) : option word :=
  if i <? 0 then None else nth_error ws (Z.to_nat i).

Fixpoint update_nth (ws : list word) (n : nat) (v : value) : list word :=
  match ws, n with
  | [], _ => []
  | w :: ws', O => mkWord (text w) v :: ws'
  | w :: ws', S n' => w :: update_nth ws' n' v
  end.

(** [this[i].time = v] on an existing word. *)
Definition set_time (ws : list word) (i : Z) (v : value) : list word :=
  if i <? 0 then ws else update_nth ws (Z.to_nat i) v.

(** ** setTimeOfWord *)

(** The state threaded through the repair passes: the words and the log
    of emitted events. *)
Definition pass_state : Type := (list word * list event)%type.

(** [for (var i=index+1; i<this.length; i++)]. *)
Fixpoint forward_pass (fuel : nat) (i : Z) (t : value) (st : pass_state)
  : result pass_state :=
  match fuel with
  | O => Ok st
  | S fuel' =>
      if i <? Z.of_nat (List.length (fst st)) then
        match at_index (fst st) i with
        | None => Throw TypeError
        | Some w =>
            let st' :=
              if is_truthy (time w) && value_le (time w) t
              then (set_time (fst st) i VNull, snd st ++ [timeChanged i VNull])
              else st in
            forward_pass fuel' (i + 1) t st'
        end
      else Ok st
  end.

(** [for (var i=index-1; i>=0; i--)]. *)
Fixpoint backward_pass (fuel : nat) (i : Z) (t : value) (st : pass_state)
  : result pass_state :=
  match fuel with
  | O => Ok st
  | S fuel' =>
      if 0 <=? i then
        match at_index (fst st) i with
        | None => Throw TypeError
        | Some w =>
            let st' :=
              if is_truthy (time w) && value_ge (time w) t
              then (set_time (fst st) i VNull, snd st ++ [timeChanged i VNull])
              else st in
            backward_pass fuel' (i - 1) t st'
        end
      else Ok st
  end.

Definition setTimeOfWord (index : Z) (t : value) (l : Lyrics)
  : result (Lyrics * list event) :=
  match at_index (words l) index with
  | None => Throw TypeError
  | Some w =>
      let hasChanged := loose_neq (time w) t in
      let ws := set_time (words l) index t in
      let log := if hasChanged then [timeChanged index t] else [] in
      if is_nullish t then Ok (mkLyrics ws (duration l), log)
      else
        let n := List.length ws in
        st1 <- forward_pass n (index + 1) t (ws, log) ;;
        st2 <- backward_pass n (index - 1) t st1 ;;
        Ok (mkLyrics (fst st2) (duration l), snd st2)
  end.

(** A sequence of [setTimeOfWord] calls; an exception aborts the rest. *)
Fixpoint run_calls (calls : list (Z * value)) (l : Lyrics)
  : result (Lyrics * list event) :=
  match calls with
  | [] => Ok (l, [])
  | (index, t) :: rest =>
      r1 <- setTimeOfWord index t l ;;
      r2 <- run_calls rest (fst r1) ;;
      Ok (fst r2, snd r1 ++ snd r2)
  end.

(** ** parseInt on a Number

    [parseInt(x)] converts [x] to a string first.  A finite value with
    [1e-6 <= |x| < 1e21] prints in positional notation, so the result is
    [x] truncated toward zero; outside that range the string is in
    exponent notation and only the leading digit is read. *)

Fixpoint leading_digit_big (fuel : nat) (n : Z) : Z :=
  match fuel with
  | O => n
  | S fuel' => if n <? 10 then n else leading_digit_big fuel' (n / 10)
  end.

Fixpoint leading_digit_small (fuel : nat) (a : Q) : Z :=
  match fuel with
  | O => 0
  | S fuel' =>
      if Qle_bool 1 a then Qfloor a
      else leading_digit_small fuel' (a * 10)
  end.

Definition parseInt_num (x : number) : number :=
  match x with
  | Fin q =>
      if zeroQ q then ofZ 0
      else
        let a := Qabs q in
        let sign := if negQ q then (-1) else 1 in
        if Qle_bool (1 # 1000000) a then
          if Qle_bool (inject_Z (10 ^ 21)) a then
            ofZ (sign * leading_digit_big
                          (S (Z.to_nat (Z.log2 (Qfloor a)))) (Qfloor a))
          else ofZ (Qtrunc q)
        else
          ofZ (sign * leading_digit_small
                        (S (S (Z.to_nat (Z.log2 (Zpos (Qden a)))))) a)
  | _ => NaN
  end.

(** ** getIndexForTime *)

(** The body of the [for] loop over [i], with [ws] the words from index
    [i] on.  Falling off the end of the loop returns [undefined]. *)
Fixpoint getIndexForTime_loop (ws : list word) (i len : Z) (dur : value)
    (timestamp earlierTimestamp : number) (earlierIndex : Z) : value :=
  match ws with
  | [] => VUndefined
  | w :: rest =>
      let isLastWord := i =? len - 1 in
      let timeOfThisWord :=
        if negb (is_truthy (time w)) && isLastWord then dur else time w in
      if isLastWord
         || (is_truthy timeOfThisWord
             && value_ge timeOfThisWord (VNum timestamp))
      then
        let relPosBetweenBounds :=
          Num.div (Num.sub timestamp earlierTimestamp)
                  (Num.sub (to_number timeOfThisWord) earlierTimestamp) in
        let index :=
          Num.add (ofZ earlierIndex)
                  (Num.mul relPosBetweenBounds (ofZ (i - earlierIndex))) in
        VNum (parseInt_num index)
      else if is_truthy (time w) then
        getIndexForTime_loop rest (i + 1) len dur timestamp
                             (to_number (time w)) i
      else
        getIndexForTime_loop rest (i + 1) len dur timestamp
                             earlierTimestamp earlierIndex
  end.

Definition getIndexForTime (timestamp : number) (l : Lyrics) : result value :=
  _ <- assert (is_truthy (duration l)) "No duration set." ;;
  Ok (getIndexForTime_loop (words l) 0 (length_of l) (duration l)
                           timestamp (Fin 0) 0).

(** ** getApproximateTime *)

(** An argument as a caller may pass it. *)
Inductive arg : Type :=
| AUndefined
| ANull
| AString (s : str)
| ANumber (n : number).

(** [this[i]] for a Number [i]: only an integral value names an element. *)
Definition at_number (ws : list word) (i : number) : option word :=
  match i with
  | Fin q =>
      if Qeq_bool q (inject_Z (Qfloor q)) then at_index ws (Qfloor q)
      else None
  | _ => None
  end.

(** [for (var i=index-1; i>=0; i--)], returning the anchor
    [(earlierTimestamp, earlierIndex)]. *)
Fixpoint search_earlier (fuel : nat) (ws : list word) (i : number)
  : result (number * number) :=
  match fuel with
  | O => Ok (Fin 0, Fin 0)
  | S fuel' =>
      if Num.ge i (Fin 0) then
        match at_number ws i with
        | None => Throw TypeError
        | Some w =>
            if is_truthy (time w) then Ok (to_number (time w), i)
            else search_earlier fuel' ws (Num.sub i (Fin 1))
        end
      else Ok (Fin 0, Fin 0)
  end.

(** [for (var i=index+1; i<this.length; i++)], returning the anchor
    [(laterTimestamp, laterIndex)]. *)
Fixpoint search_later (fuel : nat) (ws : list word) (dur : value) (i : number)
  : result (number * number) :=
  let len := Z.of_nat (List.length ws) in
  match fuel with
  | O => Ok (to_number dur, ofZ (len - 1))
  | S fuel' =>
      if Num.lt i (ofZ len) then
        match at_number ws i with
        | None => Throw TypeError
        | Some w =>
            if is_truthy (time w) then Ok (to_number (time w), i)
            else search_later fuel' ws dur (Num.add i (Fin 1))
        end
      else Ok (to_number dur, ofZ (len - 1))
  end.

Definition getApproximateTime (index : arg) (l : Lyrics) : result number :=
  match index with
  | AUndefined | ANull => Throw TypeError
  | AString _ => Throw (AssertionError "index must be a Number")
  | ANumber index =>
      let fuel := S (List.length (words l)) in
      earlier <- search_earlier fuel (words l) (Num.sub index (Fin 1)) ;;
      later <- search_later fuel (words l) (duration l)
                            (Num.add index (Fin 1)) ;;
      let relPos :=
        Num.div (Num.sub index (snd earlier))
                (Num.sub (snd later) (snd earlier)) in
      Ok (Num.add (fst earlier)
                  (Num.mul relPos (Num.sub (fst later) (fst earlier))))
  end.

(** ** The monotonicity invariant *)

(** The test the repair passes and the anchor searches apply to a word:
    its time converts to [true]. *)
Definition timed (w : word) : bool := is_truthy (time w).

(** A time that is a Number, whatever its value. *)
Definition is_explicit (v : value) : bool :=
  match v with
  | VNum _ => true
  | _ => false
  end.

(** Every later word that counts as timed under [p] has a time at least
    that of every earlier one that does. *)
Fixpoint is_monotone (p : value -> bool) (ws : list word) : bool :=
  match ws with
  | [] => true
  | w :: rest =>
      (negb (p (time w))
       || forallb (fun w' => negb (p (time w')) || value_le (time w) (time w'))
                  rest)
      && is_monotone p rest
  end.

Definition monotone (p : value -> bool) (ws : list word) : Prop :=
  forall i j wi wj,
    0 <= i < j ->
    at_index ws i = Some wi ->
    at_index ws j = Some wj ->
    p (time wi) = true ->
    p (time wj) = true ->
    value_le (time wi) (time wj) = true.

(** What one call of [setTimeOfWord index t], with [t] a Number, leaves at
    position [j]. *)
Definition repaired (index : Z) (t : value) (j : Z) (w : word) : word :=
  if j =? index then mkWord (text w) t
  else if timed w
          && (if index <? j then value_le (time w) t else value_ge (time w) t)
  then mkWord (text w) VNull
  else w.

(** What the forward pass started at [i] leaves at position [j]. *)
Definition cleared_from (i : Z) (t : value) (j : Z) (w : word) : word :=
  if (i <=? j) && timed w && value_le (time w) t
  then mkWord (text w) VNull else w.

(** What the backward pass started at [i] leaves at position [j]. *)
Definition cleared_upto (i : Z) (t : value) (j : Z) (w : word) : word :=
  if (j <=? i) && timed w && value_ge (time w) t
  then mkWord (text w) VNull else w.

Definition valid_call (l : Lyrics) (c : Z * value) : bool :=
  (0 <=? fst c) && (fst c <? length_of l).

(** A finite time known to be zero. *)
Definition is_zero_time (v : value) : bool :=
  match v with
  | VNum (Fin q) => zeroQ q
  | _ => false
  end.

(** The same timeline with every zero time replaced by [null]. *)
Definition forget_zero_word (w : word) : word :=
  if is_zero_time (time w) then mkWord (text w) VNull else w.

Definition forget_zero (l : Lyrics) : Lyrics :=
  mkLyrics (List.map forget_zero_word (words l)) (duration l).



(** [approx a q]: the Number [a] is finite and equal to [q]. *)
Definition approx (a : number) (q : Q) : Prop :=
  exists q', a = Fin q' /\ q' == q.

(** ** Sample timelines *)

Definition untimed (s : string) : word := mkWord (lit s) VNull.
Definition at_time (s : string) (q : Q) : word := mkWord (lit s) (VNum (Fin q)).

Definition two_untimed : Lyrics :=
  mkLyrics [untimed "la"; untimed "la"] (VNum (Fin 10)).

Definition three_untimed : Lyrics :=
  mkLyrics [untimed "do"; untimed "re"; untimed "mi"] (VNum (Fin 10)).


Definition three_timed : Lyrics :=
  mkLyrics [at_time "do" 1; at_time "re" (5 # 2); at_time "mi" 4]
           (VNum (Fin 10)).

Definition zero_second : Lyrics :=
  mkLyrics [untimed "la"; at_time "la" 0] (VNum (Fin 10)).

(** ** Strings *)

Definition is_digit (c : N) : bool := ((48 <=? c) && (c <=? 57))%N.

(** LineTerminator: LF, CR, U+2028, U+2029. *)
Definition is_line_terminator (c : N) : bool :=
  ((c =? 10) || (c =? 13) || (c =? 8232) || (c =? 8233))%N.

(** WhiteSpace: TAB, VT, FF, SP, NBSP, U+1680, U+2000..U+200A, U+202F,
    U+205F, U+3000, U+FEFF. *)
Definition is_white_space (c : N) : bool :=
  ((c =? 9) || (c =? 11) || (c =? 12) || (c =? 32) || (c =? 160)
   || (c =? 5760) || ((8192 <=? c) && (c <=? 8202)) || (c =? 8239)
   || (c =? 8287) || (c =? 12288) || (c =? 65279))%N.

(** The class [\s], which is also what [trim] strips. *)
Definition is_space (c : N) : bool := is_white_space c || is_line_terminator c.

(** The class [\S]. *)
Definition is_nonspace (c : N) : bool := negb (is_space c).

(** The class [.]. *)
Definition is_dot (c : N) : bool := negb (is_line_terminator c).

Definition is_char (x : N) (c : N) : bool := (c =? x)%N.

Fixpoint str_eqb (a b : str) : bool :=
  match a, b with
  | [], [] => true
  | x :: a', y :: b' => (x =? y)%N && str_eqb a' b'
  | _, _ => false
  end.

Fixpoint starts_with (p s : str) : bool :=
  match p, s with
  | [], _ => true
  | x :: p', y :: s' => (x =? y)%N && starts_with p' s'
  | _ :: _, [] => false
  end.

(** [s.includes(sub)]. *)
Fixpoint includes (sub s : str) : bool :=
  starts_with sub s
  || match s with
     | [] => false
     | _ :: s' => includes sub s'
     end.

(** [s.replace(pat, rep)] for a string pattern: the first occurrence only. *)
Fixpoint replace_first (pat rep s : str) : str :=
  if starts_with pat s then rep ++ skipn (List.length pat) s
  else match s with
       | [] => []
       | c :: s' => c :: replace_first pat rep s'
       end.

Fixpoint trim_start (s : str) : str :=
  match s with
  | c :: s' => if is_space c then trim_start s' else s
  | [] => []
  end.

Definition trim_end (s : str) : str := rev (trim_start (rev s)).

(** [s.trim()]. *)
Definition trim (s : str) : str := trim_end (trim_start s).

(** [arr.join(sep)], which is [arr.toString()] for [sep = ","]. *)
Fixpoint join (sep : str) (parts : list str) : str :=
  match parts with
  | [] => []
  | [p] => p
  | p :: rest => p ++ sep ++ join sep rest
  end.

(** The longest prefix of characters in a class, and what follows it. *)
Fixpoint span (p : N -> bool) (s : str) : str * str :=
  match s with
  | c :: s' =>
      if p c then let r := span p s' in (c :: fst r, snd r) else ([], s)
  | [] => ([], [])
  end.

(** ** Numerals *)

Definition digit_value (c : N) : Z := Z.of_N c - 48.

(** The value of a digit string in base ten, most significant first. *)
Definition digits_value (ds : str) : Z :=
  fold_left (fun acc c => 10 * acc + digit_value c) ds 0.

Definition is_hex_digit (c : N) : bool :=
  (is_digit c || ((65 <=? c) && (c <=? 70)) || ((97 <=? c) && (c <=? 102)))%N.

Definition hex_digit_value (c : N) : Z :=
  if is_digit c then Z.of_N c - 48
  else if (c <=? 70)%N then Z.of_N c - 55
  else Z.of_N c - 87.

Definition hex_value (ds : str) : Z :=
  fold_left (fun acc c => 16 * acc + hex_digit_value c) ds 0.

Definition is_octal_digit (c : N) : bool := ((48 <=? c) && (c <=? 55))%N.
Definition is_binary_digit (c : N) : bool := ((c =? 48) || (c =? 49))%N.

Definition radix_value (radix : Z) (ds : str) : Z :=
  fold_left (fun acc c => radix * acc + hex_digit_value c) ds 0.

(** [10 ^ e] for an exponent of either sign. *)
Definition pow10 (e : Z) : Q :=
  if e <? 0 then 1 / inject_Z (10 ^ (- e)) else inject_Z (10 ^ e).

(** An ExponentPart [e[+-]digits] at the head of [s]: its value and the
    rest; an incomplete one is not consumed. *)
(** An optional sign at the head of [s]: whether it is a minus, and the
    rest. *)
Definition sign_prefix (s : str) : bool * str :=
  match s with
  | c :: s' =>
      if (c =? 45)%N then (true, s')
      else if (c =? 43)%N then (false, s')
      else (false, s)
  | [] => (false, s)
  end.

Definition exponent_part (s : str) : Z * str :=
  match s with
  | c :: s1 =>
      if ((c =? 101) || (c =? 69))%N then
        let (negative, s2) := sign_prefix s1 in
        let (ds, s3) := span is_digit s2 in
        match ds with
        | [] => (0, s)
        | _ => (if negative then - digits_value ds else digits_value ds, s3)
        end
      else (0, s)
  | [] => (0, s)
  end.

(** The longest StrUnsignedDecimalLiteral (other than [Infinity]) at the
    head of [s]: [digits[.digits][exp]] or [.digits[exp]]. *)
Definition unsigned_decimal (s : str) : option (Q * str) :=
  let (ip, s1) := span is_digit s in
  let (fp, s2) :=
    match s1 with
    | c :: s' =>
        if (c =? 46)%N then let (f, r) := span is_digit s' in (Some f, r)
        else (None, s1)
    | [] => (None, s1)
    end in
  let mantissa (f : str) : Q :=
    (inject_Z (digits_value ip)
     + inject_Z (digits_value f) / inject_Z (10 ^ Z.of_nat (List.length f)))%Q in
  let finish (f : str) (rest : str) : option (Q * str) :=
    let (e, s3) := exponent_part rest in
    Some ((mantissa f * pow10 e)%Q, s3) in
  match ip, fp with
  | [], None => None
  | [], Some [] => None
  | _, None => finish [] s1
  | _, Some f => finish f s2
  end.

(** A signed StrDecimalLiteral at the head of [s]. *)
Definition signed_decimal (s : str) : option (number * str) :=
  let (negative, s1) := sign_prefix s in
  if starts_with (lit "Infinity") s1 then
    Some (if negative then NInf else PInf, skipn 8 s1)
  else
    match unsigned_decimal s1 with
    | Some (q, rest) => Some (fin (if negative then - q else q), rest)
    | None => None
    end.

(** [parseFloat(s)]. *)
Definition parseFloat (s : str) : number :=
  match signed_decimal (trim_start s) with
  | Some (n, _) => n
  | None => NaN
  end.

(** [parseInt(s)] with no radix argument. *)
Definition parseInt (s : str) : number :=
  let s0 := trim_start s in
  let (negative, s1) := sign_prefix s0 in
  let (hex, s2) :=
    match s1 with
    | c :: x :: s' =>
        if ((c =? 48) && ((x =? 120) || (x =? 88)))%N then (true, s')
        else (false, s1)
    | _ => (false, s1)
    end in
  let ds := fst (span (if hex then is_hex_digit else is_digit) s2) in
  match ds with
  | [] => NaN
  | _ =>
      let v := if hex then hex_value ds else digits_value ds in
      ofZ (if negative then - v else v)
  end.

(** ToNumber on a string: the whole trimmed string must be a numeric
    literal; the empty string is [0]. *)
Definition string_to_number (s : str) : number :=
  let s0 := trim s in
  let prefixed (p : N -> bool) (radix : Z) (ds : str) : number :=
    match ds with
    | [] => NaN
    | _ => if forallb p ds then ofZ (radix_value radix ds) else NaN
    end in
  let decimal : number :=
    match signed_decimal s0 with
    | Some (n, []) => n
    | _ => NaN
    end in
  match s0 with
  | [] => Fin 0
  | c :: x :: ds =>
      if (c =? 48)%N then
        if ((x =? 120) || (x =? 88))%N then prefixed is_hex_digit 16 ds
        else if ((x =? 111) || (x =? 79))%N then prefixed is_octal_digit 8 ds
        else if ((x =? 98) || (x =? 66))%N then prefixed is_binary_digit 2 ds
        else decimal
      else decimal
  | _ => decimal
  end.

(** The decimal digits of a non-negative integer. *)
Fixpoint decimal_digits (fuel : nat) (z : Z) (acc : str) : str :=
  match fuel with
  | O => acc
  | S fuel' =>
      let acc' := Z.to_N (48 + z mod 10) :: acc in
      if z <? 10 then acc' else decimal_digits fuel' (z / 10) acc'
  end.

Definition nat_to_str (z : Z) : str :=
  decimal_digits (S (Z.to_nat (Z.log2 z))) z [].

Fixpoint strip_trailing_zeros_rev (r : str) : str :=
  match r with
  | 48%N :: r' => strip_trailing_zeros_rev r'
  | _ => r
  end.

(** ToString of an integral Number: positional below [1e21], exponent
    notation from there on. *)
Definition int_to_str (z : Z) : str :=
  let a := Z.abs z in
  let ds := nat_to_str a in
  let body :=
    if a <? 10 ^ 21 then ds
    else
      let e := nat_to_str (Z.of_nat (List.length ds) - 1) in
      match rev (strip_trailing_zeros_rev (rev ds)) with
      | [] => ds
      | [d] => d :: lit "e+" ++ e
      | d :: more => d :: 46%N :: more ++ lit "e+" ++ e
      end in
  if z <? 0 then 45%N :: body else body.

(** ** toTimer *)

(** ToString of a Number that is integral, as every [Math.floor] result
    is. *)
Definition num_to_str (a : number) : str :=
  match a with
  | NaN => lit "NaN"
  | PInf => lit "Infinity"
  | NInf => lit "-Infinity"
  | Fin q => int_to_str (Qfloor q)
  end.

Definition toTimer (time : value) (withHours : bool) : str :=
  let t := to_number time in
  let h := Num.floor (Num.div t (Fin 3600)) in
  let h :=
    if isNaN h then lit "--"
    else if Num.ge h (Fin 10) then num_to_str h
    else lit "0" ++ num_to_str h in
  let m :=
    if withHours then Num.floor (Num.rem (Num.div t (Fin 60)) (Fin 60))
    else Num.floor (Num.div t (Fin 60)) in
  let m :=
    if isNaN m then lit "--"
    else if Num.ge m (Fin 10) then num_to_str m
    else lit "0" ++ num_to_str m in
  let s := Num.floor (Num.rem t (Fin 60)) in
  let s :=
    if isNaN s then lit "--"
    else if Num.ge s (Fin 10) then num_to_str s
    else lit "0" ++ num_to_str s in
  let ms := Num.floor (Num.mul (Num.sub t (Num.floor t)) (Fin 1000)) in
  let ms :=
    if isNaN ms then lit "--"
    else if Num.ge ms (Fin 100) then num_to_str ms
    else if Num.lt (Fin 10) ms then lit "0" ++ num_to_str ms
    else lit "00" ++ num_to_str ms in
  if withHours then h ++ lit ":" ++ m ++ lit ":" ++ s
  else m ++ lit ":" ++ s ++ lit "." ++ ms.

(** ** toELRC *)

Definition br : str := lit "<br>".

Fixpoint toELRC_loop (ws : list word) (isNewLine isFirstWord : bool)
    (result : str) : str :=
  match ws with
  | [] => result
  | word :: rest =>
      let tmpWord :=
        if includes br (text word) then replace_first br [] (text word)
        else text word in
      let result :=
        if isNewLine || isFirstWord then
          result ++ 10%N :: lit "["
                 ++ toTimer (if is_truthy (time word) then time word
                             else VNum (Fin 0)) false
                 ++ lit "]"
        else if is_truthy (time word) then
          result ++ lit " <" ++ toTimer (time word) false ++ lit ">"
        else result in
      let isNewLine := includes br (text word) && is_truthy (time word) in
      toELRC_loop rest isNewLine false (result ++ lit " " ++ tmpWord)
  end.

Definition toELRC (l : Lyrics) : str := toELRC_loop (words l) false true [].

(** ** Regular expressions

    The patterns of this file only repeat single-character classes, so a
    quantifier carries a class rather than a sub-pattern.  Matching is by
    backtracking in the order ECMAScript prescribes: alternatives left to
    right, a greedy quantifier longest first, a lazy one shortest first. *)

Inductive re : Type :=
| Chr (c : N)                                  (* a literal character *)
| ChrI (c : N)                                 (* a literal letter under /i *)
| Rep (greedy : bool) (least : nat) (p : N -> bool)
| Seq (r1 r2 : re)
| Alt (r1 r2 : re)
| Group (n : nat) (r : re)                     (* the n-th capturing group *)
| Bol                                          (* ^ *)
| Eol.                                         (* $ *)

Infix ">>" := Seq (at level 60, right associativity).

Definition caps : Type := list (nat * str).

Definition set_cap (n : nat) (s : str) (cs : caps) : caps :=
  (n, s) :: filter (fun c => negb (Nat.eqb (fst c) n)) cs.

Fixpoint get_cap (n : nat) (cs : caps) : str :=
  match cs with
  | [] => []
  | (k, s) :: cs' => if Nat.eqb k n then s else get_cap n cs'
  end.

(** ASCII letters compare modulo case under /i. *)
Definition fold_case (c : N) : N :=
  if ((97 <=? c) && (c <=? 122))%N then (c - 32)%N else c.

(** A continuation receives what is left of the input, the position
    reached and the captures so far; it answers with the end of the whole
    match and the final captures. *)
Definition cont : Type := str -> nat -> caps -> option (nat * caps).

Fixpoint run_rep (greedy : bool) (least : nat) (p : N -> bool)
    (rest : str) (pos : nat) (cs : caps) (k : cont) : option (nat * caps) :=
  match least with
  | S least' =>
      match rest with
      | c :: rest' =>
          if p c then run_rep greedy least' p rest' (S pos) cs k else None
      | [] => None
      end
  | O =>
      if greedy then
        match rest with
        | c :: rest' =>
            if p c then
              match run_rep greedy O p rest' (S pos) cs k with
              | Some a => Some a
              | None => k rest pos cs
              end
            else k rest pos cs
        | [] => k rest pos cs
        end
      else
        match k rest pos cs with
        | Some a => Some a
        | None =>
            match rest with
            | c :: rest' =>
                if p c then run_rep greedy O p rest' (S pos) cs k else None
            | [] => None
            end
        end
  end.

Fixpoint run (r : re) (rest : str) (pos : nat) (cs : caps) (k : cont)
  : option (nat * caps) :=
  match r with
  | Chr x =>
      match rest with
      | c :: rest' => if (c =? x)%N then k rest' (S pos) cs else None
      | [] => None
      end
  | ChrI x =>
      match rest with
      | c :: rest' =>
          if (fold_case c =? fold_case x)%N then k rest' (S pos) cs else None
      | [] => None
      end
  | Rep greedy least p => run_rep greedy least p rest pos cs k
  | Seq r1 r2 =>
      run r1 rest pos cs (fun rest' pos' cs' => run r2 rest' pos' cs' k)
  | Alt r1 r2 =>
      match run r1 rest pos cs k with
      | Some a => Some a
      | None => run r2 rest pos cs k
      end
  | Group n r1 =>
      run r1 rest pos cs
          (fun rest' pos' cs' =>
             k rest' pos' (set_cap n (firstn (pos' - pos) rest) cs'))
  | Bol => if Nat.eqb pos 0 then k rest pos cs else None
  | Eol =>
      match rest with
      | [] => k rest pos cs
      | _ :: _ => None
      end
  end.

(** A successful match: where it starts and ends, and its captures (group
    [0] is the whole match). *)
Record rmatch : Type :=
  mkMatch { m_index : nat; m_end : nat; m_caps : caps }.

Definition group (n : nat) (m : rmatch) : str := get_cap n (m_caps m).

(** A match that starts exactly at [pos], where [rest] begins. *)
Definition match_here (r : re) (rest : str) (pos : nat) : option rmatch :=
  match run r rest pos [] (fun _ pos' cs => Some (pos', cs)) with
  | Some (e, cs) => Some (mkMatch pos e (set_cap 0 (firstn (e - pos) rest) cs))
  | None => None
  end.

(** The leftmost match that starts at [pos] or later. *)
Fixpoint search_from (r : re) (rest : str) (pos : nat) : option rmatch :=
  match match_here r rest pos with
  | Some m => Some m
  | None =>
      match rest with
      | [] => None
      | _ :: rest' => search_from r rest' (S pos)
      end
  end.

(** [s.match(r)] for a pattern without the [g] flag, and one [r.exec(s)]
    with [lastIndex = 0]. *)
Definition regex_match (r : re) (s : str) : option rmatch := search_from r s 0.

(** [s.search(r)]. *)
Definition regex_search (r : re) (s : str) : Z :=
  match regex_match r s with
  | Some m => Z.of_nat (m_index m)
  | None => -1
  end.

(** [s.replace(r, rep)] for a pattern with the [g] flag and a replacement
    without [$]; [rest] is the input from [pos] on. *)
Fixpoint replace_all (fuel : nat) (r : re) (rep : str) (rest : str)
    (pos : nat) : str :=
  match fuel with
  | O => rest
  | S fuel' =>
      match search_from r rest pos with
      | None => rest
      | Some m =>
          let before := firstn (m_index m - pos) rest in
          let after := skipn (m_end m - pos) rest in
          if Nat.eqb (m_end m) (m_index m) then
            match after with
            | [] => before ++ rep
            | c :: after' =>
                before ++ rep ++ c :: replace_all fuel' r rep after' (S (m_end m))
            end
          else before ++ rep ++ replace_all fuel' r rep after (m_end m)
      end
  end.

Definition regex_replace (r : re) (rep : str) (s : str) : str :=
  replace_all (S (List.length s)) r rep s 0.

(** [s.split(r)] for a pattern without capturing groups: [rest] is the
    input from the scan position [q] on, [piece] the characters since the
    end of the last separator, in reverse. *)
Fixpoint split_loop (r : re) (rest : str) (q : nat) (piece : str)
    (skip : nat) : list str :=
  match rest with
  | [] => [rev piece]
  | c :: rest' =>
      match skip with
      | S skip' => split_loop r rest' (S q) piece skip'
      | O =>
          match match_here r rest q with
          | Some m =>
              if Nat.eqb (m_end m) q then
                match piece with
                | [] => split_loop r rest' (S q) [c] 0
                | _ => rev piece :: split_loop r rest' (S q) [c] 0
                end
              else
                rev piece :: split_loop r rest' (S q) [] (m_end m - q - 1)
          | None => split_loop r rest' (S q) (c :: piece) 0
          end
      end
  end.

Definition regex_split (r : re) (s : str) : list str :=
  match s with
  | [] =>
      match match_here r [] 0 with
      | Some _ => []
      | None => [[]]
      end
  | _ => split_loop r s 0 [] 0
  end.

(** The successive results of [r.exec(s)] for a pattern with the [g]
    flag, until it answers [null]. *)
Fixpoint exec_all (fuel : nat) (r : re) (rest : str) (pos : nat)
  : list rmatch :=
  match fuel with
  | O => []
  | S fuel' =>
      match search_from r rest pos with
      | None => []
      | Some m =>
          m :: exec_all fuel' r (skipn (m_end m - pos) rest) (m_end m)
      end
  end.

(** ** The patterns of fromLRC *)

Definition chars (s : string) : re :=
  match lit s with
  | [] => Rep true 0 (fun _ => false)
  | c :: cs => fold_left (fun r x => Seq r (Chr x)) cs (Chr c)
  end.

Definition chars_i (s : string) : re :=
  match lit s with
  | [] => Rep true 0 (fun _ => false)
  | c :: cs => fold_left (fun r x => Seq r (ChrI x)) cs (ChrI c)
  end.

(** A pattern of the source, written out beside its text. *)
Definition pattern (source : string) (r : re) : re := r.

Definition LT : N := 60.      (* < *)
Definition GT : N := 62.      (* > *)
Definition LBRACK : N := 91.  (* [ *)
Definition RBRACK : N := 93.  (* ] *)
Definition COLON : N := 58.   (* : *)
Definition SP : N := 32.
Definition LF : N := 10.
Definition CR : N := 13.

Definition re_spaces : re :=
  pattern "/ +/g"
    (Rep true 1 (is_char SP)).

(** The ideographic space U+3000. *)
Definition re_ideographic_space : re :=
  pattern "/　/g"
    (Chr 12288).

Definition re_spaces_before_newline : re :=
  pattern "/ +\n/g"
    (Rep true 1 (is_char SP) >> Chr LF).

Definition re_any_newline : re :=
  pattern "/(?:\r\n|\r|\n)/g"
    (Alt (Chr CR >> Chr LF) (Alt (Chr CR) (Chr LF))).

Definition re_offset_i : re :=
  pattern "/(?:\[offset:)(.*)(?:])/i"
    (chars_i "[offset:" >> Group 1 (Rep true 0 is_dot) >> Chr RBRACK).

Definition re_offset : re :=
  pattern "/(?:\[offset:)(.*)(?:])/g"
    (chars "[offset:" >> Group 1 (Rep true 0 is_dot) >> Chr RBRACK).

Definition re_line_break : re :=
  pattern "/\r\n|\n/"
    (Alt (Chr CR >> Chr LF) (Chr LF)).

Definition re_inline_tag : re :=
  pattern "/(?:\<)(\d*)(?::)(\S*?)(?:\>)/i"
    (Chr LT >> Group 1 (Rep true 0 is_digit) >> Chr COLON
    >> Group 2 (Rep false 0 is_nonspace) >> Chr GT).

Definition re_line : re :=
  pattern "/^(\[)(\d*)(:)(.*)(\])(.*)/i"
    (Bol >> Group 1 (Chr LBRACK) >> Group 2 (Rep true 0 is_digit)
    >> Group 3 (Chr COLON) >> Group 4 (Rep true 0 is_dot)
    >> Group 5 (Chr RBRACK) >> Group 6 (Rep true 0 is_dot)).

Definition re_first_word : re :=
  pattern "/(?: )(.*?)(?: |$)/i"
    (Chr SP >> Group 1 (Rep false 0 is_dot) >> Alt (Chr SP) Eol).

Definition re_tagged_word : re :=
  pattern "/(?:\<)(\d*)(?::)(.*?)(?:\>) (.*?)(?: |\n|$)/g"
    (Chr LT >> Group 1 (Rep true 0 is_digit) >> Chr COLON
    >> Group 2 (Rep false 0 is_dot) >> Chr GT >> Chr SP
    >> Group 3 (Rep false 0 is_dot)
    >> Alt (Chr SP) (Alt (Chr LF) Eol)).

Definition re_closing_tag : re :=
  pattern "/(?:\<)(\d*)(?::)(\S*?)(?:\>\n|\>$)/i"
    (Chr LT >> Group 1 (Rep true 0 is_digit) >> Chr COLON
    >> Group 2 (Rep false 0 is_nonspace)
    >> Alt (Chr GT >> Chr LF) (Chr GT >> Eol)).

Definition re_whitespace : re :=
  pattern "/\s+/g"
    (Rep true 1 is_space).

(** ** fromLRC *)

(** The first statement of [fromLRC] and of [fromText]: collapse runs of
    spaces, drop ideographic spaces, strip spaces before a line feed,
    trim, and mark every line break with ["<br>"]. *)
Definition normalize (text : str) : str :=
  regex_replace re_any_newline (br ++ [LF])
    (trim
       (regex_replace re_spaces_before_newline [LF]
          (regex_replace re_ideographic_space []
             (regex_replace re_spaces [SP] text)))).

(** [(parseInt(a) * 60) + parseFloat(b)]. *)
Definition tag_seconds (a b : str) : number :=
  Num.add (Num.mul (parseInt a) (Fin 60)) (parseFloat b).

(** What [next] leaves in [tim] and [lyrics]: one entry per line that has
    the prescribed shape, in order.  In an enhanced file an entry is the
    array of the line's times and the array of its words, otherwise the
    line's time and its text. *)
Inductive parsed : Type :=
| Enhanced (tim : list (list number)) (lyrics : list (list str))
| Plain (tim : list number) (lyrics : list str).

(** The enhanced branch of the loop body, for one matching line. *)
Definition next_enhanced (time : number) (rest : str)
  : result (list number * list str) :=
  match regex_match re_first_word rest with
  | None => Throw TypeError
  | Some tmp =>
      let first := trim (group 0 tmp) in
      let found := exec_all (S (List.length rest)) re_tagged_word rest 0 in
      let times :=
        time :: List.map (fun m => tag_seconds (group 1 m) (group 2 m)) found in
      let texts := first :: List.map (group 3) found in
      match regex_match re_closing_tag rest with
      | Some last =>
          Ok (times ++ [tag_seconds (group 1 last) (group 2 last)], texts)
      | None => Ok (times, texts)
      end
  end.

Fixpoint next_enhanced_lines (allTextLines : list str)
  : result (list (list number) * list (list str)) :=
  match allTextLines with
  | [] => Ok ([], [])
  | l :: rest =>
      match regex_match re_line l with
      | Some line =>
          entry <- next_enhanced (tag_seconds (group 2 line) (group 4 line))
                                 (group 6 line) ;;
          more <- next_enhanced_lines rest ;;
          Ok (fst entry :: fst more, snd entry :: snd more)
      | None => next_enhanced_lines rest
      end
  end.

Fixpoint next_plain_lines (allTextLines : list str)
  : list number * list str :=
  match allTextLines with
  | [] => ([], [])
  | l :: rest =>
      let more := next_plain_lines rest in
      match regex_match re_line l with
      | Some line =>
          (tag_seconds (group 2 line) (group 4 line) :: fst more,
           group 6 line :: snd more)
      | None => more
      end
  end.

Definition next (isElrc : bool) (allTextLines : list str) : result parsed :=
  if isElrc then
    r <- next_enhanced_lines allTextLines ;;
    Ok (Enhanced (fst r) (snd r))
  else
    let r := next_plain_lines allTextLines in
    Ok (Plain (fst r) (snd r)).

(** [data != 'undefined'] on an element of [lyrics]; an array is compared
    through its [toString].  Every element of [tim] passes the test. *)
Definition defined (data : str) : bool := negb (str_eqb data (lit "undefined")).

(** [$.map(items, callback)] with a callback that returns a word for an
    item that is neither empty nor ["<br>"], and nothing otherwise. *)
Fixpoint map_words (items : list str) (index : nat)
    (time_at : nat -> number) : list word :=
  match items with
  | [] => []
  | item :: rest =>
      let more := map_words rest (S index) time_at in
      match item with
      | [] => more
      | _ =>
          if negb (str_eqb item br)
          then mkWord (trim item) (VNum (time_at index)) :: more
          else more
      end
  end.

(** [arr[index] + offset], where a missing element is [undefined]. *)
Definition time_plus_offset (arr : list number) (offset : number)
    (index : nat) : number :=
  match nth_error arr index with
  | Some t => Num.add t offset
  | None => Num.add NaN offset
  end.

(** The enhanced loop over [lyrics]: word [index] of line [i] is timed
    by [tim[i][index]]. *)
Fixpoint splitted_enhanced (tim : list (list number)) (lyrics : list (list str))
    (offset : number) : list word :=
  match lyrics with
  | [] => []
  | items :: lyrics' =>
      map_words items 0 (time_plus_offset (hd [] tim) offset)
      ++ splitted_enhanced (tl tim) lyrics' offset
  end.

(** The other loop over [lyrics]: word [index] of every line is timed by
    [tim[index]]. *)
Fixpoint splitted_plain (tim : list number) (lyrics : list str)
    (offset : number) : list word :=
  match lyrics with
  | [] => []
  | line :: lyrics' =>
      map_words (regex_split re_whitespace line) 0 (time_plus_offset tim offset)
      ++ splitted_plain tim lyrics' offset
  end.

Definition processLyrics (allText : str) : result (list word) :=
  let hasOffset :=
    match regex_match re_offset_i allText with
    | Some _ => true
    | None => false
    end in
  offset <-
    (if hasOffset then
       match regex_match re_offset allText with
       | Some matches =>
           Ok (Num.div (string_to_number (group 1 matches)) (Fin 1000))
       | None => Throw TypeError
       end
     else Ok (Fin 0)) ;;
  let allTextLines := regex_split re_line_break allText in
  let isElrc :=
    match regex_match re_inline_tag (join (lit ",") allTextLines) with
    | Some _ => true
    | None => false
    end in
  p <- next isElrc allTextLines ;;
  match p with
  | Enhanced tim lyrics =>
      let lyrics := filter (fun items => defined (join (lit ",") items)) lyrics in
      Ok (splitted_enhanced tim lyrics offset)
  | Plain tim lyrics =>
      let lyrics := filter defined lyrics in
      Ok (splitted_plain tim lyrics offset)
  end.

Definition fromLRC (text : str) (duration : value) : result Lyrics :=
  let text := normalize text in
  splitted <- processLyrics text ;;
  Ok (mkLyrics splitted duration).

(** The texts and the times of a timeline, side by side. *)
Definition summary (l : Lyrics) : list (str * value) :=
  List.map (fun w => (text w, time w)) (words l).

(** ** The fields of a formatted time *)

(** The whole minutes, the seconds within the minute and the
    milliseconds within the second of a time in seconds. *)
Definition minutes (q : Q) : Z := Qfloor (q / 60).
Definition seconds (q : Q) : Z := Qfloor q mod 60.
Definition millis (q : Q) : Z := Qfloor (q * 1000) mod 1000.

(** A non-negative integer in decimal, filled with zeros on the left up
    to [width] digits. *)
Definition zero_pad (width : nat) (n : Z) : str :=
  let ds := nat_to_str n in
  repeat 48%N (width - List.length ds) ++ ds.

(** The integers from 0 up to [n], excluded. *)
Definition below (n : nat) : list Z := List.map Z.of_nat (seq 0 n).

(** The padding [toTimer] applies to an integral field of two digits and
    to the milliseconds. *)
Definition two_digits (z : Z) : str :=
  if 10 <=? z then int_to_str z else lit "0" ++ int_to_str z.

Definition three_digits (z : Z) : str :=
  if 100 <=? z then int_to_str z
  else if 10 <? z then lit "0" ++ int_to_str z
  else lit "00" ++ int_to_str z.

(** ** Reading the matcher *)

(** A continuation that never answers with an end before the position it
    is started at. *)
Definition k_mono (k : cont) : Prop :=
  forall rest pos cs e cs', k rest pos cs = Some (e, cs') -> (pos <= e)%nat.


(** The next character, if any, is outside the class. *)
Definition stops (p : N -> bool) (tail : str) : bool :=
  match tail with
  | [] => true
  | c :: _ => negb (p c)
  end.

(** A character at which a pattern cannot start. *)
Definition dead (r : re) (c : N) : Prop :=
  forall rest pos, match_here r (c :: rest) pos = None.

(** ** Timelines laid out in lines

    A line is a first word and the words that follow it, each a text and
    a time in seconds.  In the timeline the last word of every line but
    the last carries the ["<br>"] marker. *)

Definition entry : Type := (str * Q)%type.
Definition line : Type := (entry * list entry)%type.





(** A word text that survives the round trip: not empty, without white
    space, ["<"], ["["] or ["]"], and not the word ["undefined"]. *)
Definition token_char (c : N) : bool :=
  (negb (is_space c) && negb (c =? LT) && negb (c =? LBRACK)
   && negb (c =? RBRACK))%N.

Definition plain_token (u : str) : bool :=
  match u with
  | [] => false
  | _ => forallb token_char u && negb (str_eqb u (lit "undefined"))
  end.

(** A rational in lowest terms. *)
Definition canonical (q : Q) : bool :=
  (Qnum (Qred q) =? Qnum q) && (Z.pos (Qden (Qred q)) =? Z.pos (Qden q)).

(** A whole number of milliseconds. *)
Definition whole_ms (q : Q) : bool := (1000 * Qnum q) mod Z.pos (Qden q) =? 0.

(** A time that survives the round trip: positive, a whole number of
    milliseconds other than ten within its second, below 6e22. *)
Definition good_time (q : Q) : bool :=
  canonical q && (0 <? Qnum q) && whole_ms q && negb (millis q =? 10)
  && negb (Qle_bool (inject_Z (60 * 10 ^ 21)) q).

Definition good_entry (e : entry) : bool :=
  plain_token (fst e) && good_time (snd e).

Definition good_line (L : line) : bool :=
  good_entry (fst L) && forallb good_entry (snd L).



(** What [toELRC] writes for such a timeline. *)
Definition stamp (q : Q) : str := toTimer (VNum (Fin q)) false.

Fixpoint tail_text (e : entry) (es : list entry) (mark : str) : str :=
  match es with
  | [] => fst e ++ mark
  | e' :: es' => fst e ++ SP :: LT :: stamp (snd e') ++ GT :: SP
                       :: tail_text e' es' mark
  end.

(** A line as exported, followed by [mark]. *)
Definition line_text (L : line) (mark : str) : str :=
  LBRACK :: stamp (snd (fst L)) ++ RBRACK :: SP
         :: tail_text (fst L) (snd L) mark.

Fixpoint exported (Ls : list line) : str :=
  match Ls with
  | [] => []
  | L :: Ls' => LF :: line_text L [] ++ exported Ls'
  end.

Definition sample_lines : line * list line :=
  ((lit "a", 1%Q, [(lit "b", 5 # 2)]),
   [(lit "c", 3%Q, []);
    (lit "d>", 61011 # 1000, [(lit "e:f", 62%Q); (lit "g", 3725%Q)])]).

(** The two parts of a stamp, on either side of its colon. *)
Definition stamp_minutes (q : Q) : str := zero_pad 2 (minutes q).

Definition stamp_seconds (q : Q) : str :=
  zero_pad 2 (seconds q) ++ 46%N :: zero_pad 3 (millis q).

(** A digit or the decimal point. *)
Definition is_decimal_char (c : N) : bool := is_digit c || (c =? 46)%N.

(** The exported text after the first statement of [fromLRC]: the
    leading line feed trimmed, every other one preceded by ["<br>"]. *)
Fixpoint normalised (L : line) (Ls : list line) : str :=
  match Ls with
  | [] => line_text L []
  | L' :: Ls' => line_text L br ++ LF :: normalised L' Ls'
  end.


(** The characters of an exported line after its leading stamp, and those
    of the whole line. *)
Definition inner_char (c : N) : bool :=
  (token_char c || (c =? SP) || (c =? LT))%N.

Definition line_char (c : N) : bool :=
  (inner_char c || (c =? LBRACK) || (c =? RBRACK))%N.

(** A text whose last character is a word character. *)
Definition ends_with_token (x : str) : Prop :=
  exists s c, x = s ++ [c] /\ token_char c = true.

(** Every space is followed by a character other than a space or a line
    feed. *)
Fixpoint spaces_ok (s : str) : bool :=
  match s with
  | [] => true
  | c :: rest =>
      (if (c =? SP)%N then
         match rest with
         | c' :: _ => negb (c' =? SP)%N && negb (c' =? LF)%N
         | [] => false
         end
       else true)
      && spaces_ok rest
  end.

(** Every opening bracket is followed by a digit. *)
Fixpoint guarded (s : str) : bool :=
  match s with
  | [] => true
  | c :: rest =>
      (if (c =? LBRACK)%N then
         match rest with
         | c' :: _ => is_digit c'
         | [] => false
         end
       else true)
      && guarded rest
  end.




(** The characters of a word as the timeline holds it, marker included. *)
Definition word_char (c : N) : bool := (token_char c || (c =? LT))%N.







(** ** What a call of setTimeOfWord reports *)

(** The position an event is about. *)
Definition event_index (e : event) : Z :=
  match e with
  | timeChanged i _ => i
  end.

(** The positions [i, i+1, ...] and [i, i-1, ...], [n] of them. *)
Fixpoint upfrom (i : Z) (n : nat) : list Z :=
  match n with
  | O => []
  | S n' => i :: upfrom (i + 1) n'
  end.

Fixpoint downfrom (i : Z) (n : nat) : list Z :=
  match n with
  | O => []
  | S n' => i :: downfrom (i - 1) n'
  end.

(** The events of a repair pass that visits the positions [js] of [ws] in
    order and clears the timed words that [cmp] finds out of order. *)
Definition cleared_events (cmp : value -> value -> bool) (t : value)
    (ws : list word) (js : list Z) : list event :=
  flat_map (fun j =>
              match at_index ws j with
              | Some w =>
                  if timed w && cmp (time w) t then [timeChanged j VNull]
                  else []
              | None => []
              end) js.


(** ** Anchors of the interpolation *)




(** ** More of toTimer and toELRC *)

(** The whole hours of a time in seconds. *)
Definition hours (q : Q) : Z := Qfloor (q / 3600).

(** The text [toELRC] writes for a word: the word without its first
    ["<br>"]. *)
Definition stripped (t : str) : str :=
  if includes br t then replace_first br [] t else t.

(** A character other than ["["]. *)
Definition not_bracket (c : N) : bool := negb (c =? LBRACK)%N.

(** ** fromText *)

(** [$.map(items, callback)] with the callback of [fromText]: a word at
    the duration for every item that is neither empty nor ["<br>"]. *)
Definition text_words (items : list str) (duration : value) : list word :=
  flat_map (fun item =>
              match item with
              | [] => []
              | _ =>
                  if negb (str_eqb item br)
                  then [mkWord (trim item) duration]
                  else []
              end) items.

Definition fromText (text : str) (duration : value) : Lyrics :=
  let text := normalize text in
  let splitted := text_words (regex_split re_whitespace text) duration in
  mkLyrics splitted duration.

(** A text given as lines of words: the words of a line joined by single
    spaces, the lines by line feeds. *)
Definition text_line : Type := (str * list str)%type.

Fixpoint line_of (u : str) (us : list str) : str :=
  match us with
  | [] => u
  | u' :: us' => u ++ SP :: line_of u' us'
  end.

Fixpoint text_of (L : text_line) (Ls : list text_line) : str :=
  match Ls with
  | [] => line_of (fst L) (snd L)
  | L' :: Ls' => line_of (fst L) (snd L) ++ LF :: text_of L' Ls'
  end.

(** The same after the first statement of [fromText]: every line but the
    last ends in ["<br>"]. *)
Fixpoint marked_text_of (L : text_line) (Ls : list text_line) : str :=
  match Ls with
  | [] => line_of (fst L) (snd L)
  | L' :: Ls' => line_of (fst L) (snd L) ++ br ++ LF :: marked_text_of L' Ls'
  end.

(** The words of a line, the last one followed by [mark]. *)
Fixpoint marked_last (u : str) (us : list str) (mark : str) : list str :=
  match us with
  | [] => [u ++ mark]
  | u' :: us' => u :: marked_last u' us' mark
  end.

Fixpoint all_words (L : text_line) (Ls : list text_line) : list str :=
  match Ls with
  | [] => marked_last (fst L) (snd L) []
  | L' :: Ls' => marked_last (fst L) (snd L) br ++ all_words L' Ls'
  end.

(** A word of a text: not empty, without white space, and not ["<br>"]. *)
Definition text_token (u : str) : bool :=
  match u with
  | [] => false
  | _ => forallb is_nonspace u && negb (str_eqb u br)
  end.

Definition token_line (L : text_line) : bool :=
  text_token (fst L) && forallb text_token (snd L).


(** ** Timing the words one after the other *)

(** The calls [setTimeOfWord(i, t0)], [setTimeOfWord(i+1, t1)], ... *)
Fixpoint taps (i : Z) (ts : list Q) : list (Z * value) :=
  match ts with
  | [] => []
  | t :: rest => (i, VNum (Fin t)) :: taps (i + 1) rest
  end.

(** Each time is strictly above the one before. *)
Fixpoint increasing (ts : list Q) : bool :=
  match ts with
  | [] => true
  | t :: rest =>
      match rest with
      | [] => true
      | t' :: _ => negb (Qle_bool t' t) && increasing rest
      end
  end.

(** ** LyricsBox: assigning the playing position to a word *)

(** What [_assignTime] reads of the media element. *)
Record media : Type :=
  mkMedia { readyState : Z; paused : bool; currentTime : number }.

(** [LyricsBox.prototype._assignTime], on the lyrics of the box.  The
    answer is [true], or [false] for the [undefined] of a bare
    [return]. *)
Definition _assignTime (index : Z) (m : media) (l : Lyrics)
  : result (bool * (Lyrics * list event)) :=
  if (readyState m =? 0) || paused m then Ok (false, (l, []))
  else if length_of l <=? index then Ok (false, (l, []))
  else
    r <- setTimeOfWord index (VNum (currentTime m)) l ;;
    Ok (true, r).

(** ** Offset tags *)

(** An offset tag, with the spelling [name] of ["[offset:"]. *)
Definition offset_tag (name : string) (ds : str) : str :=
  lit name ++ ds ++ [RBRACK].


(** ** Values on which the arithmetic of the code is exact

    The code computes in binary64; the operations of [Num] are exact.
    The two agree wherever the exact result is itself a binary64 value,
    since a binary64 operation returns the value nearest to the exact
    result.  A multiple of 1/8 of magnitude below 1e14 is such a value,
    and so are the sum and the difference of two of them, the fractional
    part of one, and that fractional part times 1000.  The statements
    whose conclusion depends on the digits of a time are made for these
    values. *)

(** The finite values of binary64: [m * 2^e] with [|m| < 2^53]. *)
Definition binary64 (q : Q) : Prop :=
  exists m e : Z,
    Z.abs m < 2 ^ 53 /\ -1074 <= e <= 971
    /\ (q == inject_Z m * Qpower 2 e)%Q.

(** A multiple of 1/8. *)
Definition eighth (q : Q) : bool := (8 * Qnum q) mod Z.pos (Qden q) =? 0.

(** A multiple of 1/8 of magnitude below 1e14. *)
Definition exact_value (q : Q) : bool :=
  eighth q && negb (Qle_bool (inject_Z (10 ^ 14)) (Qabs q)).








(** A Number that is not integral. *)
Definition fractional (q : Q) : bool :=
  negb (Qeq_bool q (inject_Z (Qfloor q))).

(** ** Tactics

    [chars] settles a goal about character classes by unfolding them
    down to comparisons of code units; [unlit] and [norm_app] bring the
    pieces of an exported line to one shape. *)

Ltac chars :=
  unfold line_char in *; unfold inner_char, word_char in *;
  unfold token_char, is_nonspace, is_dot in *;
  unfold is_space in *;
  unfold is_digit, is_white_space, is_line_terminator, is_char, fold_case,
    LT, GT, LBRACK, RBRACK, COLON, SP, LF, CR in *;
  repeat rewrite ?andb_true_iff, ?orb_true_iff, ?negb_true_iff,
    ?andb_false_iff, ?orb_false_iff, ?negb_false_iff,
    ?N.eqb_eq, ?N.eqb_neq, ?N.leb_le, ?N.leb_gt in *;
  lia.



(** * Proofs *)

(** ** Indexing and in-place updates *)

Lemma at_index_Some_range (ws : list word) (i : Z) (w : word) :
  at_index ws i = Some w -> 0 <= i < Z.of_nat (List.length ws).
Proof.
  unfold at_index. destruct (Z.ltb_spec i 0); [discriminate|].
  intros H0. assert (Hn : nth_error ws (Z.to_nat i) <> None) by congruence.
  apply nth_error_Some in Hn. lia.
Qed.

Lemma at_index_in_range (ws : list word) (i : Z) :
  0 <= i < Z.of_nat (List.length ws) -> exists w, at_index ws i = Some w.
Proof.
  intros Hi. unfold at_index. destruct (Z.ltb_spec i 0); [lia|].
  destruct (nth_error ws (Z.to_nat i)) eqn:E; [eauto|].
  apply nth_error_None in E. lia.
Qed.

Lemma at_index_out_of_range (ws : list word) (i : Z) :
  i < 0 \/ Z.of_nat (List.length ws) <= i -> at_index ws i = None.
Proof.
  intros Hi. destruct (at_index ws i) eqn:E; [|reflexivity].
  apply at_index_Some_range in E. lia.
Qed.

Lemma at_index_cons (w : word) (ws : list word) (i : Z) :
  0 <= i -> at_index (w :: ws) (i + 1) = at_index ws i.
Proof.
  intros Hi. unfold at_index.
  destruct (Z.ltb_spec (i + 1) 0); [lia|].
  destruct (Z.ltb_spec i 0); [lia|].
  replace (Z.to_nat (i + 1)) with (S (Z.to_nat i)) by lia. reflexivity.
Qed.

Lemma length_update_nth (ws : list word) (n : nat) (v : value) :
  List.length (update_nth ws n v) = List.length ws.
Proof.
  revert n. induction ws as [|w ws IH]; intros [|n]; simpl; auto.
Qed.

Lemma nth_error_update_nth (ws : list word) (n m : nat) (v : value) :
  nth_error (update_nth ws n v) m =
  if Nat.eqb m n
  then option_map (fun w => mkWord (text w) v) (nth_error ws m)
  else nth_error ws m.
Proof.
  revert n m. induction ws as [|w ws IH]; intros [|n] [|m]; simpl; auto.
  destruct (Nat.eqb m n); reflexivity.
Qed.

Lemma length_set_time (ws : list word) (i : Z) (v : value) :
  List.length (set_time ws i v) = List.length ws.
Proof.
  unfold set_time. destruct (i <? 0); [reflexivity|apply length_update_nth].
Qed.

Lemma at_index_set_time (ws : list word) (i j : Z) (v : value) :
  at_index (set_time ws i v) j =
  if j =? i
  then option_map (fun w => mkWord (text w) v) (at_index ws j)
  else at_index ws j.
Proof.
  unfold at_index, set_time.
  destruct (Z.ltb_spec j 0) as [Hj|Hj].
  - destruct (j =? i), (i <? 0); reflexivity.
  - destruct (Z.ltb_spec i 0) as [Hi|Hi].
    + destruct (Z.eqb_spec j i); [lia|reflexivity].
    + rewrite nth_error_update_nth.
      destruct (Z.eqb_spec j i) as [->|Hne].
      * rewrite Nat.eqb_refl. reflexivity.
      * destruct (Nat.eqb_spec (Z.to_nat j) (Z.to_nat i)); [lia|reflexivity].
Qed.

(** ** The repair passes *)

Lemma forward_pass_spec (fuel : nat) :
  forall (i : Z) (t : value) (ws : list word) (log : list event),
    0 <= i ->
    Z.of_nat (List.length ws) - i <= Z.of_nat fuel ->
    exists ws' log',
      forward_pass fuel i t (ws, log) = Ok (ws', log')
      /\ List.length ws' = List.length ws
      /\ forall j, at_index ws' j = option_map (cleared_from i t j) (at_index ws j).
Proof.
  induction fuel as [|fuel IH]; intros i t ws log Hi Hfuel; simpl.
  - exists ws, log. repeat split.
    intros j. destruct (at_index ws j) as [w|] eqn:E; [|reflexivity].
    apply at_index_Some_range in E. simpl. unfold cleared_from.
    destruct (Z.leb_spec i j); [lia|reflexivity].
  - destruct (Z.ltb_spec i (Z.of_nat (List.length ws))) as [Hlt|Hge].
    + destruct (at_index_in_range ws i) as [w Hw]; [lia|]. rewrite Hw.
      set (st' := if is_truthy (time w) && value_le (time w) t
                  then (set_time ws i VNull, log ++ [timeChanged i VNull])
                  else (ws, log)).
      destruct (IH (i + 1) t (fst st') (snd st')) as (ws' & log' & Hrun & Hlen & Hat).
      * lia.
      * subst st'. destruct (is_truthy (time w) && value_le (time w) t); simpl;
          rewrite ?length_set_time; lia.
      * exists ws', log'. rewrite <- surjective_pairing in Hrun.
        split; [exact Hrun|]. split.
        { rewrite Hlen. subst st'.
          destruct (is_truthy (time w) && value_le (time w) t); simpl;
            rewrite ?length_set_time; reflexivity. }
        intros j. rewrite Hat. subst st'. unfold cleared_from, timed.
        destruct (is_truthy (time w) && value_le (time w) t) eqn:Ec; simpl.
        { rewrite at_index_set_time. destruct (Z.eqb_spec j i) as [->|Hne].
          - rewrite Hw. simpl.
            destruct (Z.leb_spec (i + 1) i); [lia|].
            rewrite Z.leb_refl. simpl. fold (timed w). unfold timed.
            rewrite Ec. reflexivity.
          - destruct (at_index ws j); [|reflexivity]. simpl.
            destruct (Z.leb_spec (i + 1) j), (Z.leb_spec i j);
              try reflexivity; lia. }
        { destruct (at_index ws j) as [w'|] eqn:Ej; [|reflexivity]. simpl.
          destruct (Z.eqb_spec j i) as [->|Hne].
          - assert (w' = w) by congruence. subst w'.
            destruct (Z.leb_spec (i + 1) i); [lia|].
            rewrite Z.leb_refl. simpl. rewrite Ec. reflexivity.
          - destruct (Z.leb_spec (i + 1) j), (Z.leb_spec i j);
              try reflexivity; lia. }
    + exists ws, log. repeat split.
      intros j. destruct (at_index ws j) as [w|] eqn:E; [|reflexivity].
      apply at_index_Some_range in E. simpl. unfold cleared_from.
      destruct (Z.leb_spec i j); [lia|reflexivity].
Qed.

Lemma backward_pass_spec (fuel : nat) :
  forall (i : Z) (t : value) (ws : list word) (log : list event),
    i < Z.of_nat (List.length ws) ->
    i + 1 <= Z.of_nat fuel ->
    exists ws' log',
      backward_pass fuel i t (ws, log) = Ok (ws', log')
      /\ List.length ws' = List.length ws
      /\ forall j, at_index ws' j = option_map (cleared_upto i t j) (at_index ws j).
Proof.
  induction fuel as [|fuel IH]; intros i t ws log Hi Hfuel; simpl.
  - exists ws, log. repeat split.
    intros j. destruct (at_index ws j) as [w|] eqn:E; [|reflexivity].
    apply at_index_Some_range in E. simpl. unfold cleared_upto.
    destruct (Z.leb_spec j i); [lia|reflexivity].
  - destruct (Z.leb_spec 0 i) as [Hge|Hlt].
    + destruct (at_index_in_range ws i) as [w Hw]; [lia|]. rewrite Hw.
      set (st' := if is_truthy (time w) && value_ge (time w) t
                  then (set_time ws i VNull, log ++ [timeChanged i VNull])
                  else (ws, log)).
      destruct (IH (i - 1) t (fst st') (snd st')) as (ws' & log' & Hrun & Hlen & Hat).
      * subst st'. destruct (is_truthy (time w) && value_ge (time w) t); simpl;
          rewrite ?length_set_time; lia.
      * lia.
      * exists ws', log'. rewrite <- surjective_pairing in Hrun.
        split; [exact Hrun|]. split.
        { rewrite Hlen. subst st'.
          destruct (is_truthy (time w) && value_ge (time w) t); simpl;
            rewrite ?length_set_time; reflexivity. }
        intros j. rewrite Hat. subst st'. unfold cleared_upto, timed.
        destruct (is_truthy (time w) && value_ge (time w) t) eqn:Ec; simpl.
        { rewrite at_index_set_time. destruct (Z.eqb_spec j i) as [->|Hne].
          - rewrite Hw. simpl.
            destruct (Z.leb_spec i (i - 1)); [lia|].
            rewrite Z.leb_refl. simpl. rewrite Ec. reflexivity.
          - destruct (at_index ws j); [|reflexivity]. simpl.
            destruct (Z.leb_spec j (i - 1)), (Z.leb_spec j i);
              try reflexivity; lia. }
        { destruct (at_index ws j) as [w'|] eqn:Ej; [|reflexivity]. simpl.
          destruct (Z.eqb_spec j i) as [->|Hne].
          - assert (w' = w) by congruence. subst w'.
            destruct (Z.leb_spec i (i - 1)); [lia|].
            rewrite Z.leb_refl. simpl. rewrite Ec. reflexivity.
          - destruct (Z.leb_spec j (i - 1)), (Z.leb_spec j i);
              try reflexivity; lia. }
    + exists ws, log. repeat split.
      intros j. destruct (at_index ws j) as [w|] eqn:E; [|reflexivity].
      apply at_index_Some_range in E. simpl. unfold cleared_upto.
      destruct (Z.leb_spec j i); [lia|reflexivity].
Qed.

(** ** setTimeOfWord *)

Lemma setTimeOfWord_clear (index : Z) (t : value) (l : Lyrics) (w : word) :
  at_index (words l) index = Some w ->
  is_nullish t = true ->
  setTimeOfWord index t l =
  Ok (mkLyrics (set_time (words l) index t) (duration l),
      if loose_neq (time w) t then [timeChanged index t] else []).
Proof.
  intros Hw Ht. unfold setTimeOfWord. rewrite Hw, Ht. reflexivity.
Qed.

Lemma setTimeOfWord_spec (index : Z) (t : value) (l : Lyrics) :
  0 <= index < length_of l ->
  is_nullish t = false ->
  exists l' log,
    setTimeOfWord index t l = Ok (l', log)
    /\ duration l' = duration l
    /\ length_of l' = length_of l
    /\ forall j, at_index (words l') j =
                 option_map (repaired index t j) (at_index (words l) j).
Proof.
  intros Hi Ht. unfold length_of in Hi.
  destruct (at_index_in_range (words l) index Hi) as [w Hw].
  unfold setTimeOfWord. rewrite Hw, Ht.
  set (ws := set_time (words l) index t).
  set (log := if loose_neq (time w) t then [timeChanged index t] else []).
  assert (Hlen : List.length ws = List.length (words l))
    by apply length_set_time.
  destruct (forward_pass_spec (List.length ws) (index + 1) t ws log)
    as (ws1 & log1 & Hrun1 & Hlen1 & Hat1); [lia|lia|].
  rewrite Hrun1. simpl.
  destruct (backward_pass_spec (List.length ws) (index - 1) t ws1 log1)
    as (ws2 & log2 & Hrun2 & Hlen2 & Hat2); [lia|lia|].
  rewrite Hrun2. simpl.
  exists (mkLyrics ws2 (duration l)), log2.
  split; [reflexivity|]. split; [reflexivity|].
  split; [unfold length_of; simpl; lia|].
  intros j. simpl. rewrite Hat2, Hat1. subst ws.
  rewrite at_index_set_time. unfold repaired.
  destruct (Z.eqb_spec j index) as [->|Hne].
  - rewrite Hw. simpl. unfold cleared_upto, cleared_from, timed. simpl.
    destruct (Z.leb_spec (index + 1) index); [lia|]. simpl.
    destruct (Z.leb_spec index (index - 1)); [lia|]. reflexivity.
  - destruct (at_index (words l) j) as [wj|]; [|reflexivity]. simpl.
    unfold cleared_upto, cleared_from.
    destruct (Z.ltb_spec index j).
    + destruct (Z.leb_spec (index + 1) j); [|lia]. simpl.
      destruct (timed wj && value_le (time wj) t) eqn:Ec.
      * unfold timed at 1. simpl. rewrite andb_false_r. reflexivity.
      * destruct (Z.leb_spec j (index - 1)); [lia|]. reflexivity.
    + destruct (Z.leb_spec (index + 1) j); [lia|]. simpl.
      destruct (Z.leb_spec j (index - 1)); [|lia]. reflexivity.
Qed.

Lemma setTimeOfWord_total (index : Z) (t : value) (l : Lyrics) :
  0 <= index < length_of l ->
  exists l' log,
    setTimeOfWord index t l = Ok (l', log)
    /\ duration l' = duration l
    /\ length_of l' = length_of l.
Proof.
  intros Hi. destruct (is_nullish t) eqn:Ht.
  - destruct (at_index_in_range (words l) index Hi) as [w Hw].
    rewrite (setTimeOfWord_clear index t l w Hw Ht).
    eexists _, _. split; [reflexivity|]. split; [reflexivity|].
    unfold length_of. simpl. rewrite length_set_time. reflexivity.
  - destruct (setTimeOfWord_spec index t l Hi Ht) as (l' & log & H1 & H2 & H3 & _).
    eauto.
Qed.

(** ** Comparisons of timed values *)

Lemma truthy_le_total (a b : value) :
  is_truthy a = true -> is_truthy b = true ->
  value_le a b = false -> value_le b a = true.
Proof.
  unfold value_le.
  destruct a as [| |[| | |x]], b as [| |[| | |y]]; simpl; try discriminate; auto.
  intros _ _ H. unfold Qle_bool in *. lia.
Qed.

Lemma is_monotone_monotone (p : value -> bool) (ws : list word) :
  is_monotone p ws = true -> monotone p ws.
Proof.
  induction ws as [|w ws IH]; intros H i j wi wj Hij Hi Hj Pi Pj.
  - apply at_index_Some_range in Hi. simpl in Hi. lia.
  - simpl in H. apply andb_true_iff in H as [Hw Hrest].
    replace j with ((j - 1) + 1) in Hj by lia.
    rewrite at_index_cons in Hj by lia.
    destruct (Z.eq_dec i 0) as [->|Hne].
    + cbn in Hi. injection Hi as <-.
      rewrite Pi in Hw. simpl in Hw. rewrite forallb_forall in Hw.
      unfold at_index in Hj. destruct (j - 1 <? 0); [discriminate|].
      apply nth_error_In in Hj. specialize (Hw _ Hj).
      rewrite Pj in Hw. exact Hw.
    + replace i with ((i - 1) + 1) in Hi by lia.
      rewrite at_index_cons in Hi by lia.
      apply (IH Hrest (i - 1) (j - 1)); auto. lia.
Qed.

Lemma monotone_is_monotone (p : value -> bool) (ws : list word) :
  monotone p ws -> is_monotone p ws = true.
Proof.
  induction ws as [|w ws IH]; intros H; [reflexivity|].
  simpl. apply andb_true_iff. split.
  - destruct (p (time w)) eqn:Pw; [|reflexivity]. simpl.
    apply forallb_forall. intros w' Hin.
    destruct (p (time w')) eqn:Pw'; [|reflexivity]. simpl.
    apply In_nth_error in Hin as [n Hn].
    apply (H 0 (Z.of_nat n + 1)); auto; try lia.
    rewrite at_index_cons by lia. unfold at_index.
    destruct (Z.ltb_spec (Z.of_nat n) 0); [lia|].
    rewrite Nat2Z.id. exact Hn.
  - apply IH. intros i j wi wj Hij Hi Hj.
    apply (H (i + 1) (j + 1)); try lia; rewrite at_index_cons; auto; lia.
Qed.

Lemma setTimeOfWord_keeps_monotone (index : Z) (t : value) (l l' : Lyrics)
    (log : list event) :
  monotone is_truthy (words l) ->
  setTimeOfWord index t l = Ok (l', log) ->
  monotone is_truthy (words l').
Proof.
  intros Hmono Hrun.
  destruct (at_index (words l) index) as [w|] eqn:Hw;
    [|unfold setTimeOfWord in Hrun; rewrite Hw in Hrun; discriminate].
  pose proof (at_index_Some_range _ _ _ Hw) as Hrange.
  destruct (is_nullish t) eqn:Ht.
  - rewrite (setTimeOfWord_clear index t l w Hw Ht) in Hrun.
    injection Hrun as <- _. simpl.
    intros i j wi wj Hij Hi Hj Pi Pj.
    rewrite at_index_set_time in Hi, Hj.
    assert (Hfalsy : is_truthy t = false) by (destruct t; auto; discriminate).
    destruct (Z.eqb_spec i index).
    { destruct (at_index (words l) i); [|discriminate].
      injection Hi as <-. simpl in Pi. congruence. }
    destruct (Z.eqb_spec j index).
    { destruct (at_index (words l) j); [|discriminate].
      injection Hj as <-. simpl in Pj. congruence. }
    eapply Hmono; eauto.
  - destruct (setTimeOfWord_spec index t l Hrange Ht)
      as (l2 & log2 & Hrun2 & _ & _ & Hat).
    rewrite Hrun in Hrun2. injection Hrun2 as <- <-.
    intros i j wi wj Hij Hi Hj Pi Pj.
    rewrite Hat in Hi, Hj.
    destruct (at_index (words l) i) as [ui|] eqn:Ei; [|discriminate].
    destruct (at_index (words l) j) as [uj|] eqn:Ej; [|discriminate].
    simpl in Hi, Hj. injection Hi as <-. injection Hj as <-.
    unfold repaired in *.
    destruct (Z.eqb_spec i index) as [->|Hni];
      destruct (Z.eqb_spec j index) as [->|Hnj]; try lia.
    + (* the word just timed against a later survivor *)
      simpl in *. destruct (Z.ltb_spec index j); [|lia].
      destruct (timed uj && value_le (time uj) t) eqn:Ec; [discriminate|].
      unfold timed in Ec. rewrite Pj in Ec. simpl in Ec.
      apply truthy_le_total; auto.
    + (* an earlier survivor against the word just timed *)
      simpl in *. destruct (Z.ltb_spec index i); [lia|].
      destruct (timed ui && value_ge (time ui) t) eqn:Ec; [discriminate|].
      unfold timed in Ec. rewrite Pi in Ec. simpl in Ec.
      unfold value_ge, Num.ge in Ec. fold (value_le t (time ui)) in Ec.
      apply truthy_le_total in Ec; auto.
    + (* two words the call did not time *)
      assert (Hi' : is_truthy (time ui) = true /\
                    time (if timed ui && (if index <? i then value_le (time ui) t
                                          else value_ge (time ui) t)
                          then mkWord (text ui) VNull else ui) = time ui).
      { destruct (timed ui && _); [discriminate|auto]. }
      assert (Hj' : is_truthy (time uj) = true /\
                    time (if timed uj && (if index <? j then value_le (time uj) t
                                          else value_ge (time uj) t)
                          then mkWord (text uj) VNull else uj) = time uj).
      { destruct (timed uj && _); [discriminate|auto]. }
      destruct Hi' as [Ti ->], Hj' as [Tj ->].
      eapply Hmono; eauto.
Qed.

Lemma run_calls_keeps_monotone (calls : list (Z * value)) :
  forall l : Lyrics,
    monotone is_truthy (words l) ->
    forallb (valid_call l) calls = true ->
    exists l' log,
      run_calls calls l = Ok (l', log)
      /\ length_of l' = length_of l
      /\ monotone is_truthy (words l').
Proof.
  induction calls as [|[index t] calls IH]; intros l Hmono Hvalid; simpl.
  - eauto.
  - simpl in Hvalid. apply andb_true_iff in Hvalid as [Hc Hrest].
    unfold valid_call in Hc. simpl in Hc.
    apply andb_true_iff in Hc as [H0 H1].
    apply Z.leb_le in H0. apply Z.ltb_lt in H1.
    destruct (setTimeOfWord_total index t l (conj H0 H1))
      as (l1 & log1 & Hrun1 & _ & Hlen1).
    rewrite Hrun1. simpl.
    destruct (IH l1) as (l2 & log2 & Hrun2 & Hlen2 & Hmono2).
    + eapply setTimeOfWord_keeps_monotone; eauto.
    + rewrite forallb_forall in Hrest |- *. intros c Hin.
      specialize (Hrest c Hin). unfold valid_call in *.
      rewrite Hlen1. exact Hrest.
    + rewrite Hrun2. simpl. exists l2, (log1 ++ log2).
      split; [reflexivity|]. split; [lia|exact Hmono2].
Qed.

(** ** Exact arithmetic up to the representation of a rational *)

Lemma approx_Fin (q : Q) : approx (Fin q) q.
Proof. exists q. split; reflexivity. Qed.

Lemma approx_ofZ (z : Z) : approx (ofZ z) (inject_Z z).
Proof. apply approx_Fin. Qed.

Lemma approx_fin (q r : Q) : q == r -> approx (fin q) r.
Proof. intros H. exists (Qred q). split; [reflexivity|]. rewrite Qred_correct. exact H. Qed.

Lemma approx_add (a b : number) (x y : Q) :
  approx a x -> approx b y -> approx (Num.add a b) (x + y).
Proof.
  intros (x' & -> & Hx) (y' & -> & Hy). cbn [Num.add]. apply approx_fin.
  rewrite Hx, Hy. reflexivity.
Qed.

Lemma approx_sub (a b : number) (x y : Q) :
  approx a x -> approx b y -> approx (Num.sub a b) (x - y).
Proof.
  intros (x' & -> & Hx) (y' & -> & Hy).
  unfold Num.sub. cbn [Num.neg Num.add]. unfold fin at 2. cbn [Num.add].
  apply approx_fin. rewrite Qred_correct, Hx, Hy. reflexivity.
Qed.






Lemma Qle_bool_comp (a b c d : Q) :
  a == c -> b == d -> Qle_bool a b = Qle_bool c d.
Proof.
  intros H1 H2. destruct (Qle_bool c d) eqn:E.
  - apply Qle_bool_iff. rewrite H1, H2. apply Qle_bool_iff. exact E.
  - destruct (Qle_bool a b) eqn:E'; [|reflexivity].
    apply Qle_bool_iff in E'. rewrite H1, H2 in E'.
    apply Qle_bool_iff in E'. congruence.
Qed.


Lemma approx_eq (a : number) (q r : Q) : approx a q -> q == r -> approx a r.
Proof.
  intros (q' & -> & Hq) H. exists q'. split; [reflexivity|].
  rewrite Hq. exact H.
Qed.

(** ** getIndexForTime on a strictly increasing timeline *)







(** ** A zero time counts as no time *)

Lemma is_truthy_zero_time (v : value) :
  is_zero_time v = true -> is_truthy v = false.
Proof.
  destruct v as [| |[| | |q]]; simpl; try discriminate.
  intros ->. reflexivity.
Qed.

Lemma is_truthy_forget_zero_word (w : word) :
  is_truthy (time (forget_zero_word w)) = is_truthy (time w).
Proof.
  unfold forget_zero_word. destruct (is_zero_time (time w)) eqn:E; [|reflexivity].
  simpl. symmetry. apply is_truthy_zero_time. exact E.
Qed.

Lemma time_forget_zero_word (w : word) :
  is_truthy (time w) = true -> time (forget_zero_word w) = time w.
Proof.
  intros H. unfold forget_zero_word.
  destruct (is_zero_time (time w)) eqn:E; [|reflexivity].
  apply is_truthy_zero_time in E. congruence.
Qed.

Lemma getIndexForTime_loop_forget_zero (ws : list word) :
  forall (i len : Z) (dur : value) (ts e : number) (ei : Z),
    getIndexForTime_loop (List.map forget_zero_word ws) i len dur ts e ei
    = getIndexForTime_loop ws i len dur ts e ei.
Proof.
  induction ws as [|w ws IH]; intros i len dur ts e ei; [reflexivity|].
  cbn [List.map getIndexForTime_loop].
  rewrite is_truthy_forget_zero_word, !IH.
  destruct (is_truthy (time w)) eqn:Htr.
  - rewrite (time_forget_zero_word w Htr). reflexivity.
  - cbn [negb andb]. destruct (i =? len - 1); [reflexivity|].
    cbn [orb]. rewrite is_truthy_forget_zero_word, Htr. reflexivity.
Qed.

Lemma at_index_map (f : word -> word) (ws : list word) (i : Z) :
  at_index (List.map f ws) i = option_map f (at_index ws i).
Proof.
  unfold at_index. destruct (i <? 0); [reflexivity|].
  apply nth_error_map.
Qed.

Lemma at_number_map (f : word -> word) (ws : list word) (i : number) :
  at_number (List.map f ws) i = option_map f (at_number ws i).
Proof.
  destruct i as [| | |q]; try reflexivity. simpl.
  destruct (Qeq_bool q (inject_Z (Qfloor q))); [apply at_index_map|reflexivity].
Qed.

Lemma search_earlier_forget_zero (fuel : nat) :
  forall (ws : list word) (i : number),
    search_earlier fuel (List.map forget_zero_word ws) i
    = search_earlier fuel ws i.
Proof.
  induction fuel as [|fuel IH]; intros ws i; [reflexivity|].
  cbn [search_earlier]. rewrite at_number_map, IH.
  destruct (Num.ge i (Fin 0)); [|reflexivity].
  destruct (at_number ws i) as [w|]; [|reflexivity].
  cbn [option_map]. rewrite is_truthy_forget_zero_word.
  destruct (is_truthy (time w)) eqn:Htr; [|reflexivity].
  rewrite (time_forget_zero_word w Htr). reflexivity.
Qed.

Lemma search_later_forget_zero (fuel : nat) :
  forall (ws : list word) (dur : value) (i : number),
    search_later fuel (List.map forget_zero_word ws) dur i
    = search_later fuel ws dur i.
Proof.
  induction fuel as [|fuel IH]; intros ws dur i.
  - cbn [search_later]. rewrite length_map. reflexivity.
  - cbn [search_later]. rewrite at_number_map, IH, length_map.
    destruct (Num.lt i (ofZ (Z.of_nat (List.length ws)))); [|reflexivity].
    destruct (at_number ws i) as [w|]; [|reflexivity].
    cbn [option_map]. rewrite is_truthy_forget_zero_word.
    destruct (is_truthy (time w)) eqn:Htr; [|reflexivity].
    rewrite (time_forget_zero_word w Htr). reflexivity.
Qed.

Lemma repaired_zero_time (index : Z) (t : value) (j : Z) (w : word) :
  j <> index -> is_zero_time (time w) = true -> repaired index t j w = w.
Proof.
  intros Hj Hz. unfold repaired, timed.
  destruct (Z.eqb_spec j index); [contradiction|].
  rewrite (is_truthy_zero_time _ Hz). reflexivity.
Qed.

Lemma setTimeOfWord_spares_zero (index : Z) (t : value) (l l' : Lyrics)
    (log : list event) (j : Z) (w : word) :
  setTimeOfWord index t l = Ok (l', log) ->
  j <> index ->
  at_index (words l) j = Some w ->
  is_zero_time (time w) = true ->
  at_index (words l') j = Some w.
Proof.
  intros Hrun Hj Hw Hz.
  destruct (at_index (words l) index) as [wi|] eqn:Hwi;
    [|unfold setTimeOfWord in Hrun; rewrite Hwi in Hrun; discriminate].
  pose proof (at_index_Some_range _ _ _ Hwi) as Hrange.
  destruct (is_nullish t) eqn:Ht.
  - rewrite (setTimeOfWord_clear index t l wi Hwi Ht) in Hrun.
    injection Hrun as <- _. simpl. rewrite at_index_set_time.
    destruct (Z.eqb_spec j index); [contradiction|exact Hw].
  - destruct (setTimeOfWord_spec index t l Hrange Ht)
      as (l2 & log2 & Hrun2 & _ & _ & Hat).
    rewrite Hrun in Hrun2. injection Hrun2 as <- <-.
    rewrite Hat, Hw. simpl. rewrite repaired_zero_time; auto.
Qed.

(** ** getApproximateTime on integral indices *)

Lemma at_number_integer (ws : list word) (i : number) (z : Z) :
  approx i (inject_Z z) -> at_number ws i = at_index ws z.
Proof.
  intros (q & -> & Hq). simpl.
  rewrite (Qfloor_comp q (inject_Z z) Hq), Qfloor_Z.
  assert (E : Qeq_bool q (inject_Z z) = true) by (apply Qeq_bool_iff; exact Hq).
  rewrite E. reflexivity.
Qed.

Lemma ge_zero_integer (i : number) (z : Z) :
  approx i (inject_Z z) -> Num.ge i (Fin 0) = (0 <=? z).
Proof.
  intros (q & -> & Hq). unfold Num.ge. simpl.
  rewrite (Qle_bool_comp 0 q 0 (inject_Z z)) by (auto; reflexivity).
  destruct (Z.leb_spec 0 z).
  - apply Qle_bool_iff. unfold Qle. simpl. lia.
  - destruct (Qle_bool 0 (inject_Z z)) eqn:E; [|reflexivity].
    apply Qle_bool_iff in E. unfold Qle in E. simpl in E. lia.
Qed.

Lemma lt_integer (i : number) (z len : Z) :
  approx i (inject_Z z) -> Num.lt i (ofZ len) = (z <? len).
Proof.
  intros (q & -> & Hq). simpl.
  rewrite (Qle_bool_comp (inject_Z len) q (inject_Z len) (inject_Z z))
    by (auto; reflexivity).
  destruct (Z.ltb_spec z len).
  - destruct (Qle_bool (inject_Z len) (inject_Z z)) eqn:E; [|reflexivity].
    apply Qle_bool_iff in E. rewrite <- Zle_Qle in E. lia.
  - apply negb_false_iff. apply Qle_bool_iff. rewrite <- Zle_Qle. assumption.
Qed.

Lemma approx_pred (i : number) (z : Z) :
  approx i (inject_Z z) -> approx (Num.sub i (Fin 1)) (inject_Z (z - 1)).
Proof.
  intros H. eapply approx_eq.
  - apply approx_sub; [exact H|apply approx_Fin].
  - unfold Z.sub. rewrite inject_Z_plus. unfold Qminus. reflexivity.
Qed.

Lemma approx_succ (i : number) (z : Z) :
  approx i (inject_Z z) -> approx (Num.add i (Fin 1)) (inject_Z (z + 1)).
Proof.
  intros H. eapply approx_eq.
  - apply approx_add; [exact H|apply approx_Fin].
  - rewrite inject_Z_plus. reflexivity.
Qed.

Lemma search_earlier_returns (fuel : nat) :
  forall (ws : list word) (i : number) (z : Z),
    approx i (inject_Z z) ->
    z < Z.of_nat (List.length ws) ->
    z + 2 <= Z.of_nat fuel ->
    exists a, search_earlier fuel ws i = Ok a.
Proof.
  induction fuel as [|fuel IH]; intros ws i z Hi Hz Hfuel;
    [cbn [search_earlier]; eauto|].
  cbn [search_earlier]. rewrite (ge_zero_integer i z Hi).
  destruct (Z.leb_spec 0 z); [|eauto].
  rewrite (at_number_integer ws i z Hi).
  destruct (at_index_in_range ws z) as [w Hw]; [lia|]. rewrite Hw.
  destruct (is_truthy (time w)); [eauto|].
  apply (IH ws _ (z - 1)); [apply approx_pred; exact Hi|lia|lia].
Qed.

Lemma search_later_returns (fuel : nat) :
  forall (ws : list word) (dur : value) (i : number) (z : Z),
    approx i (inject_Z z) ->
    0 <= z ->
    Z.of_nat (List.length ws) - z + 1 <= Z.of_nat fuel ->
    exists a, search_later fuel ws dur i = Ok a.
Proof.
  induction fuel as [|fuel IH]; intros ws dur i z Hi Hz Hfuel.
  - cbn [search_later]. eauto.
  - cbn [search_later]. rewrite (lt_integer i z _ Hi).
    destruct (Z.ltb_spec z (Z.of_nat (List.length ws))); [|eauto].
    rewrite (at_number_integer ws i z Hi).
    destruct (at_index_in_range ws z) as [w Hw]; [lia|]. rewrite Hw.
    destruct (is_truthy (time w)); [eauto|].
    apply (IH ws dur _ (z + 1)); [apply approx_succ; exact Hi|lia|lia].
Qed.

Lemma getApproximateTime_returns (l : Lyrics) (z : Z) :
  -1 <= z <= length_of l ->
  exists r, getApproximateTime (ANumber (ofZ z)) l = Ok r.
Proof.
  intros Hz. unfold length_of in Hz. cbn [getApproximateTime].
  destruct (search_earlier_returns (S (List.length (words l))) (words l)
              (Num.sub (ofZ z) (Fin 1)) (z - 1)) as [a Ha];
    [apply approx_pred; apply approx_ofZ|lia|lia|].
  rewrite Ha. cbn [bind].
  destruct (Z.eq_dec z (-1)) as [->|Hne].
  - destruct (search_later_returns (S (List.length (words l))) (words l)
                (duration l) (Num.add (ofZ (-1)) (Fin 1)) 0) as [b Hb];
      [apply (approx_succ (ofZ (-1)) (-1)); apply approx_ofZ|lia|lia|].
    rewrite Hb. cbn [bind]. eauto.
  - destruct (search_later_returns (S (List.length (words l))) (words l)
                (duration l) (Num.add (ofZ z) (Fin 1)) (z + 1)) as [b Hb];
      [apply approx_succ; apply approx_ofZ|lia|lia|].
    rewrite Hb. cbn [bind]. eauto.
Qed.

Lemma getApproximateTime_throws (l : Lyrics) (z : Z) :
  z < -1 \/ length_of l < z ->
  getApproximateTime (ANumber (ofZ z)) l = Throw TypeError.
Proof.
  intros Hz. unfold length_of in Hz. cbn [getApproximateTime search_earlier].
  pose proof (approx_pred (ofZ z) z (approx_ofZ z)) as Hp.
  pose proof (approx_succ (ofZ z) z (approx_ofZ z)) as Hs.
  rewrite (ge_zero_integer _ _ Hp), (at_number_integer _ _ _ Hp).
  destruct Hz as [Hz|Hz].
  - destruct (Z.leb_spec 0 (z - 1)); [lia|]. cbn [bind search_later].
    rewrite (lt_integer _ _ _ Hs), (at_number_integer _ _ _ Hs).
    destruct (Z.ltb_spec (z + 1) (Z.of_nat (List.length (words l)))); [|lia].
    rewrite at_index_out_of_range by lia. reflexivity.
  - destruct (Z.leb_spec 0 (z - 1)); [|lia].
    rewrite at_index_out_of_range by lia. reflexivity.
Qed.

Lemma toELRC_loop_forget_zero (ws : list word) :
  forall (isNewLine isFirstWord : bool) (result : str),
    toELRC_loop (List.map forget_zero_word ws) isNewLine isFirstWord result
    = toELRC_loop ws isNewLine isFirstWord result.
Proof.
  induction ws as [|w ws IH]; intros isNewLine isFirstWord result; [reflexivity|].
  cbn [List.map toELRC_loop]. rewrite IH.
  rewrite is_truthy_forget_zero_word.
  assert (Htext : text (forget_zero_word w) = text w).
  { unfold forget_zero_word. destruct (is_zero_time (time w)); reflexivity. }
  rewrite Htext.
  destruct (is_truthy (time w)) eqn:Htr; [|reflexivity].
  rewrite (time_forget_zero_word w Htr). reflexivity.
Qed.

Lemma forallb_firstn {A : Type} (f : A -> bool) (n : nat) (xs : list A) :
  forallb f xs = true -> forallb f (firstn n xs) = true.
Proof.
  revert n. induction xs as [|x xs IH]; intros [|n] H; simpl; auto.
  simpl in H. apply andb_true_iff in H as [Hx Hxs].
  rewrite Hx. simpl. apply IH. exact Hxs.
Qed.

(** ** Floors *)

Lemma Qfloor_unique (x : Q) (z : Z) :
  (inject_Z z <= x)%Q -> (x < inject_Z (z + 1))%Q -> Qfloor x = z.
Proof.
  intros Hlo Hhi.
  pose proof (Qfloor_le x) as Hle. pose proof (Qlt_floor x) as Hlt.
  assert (H1 : Qfloor x < z + 1).
  { rewrite Zlt_Qlt. eapply Qle_lt_trans; eauto. }
  assert (H2 : z < Qfloor x + 1).
  { rewrite Zlt_Qlt. eapply Qle_lt_trans; eauto. }
  lia.
Qed.

Lemma Qfloor_bounds (x : Q) :
  (inject_Z (Qfloor x) <= x)%Q /\ (x < inject_Z (Qfloor x) + 1)%Q.
Proof.
  split; [apply Qfloor_le|].
  pose proof (Qlt_floor x) as H. rewrite inject_Z_plus in H. exact H.
Qed.

Lemma Qfloor_div_60 (q : Q) : Qfloor (q / 60) = Qfloor q / 60.
Proof.
  destruct (Qfloor_bounds q) as [Hlo Hhi].
  pose proof (Z.div_mod (Qfloor q) 60 ltac:(lia)) as Hdm.
  pose proof (Z.mod_pos_bound (Qfloor q) 60 ltac:(lia)) as Hmod.
  set (a := Qfloor q) in *. set (k := a / 60) in *.
  assert (H1 : (inject_Z (60 * k) <= inject_Z a)%Q) by (rewrite <- Zle_Qle; lia).
  assert (H2 : (inject_Z (a + 1) <= inject_Z (60 * k + 60))%Q)
    by (rewrite <- Zle_Qle; lia).
  rewrite !inject_Z_plus in H2. rewrite inject_Z_mult in H1, H2.
  change (inject_Z 60) with 60%Q in *. change (inject_Z 1) with 1%Q in *.
  apply Qfloor_unique.
  - apply Qle_shift_div_l; [reflexivity|]. lra.
  - apply Qlt_shift_div_r; [reflexivity|]. rewrite inject_Z_plus.
    change (inject_Z 1) with 1%Q. lra.
Qed.

Lemma Qfloor_minus_Z (x : Q) (k : Z) : Qfloor (x - inject_Z k) = Qfloor x - k.
Proof.
  destruct (Qfloor_bounds x) as [Hlo Hhi].
  apply Qfloor_unique.
  - unfold Z.sub. rewrite inject_Z_plus, inject_Z_opp. lra.
  - replace (Qfloor x - k + 1) with (Qfloor x + 1 + - k) by lia.
    rewrite !inject_Z_plus, inject_Z_opp. change (inject_Z 1) with 1%Q. lra.
Qed.

Lemma Qfloor_seconds (q : Q) :
  Qfloor (q - 60 * inject_Z (Qfloor (q / 60))) = Qfloor q mod 60.
Proof.
  rewrite Qfloor_div_60.
  change 60%Q with (inject_Z 60). rewrite <- inject_Z_mult, Qfloor_minus_Z.
  rewrite Z.mod_eq by lia. reflexivity.
Qed.

Lemma Qfloor_times_1000 (q : Q) : Qfloor (q * 1000) / 1000 = Qfloor q.
Proof.
  destruct (Qfloor_bounds q) as [Hlo Hhi].
  destruct (Qfloor_bounds (q * 1000)) as [Hlo' Hhi'].
  set (a := Qfloor q) in *. set (b := Qfloor (q * 1000)) in *.
  assert (H1 : 1000 * a <= b).
  { assert (H : 1000 * a < b + 1); [|lia].
    rewrite Zlt_Qlt, inject_Z_plus, inject_Z_mult.
    change (inject_Z 1000) with 1000%Q. change (inject_Z 1) with 1%Q. lra. }
  assert (H2 : b < 1000 * a + 1000).
  { rewrite Zlt_Qlt, inject_Z_plus, inject_Z_mult.
    change (inject_Z 1000) with 1000%Q. lra. }
  symmetry. apply (Z.div_unique b 1000 a (b - 1000 * a)); lia.
Qed.

Lemma Qfloor_millis (q : Q) :
  Qfloor ((q + - inject_Z (Qfloor q)) * 1000) = Qfloor (q * 1000) mod 1000.
Proof.
  assert (E : ((q + - inject_Z (Qfloor q)) * 1000
               == q * 1000 - inject_Z (1000 * Qfloor q))%Q).
  { rewrite inject_Z_mult. change (inject_Z 1000) with 1000%Q. ring. }
  rewrite E, Qfloor_minus_Z, Z.mod_eq by lia.
  rewrite Qfloor_times_1000. reflexivity.
Qed.

(** ** Decimal rendering *)

Lemma below_spec (P : Z -> bool) (n : nat) :
  forallb P (below n) = true ->
  forall z, 0 <= z < Z.of_nat n -> P z = true.
Proof.
  intros H z Hz. rewrite forallb_forall in H. apply H.
  unfold below. apply in_map_iff. exists (Z.to_nat z). split; [lia|].
  apply in_seq. lia.
Qed.

Lemma length_decimal_digits (fuel : nat) :
  forall (z : Z) (acc : str),
    (List.length acc + Nat.min fuel 1
     <= List.length (decimal_digits fuel z acc))%nat.
Proof.
  induction fuel as [|fuel IH]; intros z acc; [simpl; lia|].
  cbn [decimal_digits]. destruct (z <? 10); [simpl; lia|].
  specialize (IH (z / 10) (Z.to_N (48 + z mod 10) :: acc)).
  cbn [List.length] in IH. lia.
Qed.

Lemma length_nat_to_str_small :
  forall z, 0 <= z < 1000 ->
            List.length (nat_to_str z)
            = if z <? 10 then 1%nat else if z <? 100 then 2%nat else 3%nat.
Proof.
  intros z Hz.
  apply Nat.eqb_eq.
  apply (below_spec
           (fun z => Nat.eqb (List.length (nat_to_str z))
                             (if z <? 10 then 1 else if z <? 100 then 2 else 3))
           1000); [vm_compute; reflexivity|lia].
Qed.

Lemma length_nat_to_str_large (z : Z) :
  10 <= z -> (2 <= List.length (nat_to_str z))%nat.
Proof.
  intros Hz. unfold nat_to_str.
  assert (Hlog : 3 <= Z.log2 z) by (apply Z.log2_le_pow2; lia).
  destruct (Z.to_nat (Z.log2 z)) as [|fuel] eqn:Ef; [lia|].
  cbn [decimal_digits]. destruct (Z.ltb_spec z 10); [lia|].
  destruct (z / 10 <? 10);
    [cbn [List.length]; lia|].
  match goal with
  | |- (2 <= List.length (decimal_digits ?f ?x ?acc))%nat =>
      pose proof (length_decimal_digits f x acc) as Hlen
  end.
  cbn [List.length] in Hlen. lia.
Qed.

Lemma int_to_str_positional (z : Z) :
  0 <= z < 10 ^ 21 -> int_to_str z = nat_to_str z.
Proof.
  intros Hz. unfold int_to_str. rewrite Z.abs_eq by lia.
  destruct (Z.ltb_spec z (10 ^ 21)); [|lia].
  destruct (Z.ltb_spec z 0); [lia|reflexivity].
Qed.

Lemma two_digits_zero_pad (z : Z) :
  0 <= z < 10 ^ 21 -> two_digits z = zero_pad 2 z.
Proof.
  intros Hz. unfold two_digits, zero_pad.
  rewrite int_to_str_positional by exact Hz.
  destruct (Z.leb_spec 10 z).
  - pose proof (length_nat_to_str_large z H) as Hlen.
    replace (2 - List.length (nat_to_str z))%nat with 0%nat by lia.
    reflexivity.
  - rewrite length_nat_to_str_small by lia.
    destruct (Z.ltb_spec z 10); [reflexivity|lia].
Qed.

Lemma three_digits_zero_pad (z : Z) :
  0 <= z < 1000 -> z <> 10 -> three_digits z = zero_pad 3 z.
Proof.
  intros Hz Hne. unfold three_digits, zero_pad.
  rewrite int_to_str_positional by (change (10 ^ 21) with 1000000000000000000000; lia).
  rewrite length_nat_to_str_small by lia.
  destruct (Z.leb_spec 100 z), (Z.ltb_spec 10 z), (Z.ltb_spec z 10),
    (Z.ltb_spec z 100); try lia; reflexivity.
Qed.

Lemma length_zero_pad_small (width : nat) (z : Z) :
  0 <= z < 1000 ->
  (z < 10 ^ Z.of_nat width) ->
  (1 <= width <= 3)%nat ->
  List.length (zero_pad width z) = width.
Proof.
  intros Hz Hw Hwidth. unfold zero_pad.
  rewrite length_app, repeat_length, length_nat_to_str_small by lia.
  destruct width as [|[|[|[|w]]]]; try lia;
    cbn in Hw;
    destruct (Z.ltb_spec z 10), (Z.ltb_spec z 100); lia.
Qed.

(** ** toTimer on a non-negative time *)

Lemma Qle_bool_inject_Z (a b : Z) :
  Qle_bool (inject_Z a) (inject_Z b) = (a <=? b).
Proof.
  unfold Qle_bool. simpl. rewrite !Z.mul_1_r. reflexivity.
Qed.

Lemma padded_two_digits (z : Z) :
  (if isNaN (ofZ z) then lit "--"
   else if Num.ge (ofZ z) (Fin 10) then num_to_str (ofZ z)
        else lit "0" ++ num_to_str (ofZ z))
  = two_digits z.
Proof.
  unfold two_digits, Num.ge, ofZ. cbn [isNaN Num.le num_to_str].
  change 10%Q with (inject_Z 10).
  rewrite Qle_bool_inject_Z, Qfloor_Z. reflexivity.
Qed.

Lemma padded_three_digits (z : Z) :
  (if isNaN (ofZ z) then lit "--"
   else if Num.ge (ofZ z) (Fin 100) then num_to_str (ofZ z)
        else if Num.lt (Fin 10) (ofZ z) then lit "0" ++ num_to_str (ofZ z)
             else lit "00" ++ num_to_str (ofZ z))
  = three_digits z.
Proof.
  unfold three_digits, Num.ge, ofZ. cbn [isNaN Num.le Num.lt num_to_str].
  change 10%Q with (inject_Z 10). change 100%Q with (inject_Z 100).
  rewrite !Qle_bool_inject_Z, Qfloor_Z.
  replace (negb (z <=? 10)) with (10 <? z)
    by (destruct (Z.ltb_spec 10 z), (Z.leb_spec z 10); try reflexivity; lia).
  reflexivity.
Qed.

Lemma nonneg_Qnum (q : Q) : (0 <= q)%Q -> 0 <= Qnum q.
Proof. unfold Qle. simpl. lia. Qed.

Lemma floor_minutes (q : Q) :
  Num.floor (Num.div (Fin q) (Fin 60)) = ofZ (minutes q).
Proof.
  unfold minutes. cbn [Num.div Num.floor]. change (zeroQ 60) with false.
  cbn [fin Num.floor]. rewrite Qred_correct. reflexivity.
Qed.

Lemma floor_seconds (q : Q) :
  (0 <= q)%Q -> Num.floor (Num.rem (Fin q) (Fin 60)) = ofZ (seconds q).
Proof.
  intros Hq. unfold seconds. cbn [Num.rem]. change (zeroQ 60) with false.
  cbn [fin Num.floor]. rewrite Qred_correct.
  assert (Hneg : negQ (q / 60) = false).
  { unfold negQ. apply Z.ltb_ge. pose proof (nonneg_Qnum q Hq).
    destruct q as [n d]. simpl in *. lia. }
  unfold Qtrunc. rewrite Hneg, Qfloor_seconds. reflexivity.
Qed.

Lemma floor_millis (q : Q) :
  Num.floor (Num.mul (Num.sub (Fin q) (Num.floor (Fin q))) (Fin 1000))
  = ofZ (millis q).
Proof.
  unfold millis, Num.sub, ofZ.
  cbn [Num.floor Num.neg Num.add Num.mul fin ofZ].
  rewrite !Qred_correct, Qfloor_millis. reflexivity.
Qed.

Lemma toTimer_fields (q : Q) :
  (0 <= q)%Q ->
  toTimer (VNum (Fin q)) false
  = two_digits (minutes q) ++ lit ":" ++ two_digits (seconds q)
    ++ lit "." ++ three_digits (millis q).
Proof.
  intros Hq. unfold toTimer. cbv zeta. cbn [to_number].
  rewrite floor_minutes, (floor_seconds q Hq), floor_millis.
  rewrite !padded_two_digits, padded_three_digits. reflexivity.
Qed.

Lemma minutes_nonneg (q : Q) : (0 <= q)%Q -> 0 <= minutes q.
Proof.
  intros Hq. unfold minutes. rewrite Qfloor_div_60.
  apply Z.div_pos; [|lia].
  change 0 with (Qfloor 0). apply Qfloor_resp_le. exact Hq.
Qed.

Lemma minutes_below (q : Q) (b : Z) :
  (q < inject_Z (60 * b))%Q -> minutes q < b.
Proof.
  intros Hq. unfold minutes. rewrite Qfloor_div_60.
  apply Z.div_lt_upper_bound; [lia|].
  rewrite Zlt_Qlt. eapply Qle_lt_trans; [apply Qfloor_le|exact Hq].
Qed.

(** ** The matcher on a run of characters *)

Lemma run_rep_greedy_full (p : N -> bool) (ys tail : str) (k : cont) a :
  forall (pos : nat) (cs : caps),
    forallb p ys = true ->
    stops p tail = true ->
    k tail (List.length ys + pos)%nat cs = Some a ->
    run_rep true 0 p (ys ++ tail) pos cs k = Some a.
Proof.
  induction ys as [|y ys IH]; intros pos cs Hp Hstop Hk.
  - simpl in *. destruct tail as [|c tail]; [exact Hk|].
    simpl in Hstop. apply negb_true_iff in Hstop.
    cbn [run_rep]. rewrite Hstop. exact Hk.
  - simpl in Hp. apply andb_true_iff in Hp as [Hy Hys].
    cbn [app run_rep]. rewrite Hy.
    rewrite (IH (S pos) cs Hys Hstop); [reflexivity|].
    rewrite Nat.add_succ_r. exact Hk.
Qed.






(** ** Matches never end before they start *)

Lemma run_rep_mono (p : N -> bool) (k : cont) :
  k_mono k ->
  forall (rest : str) (greedy : bool) (least pos : nat) (cs : caps) e cs',
    run_rep greedy least p rest pos cs k = Some (e, cs') -> (pos <= e)%nat.
Proof.
  intros Hk. induction rest as [|c rest IH]; intros greedy least pos cs e cs' H.
  - destruct least, greedy; cbn [run_rep] in H; try discriminate.
    + apply Hk in H. exact H.
    + destruct (k [] pos cs) as [[e0 cs0]|] eqn:Ek; [|discriminate].
      injection H as <- <-. apply Hk in Ek. exact Ek.
  - destruct least as [|least].
    + destruct greedy; cbn [run_rep] in H.
      * destruct (p c).
        -- destruct (run_rep true 0 p rest (S pos) cs k) as [[e0 cs0]|] eqn:Er.
           ++ injection H as <- <-. apply IH in Er. lia.
           ++ apply Hk in H. exact H.
        -- apply Hk in H. exact H.
      * destruct (k (c :: rest) pos cs) as [[e0 cs0]|] eqn:Ek.
        -- injection H as <- <-. apply Hk in Ek. exact Ek.
        -- destruct (p c); [|discriminate]. apply IH in H. lia.
    + cbn [run_rep] in H. destruct (p c); [|discriminate].
      apply IH in H. lia.
Qed.

Lemma run_mono (r : re) :
  forall k : cont, k_mono k -> k_mono (fun rest pos cs => run r rest pos cs k).
Proof.
  induction r as [x|x|greedy least p|r1 IH1 r2 IH2|r1 IH1 r2 IH2|n r IH| |];
    intros k Hk rest pos cs e cs' H; cbn [run] in H.
  - destruct rest as [|c rest]; [discriminate|].
    destruct (c =? x)%N; [|discriminate]. apply Hk in H. lia.
  - destruct rest as [|c rest]; [discriminate|].
    destruct (fold_case c =? fold_case x)%N; [|discriminate].
    apply Hk in H. lia.
  - eapply run_rep_mono; eauto.
  - apply (IH1 _ (IH2 k Hk)) in H. exact H.
  - destruct (run r1 rest pos cs k) as [[e0 cs0]|] eqn:E1.
    + injection H as <- <-. apply (IH1 k Hk) in E1. exact E1.
    + apply (IH2 k Hk) in H. exact H.
  - refine (IH _ _ rest pos cs e cs' H).
    intros rest' pos' cs0 e0 cs0' H0. apply Hk in H0. exact H0.
  - destruct (Nat.eqb pos 0); [|discriminate]. apply Hk in H. exact H.
  - destruct rest; [|discriminate]. apply Hk in H. exact H.
Qed.

Lemma match_here_bounds (r : re) (rest : str) (pos : nat) (m : rmatch) :
  match_here r rest pos = Some m -> m_index m = pos /\ (pos <= m_end m)%nat.
Proof.
  unfold match_here.
  destruct (run r rest pos [] (fun _ pos' cs => Some (pos', cs)))
    as [[e cs]|] eqn:E; [|discriminate].
  intros H. injection H as <-. simpl. split; [reflexivity|].
  refine (run_mono r _ _ rest pos [] e cs E).
  intros rest' pos' cs0 e0 cs0' H0. injection H0 as <- _. lia.
Qed.

Lemma search_from_bounds (r : re) (rest : str) :
  forall (pos : nat) (m : rmatch),
    search_from r rest pos = Some m ->
    (pos <= m_index m)%nat /\ (m_index m <= m_end m)%nat.
Proof.
  induction rest as [|c rest IH]; intros pos m H; cbn [search_from] in H.
  - destruct (match_here r [] pos) as [m0|] eqn:E; [|discriminate].
    injection H as <-. apply match_here_bounds in E. lia.
  - destruct (match_here r (c :: rest) pos) as [m0|] eqn:E.
    + injection H as <-. apply match_here_bounds in E. lia.
    + apply IH in H. lia.
Qed.

(** ** Searching *)

Lemma search_from_miss (r : re) (c : N) (rest : str) (pos : nat) :
  match_here r (c :: rest) pos = None ->
  search_from r (c :: rest) pos = search_from r rest (S pos).
Proof. intros H. cbn [search_from]. rewrite H. reflexivity. Qed.

Lemma search_from_hit (r : re) (rest : str) (pos : nat) (m : rmatch) :
  match_here r rest pos = Some m -> search_from r rest pos = Some m.
Proof. intros H. destruct rest; cbn [search_from]; rewrite H; reflexivity. Qed.

Lemma search_from_dead (r : re) (xs rest : str) :
  forall pos : nat,
    (forall x, In x xs -> dead r x) ->
    search_from r (xs ++ rest) pos
    = search_from r rest (List.length xs + pos)%nat.
Proof.
  induction xs as [|x xs IH]; intros pos Hdead; [reflexivity|].
  cbn [app]. rewrite search_from_miss by (apply Hdead; left; reflexivity).
  rewrite IH by (intros y Hy; apply Hdead; right; exact Hy).
  cbn [List.length]. rewrite Nat.add_succ_r. reflexivity.
Qed.


(** ** Global replacement, one character or one match at a time *)

Lemma replace_all_miss (r : re) (rep : str) (c : N) (rest : str)
    (fuel pos : nat) :
  match_here r (c :: rest) pos = None ->
  replace_all (S fuel) r rep (c :: rest) pos
  = c :: replace_all (S fuel) r rep rest (S pos).
Proof.
  intros H. cbn [replace_all]. rewrite (search_from_miss r c rest pos H).
  destruct (search_from r rest (S pos)) as [m|] eqn:E; [|reflexivity].
  apply search_from_bounds in E as [Hi He].
  replace (m_index m - pos)%nat with (S (m_index m - S pos)) by lia.
  replace (m_end m - pos)%nat with (S (m_end m - S pos)) by lia.
  cbn [firstn skipn app].
  destruct (m_end m =? m_index m)%nat; [|reflexivity].
  destruct (skipn (m_end m - S pos) rest); reflexivity.
Qed.

Lemma replace_all_hit (r : re) (rep : str) (xs rest : str) (fuel pos : nat)
    (cs : caps) :
  xs <> [] ->
  match_here r (xs ++ rest) pos
  = Some (mkMatch pos (List.length xs + pos) cs) ->
  replace_all (S fuel) r rep (xs ++ rest) pos
  = rep ++ replace_all fuel r rep rest (List.length xs + pos)%nat.
Proof.
  intros Hne H. cbn [replace_all].
  rewrite (search_from_hit _ _ _ _ H). cbn [m_index m_end].
  replace (pos - pos)%nat with 0%nat by lia.
  replace (List.length xs + pos - pos)%nat with (List.length xs) by lia.
  rewrite skipn_app, skipn_all, Nat.sub_diag. cbn [firstn app skipn].
  destruct (Nat.eqb_spec (List.length xs + pos) pos) as [E|_]; [|reflexivity].
  destruct xs; [contradiction|cbn [List.length] in E; lia].
Qed.

(** ** Characters *)


Lemma digit_is_dot (c : N) : is_digit c = true -> is_dot c = true.
Proof. intros H. chars. Qed.

Lemma digit_is_nonspace (c : N) : is_digit c = true -> is_nonspace c = true.
Proof. intros H. chars. Qed.

(** ** Digit strings *)


Lemma digit_value_char (z : Z) :
  0 <= z < 10 ->
  is_digit (Z.to_N (48 + z)) = true /\ digit_value (Z.to_N (48 + z)) = z.
Proof.
  intros Hz. unfold digit_value. split; [chars|lia].
Qed.

Lemma decimal_digits_spec (fuel : nat) :
  forall (z : Z) (acc : str),
    0 <= z < 10 ^ Z.of_nat fuel ->
    exists ds,
      decimal_digits fuel z acc = ds ++ acc
      /\ forallb is_digit ds = true
      /\ (fuel <> O -> ds <> [])
      /\ forall a0,
           fold_left (fun a c => 10 * a + digit_value c) ds a0
           = a0 * 10 ^ Z.of_nat (List.length ds) + z.
Proof.
  induction fuel as [|fuel IH]; intros z acc Hz.
  - exists []. simpl in *. repeat split; try congruence. intros a0. lia.
  - cbn [decimal_digits].
    assert (Hd : 0 <= z mod 10 < 10) by (apply Z.mod_pos_bound; lia).
    destruct (digit_value_char (z mod 10) Hd) as [Hdig Hval].
    destruct (Z.ltb_spec z 10) as [Hlt|Hge].
    + exists [Z.to_N (48 + z mod 10)]. rewrite Z.mod_small in * by lia.
      repeat split; try discriminate.
      * cbn [forallb]. rewrite Hdig. reflexivity.
      * intros a0. cbn [fold_left List.length]. rewrite Hval. lia.
    + destruct (IH (z / 10) (Z.to_N (48 + z mod 10) :: acc))
        as (ds & Heq & Hall & _ & Hfold).
      { split; [apply Z.div_pos; lia|].
        apply Z.div_lt_upper_bound; [lia|].
        rewrite Nat2Z.inj_succ, Z.pow_succ_r in Hz by lia. lia. }
      exists (ds ++ [Z.to_N (48 + z mod 10)]).
      rewrite Heq, <- app_assoc. repeat split.
      * rewrite forallb_app, Hall. cbn [forallb andb]. rewrite Hdig. reflexivity.
      * intros _ H. apply app_eq_nil in H as [_ H]. discriminate.
      * intros a0. rewrite fold_left_app, Hfold. cbn [fold_left]. rewrite Hval.
        rewrite length_app. cbn [List.length].
        rewrite Nat2Z.inj_add, Z.pow_add_r by lia.
        change (Z.of_nat 1) with 1. rewrite Z.pow_1_r.
        pose proof (Z.div_mod z 10 ltac:(lia)). lia.
Qed.

Lemma nat_to_str_spec (z : Z) :
  0 <= z ->
  forallb is_digit (nat_to_str z) = true
  /\ nat_to_str z <> []
  /\ digits_value (nat_to_str z) = z.
Proof.
  intros Hz. unfold nat_to_str.
  destruct (decimal_digits_spec (S (Z.to_nat (Z.log2 z))) z [])
    as (ds & Heq & Hall & Hne & Hfold).
  - split; [exact Hz|].
    destruct (Z.eq_dec z 0) as [->|Hnz]; [reflexivity|].
    rewrite Nat2Z.inj_succ, Z2Nat.id by apply Z.log2_nonneg.
    pose proof (Z.log2_spec z ltac:(lia)) as [_ Hhi].
    eapply Z.lt_le_trans; [exact Hhi|].
    apply Z.pow_le_mono_l. pose proof (Z.log2_nonneg z). lia.
  - rewrite Heq, app_nil_r. repeat split; auto.
    unfold digits_value. rewrite Hfold. lia.
Qed.

Lemma digits_value_zeros (k : nat) (ds : str) :
  digits_value (repeat 48%N k ++ ds) = digits_value ds.
Proof.
  unfold digits_value. rewrite fold_left_app. f_equal.
  induction k as [|k IH]; [reflexivity|]. simpl. exact IH.
Qed.

Lemma zero_pad_spec (width : nat) (z : Z) :
  0 <= z ->
  forallb is_digit (zero_pad width z) = true
  /\ zero_pad width z <> []
  /\ digits_value (zero_pad width z) = z.
Proof.
  intros Hz. destruct (nat_to_str_spec z Hz) as (Hall & Hne & Hval).
  unfold zero_pad. repeat split.
  - rewrite forallb_app, Hall, andb_true_r.
    apply forallb_forall. intros x Hx. apply repeat_spec in Hx. subst. reflexivity.
  - intros H. apply app_eq_nil in H as [_ H]. contradiction.
  - rewrite digits_value_zeros. exact Hval.
Qed.

(** ** Reading numerals back *)





(** ** Stamps *)

Lemma good_time_facts (q : Q) :
  good_time q = true ->
  Qred q = q
  /\ (0 < q)%Q
  /\ (inject_Z (Qfloor (q * 1000)) == q * 1000)%Q
  /\ millis q <> 10
  /\ (q < inject_Z (60 * 10 ^ 21))%Q.
Proof.
  unfold good_time. rewrite !andb_true_iff.
  intros [[[[Hcan Hpos] Hms] Hten] Hbig].
  repeat split.
  - unfold canonical in Hcan. apply andb_true_iff in Hcan as [H1 H2].
    apply Z.eqb_eq in H1. apply Z.eqb_eq in H2.
    destruct (Qred q) as [n d], q as [n' d']. cbn [Qnum Qden] in H1, H2.
    injection H2 as ->. subst. reflexivity.
  - apply Z.ltb_lt in Hpos. unfold Qlt. simpl. lia.
  - unfold whole_ms in Hms. apply Z.eqb_eq in Hms.
    destruct q as [n d]. unfold Qeq, Qmult, Qfloor.
    cbn [Qnum Qden inject_Z] in *.
    rewrite Pos.mul_1_r.
    apply Z.div_exact in Hms; [|lia].
    replace (n * 1000) with (1000 * n) by lia. lia.
  - apply negb_true_iff in Hten. apply Z.eqb_neq in Hten. exact Hten.
  - apply negb_true_iff in Hbig. apply Qnot_le_lt. intros H.
    apply Qle_bool_iff in H. congruence.
Qed.

Lemma stamp_parts (q : Q) :
  good_time q = true -> stamp q = stamp_minutes q ++ COLON :: stamp_seconds q.
Proof.
  intros Hq. destruct (good_time_facts q Hq) as (_ & Hpos & _ & Hten & Hbig).
  assert (H0 : (0 <= q)%Q) by (apply Qlt_le_weak; exact Hpos).
  unfold stamp, stamp_minutes, stamp_seconds.
  rewrite (toTimer_fields q H0).
  pose proof (minutes_nonneg q H0) as Hm0.
  pose proof (minutes_below q (10 ^ 21) Hbig) as Hm1.
  assert (Hs : 0 <= seconds q < 60) by (apply Z.mod_pos_bound; lia).
  assert (Hf : 0 <= millis q < 1000) by (apply Z.mod_pos_bound; lia).
  rewrite (two_digits_zero_pad (minutes q)) by lia.
  rewrite (two_digits_zero_pad (seconds q))
    by (change (10 ^ 21) with 1000000000000000000000; lia).
  rewrite (three_digits_zero_pad (millis q) Hf Hten).
  reflexivity.
Qed.

Lemma stamp_minutes_digits (q : Q) :
  good_time q = true ->
  forallb is_digit (stamp_minutes q) = true /\ stamp_minutes q <> [].
Proof.
  intros Hq. destruct (good_time_facts q Hq) as (_ & Hpos & _).
  assert (H0 : (0 <= q)%Q) by (apply Qlt_le_weak; exact Hpos).
  destruct (zero_pad_spec 2 (minutes q) (minutes_nonneg q H0)) as (H1 & H2 & _).
  split; assumption.
Qed.

Lemma stamp_seconds_chars (q : Q) :
  forallb is_decimal_char (stamp_seconds q) = true
  /\ exists c rest, stamp_seconds q = c :: rest /\ is_digit c = true.
Proof.
  assert (Hs : 0 <= seconds q < 60) by (apply Z.mod_pos_bound; lia).
  assert (Hf : 0 <= millis q < 1000) by (apply Z.mod_pos_bound; lia).
  destruct (zero_pad_spec 2 (seconds q) (proj1 Hs)) as (Hs1 & Hs2 & _).
  destruct (zero_pad_spec 3 (millis q) (proj1 Hf)) as (Hf1 & _ & _).
  unfold stamp_seconds. split.
  - rewrite forallb_app. cbn [forallb].
    assert (Hweak : forall ds, forallb is_digit ds = true ->
                               forallb is_decimal_char ds = true).
    { intros ds H. rewrite forallb_forall in *. intros x Hx.
      unfold is_decimal_char. rewrite (H x Hx). reflexivity. }
    rewrite (Hweak _ Hs1), (Hweak _ Hf1). reflexivity.
  - destruct (zero_pad 2 (seconds q)) as [|c rest] eqn:E; [contradiction|].
    exists c, (rest ++ 46%N :: zero_pad 3 (millis q)). split; [reflexivity|].
    simpl in Hs1. apply andb_true_iff in Hs1 as [Hc _]. exact Hc.
Qed.




(** ** Laid-out timelines: words *)

Lemma plain_token_facts (u : str) :
  plain_token u = true ->
  u <> [] /\ forallb token_char u = true /\ str_eqb u (lit "undefined") = false.
Proof.
  unfold plain_token. destruct u as [|c u]; [discriminate|].
  intros H. apply andb_true_iff in H as [H1 H2].
  apply negb_true_iff in H2. repeat split; auto. discriminate.
Qed.

Lemma good_entry_facts (e : entry) :
  good_entry e = true -> plain_token (fst e) = true /\ good_time (snd e) = true.
Proof. unfold good_entry. intros H. apply andb_true_iff in H. exact H. Qed.









(** ** Laid-out timelines: characters of the exported text *)

Lemma token_is_inner_char (c : N) : token_char c = true -> inner_char c = true.
Proof. intros H. unfold inner_char. rewrite H. reflexivity. Qed.

Lemma inner_is_line_char (c : N) : inner_char c = true -> line_char c = true.
Proof. intros H. unfold line_char. rewrite H. reflexivity. Qed.

Lemma token_is_line_char (c : N) : token_char c = true -> line_char c = true.
Proof. intros H. apply inner_is_line_char, token_is_inner_char, H. Qed.

Lemma digit_is_token (c : N) : is_digit c = true -> token_char c = true.
Proof. intros H. chars. Qed.

Lemma decimal_char_is_token (c : N) :
  is_decimal_char c = true -> token_char c = true.
Proof. unfold is_decimal_char. intros H. chars. Qed.

Lemma forallb_impl (p q : N -> bool) (s : str) :
  (forall c, p c = true -> q c = true) ->
  forallb p s = true -> forallb q s = true.
Proof.
  intros Hpq H. rewrite forallb_forall in *. intros c Hc. apply Hpq, H, Hc.
Qed.

Lemma stamp_tokens (q : Q) :
  good_time q = true -> forallb token_char (stamp q) = true.
Proof.
  intros Hq. rewrite (stamp_parts q Hq).
  destruct (stamp_minutes_digits q Hq) as [Hm _].
  destruct (stamp_seconds_chars q) as [Hs _].
  rewrite forallb_app. cbn [forallb].
  rewrite (forallb_impl _ _ _ digit_is_token Hm).
  rewrite (forallb_impl _ _ _ decimal_char_is_token Hs).
  reflexivity.
Qed.

Lemma stamp_head (q : Q) :
  good_time q = true ->
  exists c rest, stamp q = c :: rest /\ is_digit c = true.
Proof.
  intros Hq. rewrite (stamp_parts q Hq).
  destruct (stamp_minutes_digits q Hq) as [Hm Hne].
  destruct (stamp_minutes q) as [|c rest]; [contradiction|].
  exists c, (rest ++ COLON :: stamp_seconds q). split; [reflexivity|].
  simpl in Hm. apply andb_true_iff in Hm as [Hc _]. exact Hc.
Qed.

Lemma token_head (e : entry) :
  good_entry e = true ->
  exists c rest, fst e = c :: rest /\ token_char c = true.
Proof.
  intros He. destruct (good_entry_facts e He) as [Hu _].
  destruct (plain_token_facts _ Hu) as (Hne & Htok & _).
  destruct (fst e) as [|c rest]; [contradiction|].
  exists c, rest. split; [reflexivity|].
  simpl in Htok. apply andb_true_iff in Htok as [Hc _]. exact Hc.
Qed.

Lemma tail_text_head (e : entry) (es : list entry) (mark : str) :
  good_entry e = true ->
  exists c rest, tail_text e es mark = c :: rest /\ token_char c = true.
Proof.
  intros He. destruct (token_head e He) as (c & rest & Hfst & Hc).
  destruct es as [|e' es]; cbn [tail_text]; rewrite Hfst; cbn [app]; eauto.
Qed.

Lemma br_inner_chars : forallb inner_char br = true.
Proof. reflexivity. Qed.

Lemma tail_text_chars (mark : str) :
  forallb inner_char mark = true ->
  forall (es : list entry) (e : entry),
    good_entry e = true ->
    forallb good_entry es = true ->
    forallb inner_char (tail_text e es mark) = true.
Proof.
  intros Hmark. induction es as [|e' es IH]; intros e He Hes.
  - destruct (good_entry_facts e He) as [Hu _].
    destruct (plain_token_facts _ Hu) as (_ & Htok & _).
    cbn [tail_text]. rewrite forallb_app, Hmark.
    rewrite (forallb_impl _ _ _ token_is_inner_char Htok). reflexivity.
  - destruct (good_entry_facts e He) as [Hu _].
    destruct (plain_token_facts _ Hu) as (_ & Htok & _).
    simpl in Hes. apply andb_true_iff in Hes as [He' Hes].
    destruct (good_entry_facts e' He') as [_ Hq'].
    cbn [tail_text]. rewrite forallb_app. cbn [forallb].
    rewrite forallb_app. cbn [forallb].
    rewrite (forallb_impl _ _ _ token_is_inner_char Htok).
    rewrite (forallb_impl _ _ _ token_is_inner_char (stamp_tokens _ Hq')).
    rewrite (IH e' He' Hes). reflexivity.
Qed.

Lemma line_text_chars (L : line) (mark : str) :
  forallb inner_char mark = true ->
  good_line L = true ->
  forallb line_char (line_text L mark) = true.
Proof.
  intros Hmark HL. unfold good_line in HL. apply andb_true_iff in HL as [He Hes].
  destruct (good_entry_facts _ He) as [_ Hq].
  unfold line_text. cbn [forallb]. rewrite forallb_app. cbn [forallb].
  rewrite (forallb_impl _ _ _ token_is_line_char (stamp_tokens _ Hq)).
  rewrite (forallb_impl _ _ _ inner_is_line_char
             (tail_text_chars mark Hmark _ _ He Hes)).
  reflexivity.
Qed.

(** ** Spaces in the exported text *)

Lemma spaces_ok_skip (xs rest : str) :
  forallb (fun c => negb (c =? SP)%N) xs = true ->
  spaces_ok (xs ++ rest) = spaces_ok rest.
Proof.
  induction xs as [|x xs IH]; intros H; [reflexivity|].
  simpl in H. apply andb_true_iff in H as [Hx Hxs].
  apply negb_true_iff in Hx. cbn [app spaces_ok]. rewrite Hx. apply IH, Hxs.
Qed.

Lemma token_not_SP (c : N) : token_char c = true -> negb (c =? SP)%N = true.
Proof. intros H. chars. Qed.

Lemma token_not_SP_LF (c : N) :
  token_char c = true -> negb (c =? SP)%N && negb (c =? LF)%N = true.
Proof. intros H. chars. Qed.

Lemma spaces_ok_tokens (xs rest : str) :
  forallb token_char xs = true -> spaces_ok (xs ++ rest) = spaces_ok rest.
Proof.
  intros H. apply spaces_ok_skip. exact (forallb_impl _ _ _ token_not_SP H).
Qed.

Lemma spaces_ok_tail_text (rest : str) :
  forall (es : list entry) (e : entry),
    good_entry e = true ->
    forallb good_entry es = true ->
    spaces_ok (tail_text e es [] ++ rest) = spaces_ok rest.
Proof.
  induction es as [|e' es IH]; intros e He Hes.
  - destruct (good_entry_facts e He) as [Hu _].
    destruct (plain_token_facts _ Hu) as (_ & Htok & _).
    cbn [tail_text]. rewrite app_nil_r. apply spaces_ok_tokens. exact Htok.
  - destruct (good_entry_facts e He) as [Hu _].
    destruct (plain_token_facts _ Hu) as (_ & Htok & _).
    simpl in Hes. apply andb_true_iff in Hes as [He' Hes].
    destruct (good_entry_facts e' He') as [_ Hq'].
    destruct (tail_text_head e' es [] He') as (c & t & Hhead & Hc).
    cbn [tail_text]. rewrite <- app_assoc, (spaces_ok_tokens _ _ Htok).
    cbn [app spaces_ok]. change (SP =? SP)%N with true.
    change (LT =? SP)%N with false. change (LT =? LF)%N with false.
    cbn [negb andb]. rewrite <- app_assoc.
    rewrite (spaces_ok_tokens _ _ (stamp_tokens _ Hq')).
    cbn [app spaces_ok]. change (GT =? SP)%N with false.
    change (SP =? SP)%N with true. cbn [andb].
    rewrite (IH e' He' Hes). rewrite Hhead. cbn [app].
    rewrite (token_not_SP_LF c Hc). reflexivity.
Qed.

Lemma spaces_ok_exported (Ls : list line) :
  forallb good_line Ls = true -> spaces_ok (exported Ls) = true.
Proof.
  induction Ls as [|L Ls IH]; intros H; [reflexivity|].
  cbn [forallb] in H. apply andb_true_iff in H as [HL HLs].
  unfold good_line in HL. apply andb_true_iff in HL as [He Hes].
  destruct (good_entry_facts _ He) as [_ Hq].
  destruct (tail_text_head (fst L) (snd L) [] He) as (c & t & Hhead & Hc).
  cbn [exported spaces_ok]. change (LF =? SP)%N with false. cbn [andb].
  unfold line_text. cbn [app spaces_ok]. change (LBRACK =? SP)%N with false.
  cbn [andb]. rewrite <- app_assoc.
  rewrite (spaces_ok_tokens _ _ (stamp_tokens _ Hq)).
  cbn [app spaces_ok]. change (RBRACK =? SP)%N with false.
  change (SP =? SP)%N with true. cbn [andb].
  rewrite (spaces_ok_tail_text (exported Ls) (snd L) (fst L) He Hes), (IH HLs).
  rewrite Hhead. cbn [app]. rewrite (token_not_SP_LF c Hc). reflexivity.
Qed.

(** ** The first statement of fromLRC on an exported text *)

Lemma regex_replace_no_match (r : re) (rep s : str) :
  search_from r s 0 = None -> regex_replace r rep s = s.
Proof.
  intros H. unfold regex_replace. cbn [replace_all]. rewrite H. reflexivity.
Qed.

Lemma search_from_all_dead (r : re) (s : str) (pos : nat) :
  (forall x, In x s -> dead r x) ->
  match_here r [] (List.length s + pos)%nat = None ->
  search_from r s pos = None.
Proof.
  intros Hdead Hnil. rewrite <- (app_nil_r s).
  rewrite (search_from_dead r s [] pos Hdead). cbn [search_from].
  rewrite Hnil. reflexivity.
Qed.

(** Runs of spaces. *)

Lemma re_spaces_miss (c : N) (rest : str) (pos : nat) :
  (c =? SP)%N = false -> match_here re_spaces (c :: rest) pos = None.
Proof.
  intros H. unfold match_here, re_spaces, pattern. cbn [run run_rep].
  unfold is_char. rewrite H. reflexivity.
Qed.

Lemma re_spaces_hit (c : N) (rest : str) (pos : nat) :
  (c =? SP)%N = false ->
  match_here re_spaces (SP :: c :: rest) pos
  = Some (mkMatch pos (List.length [SP] + pos) [(0%nat, [SP])]).
Proof.
  intros H. unfold match_here, re_spaces, pattern. cbn [run run_rep].
  unfold is_char. rewrite H. change (SP =? SP)%N with true. cbv iota.
  replace (S pos - pos)%nat with 1%nat by lia. reflexivity.
Qed.

Lemma replace_spaces_identity (s : str) :
  forall (fuel pos : nat),
    spaces_ok s = true ->
    (List.length s < fuel)%nat ->
    replace_all fuel re_spaces [SP] s pos = s.
Proof.
  induction s as [|c s IH]; intros fuel pos Hok Hfuel.
  - destruct fuel; reflexivity.
  - destruct fuel as [|fuel]; [cbn [List.length] in Hfuel; lia|].
    cbn [spaces_ok] in Hok. apply andb_true_iff in Hok as [Hc Hs].
    cbn [List.length] in Hfuel.
    destruct (c =? SP)%N eqn:Ec.
    + apply N.eqb_eq in Ec. subst c.
      destruct s as [|c' s]; [discriminate|].
      apply andb_true_iff in Hc as [Hc _]. apply negb_true_iff in Hc.
      change (SP :: c' :: s) with ([SP] ++ c' :: s).
      rewrite (replace_all_hit re_spaces [SP] [SP] (c' :: s) fuel pos
                 [(0%nat, [SP])]);
        [|discriminate|apply re_spaces_hit; exact Hc].
      cbn [app]. f_equal. apply IH; [exact Hs|lia].
    + rewrite (replace_all_miss _ _ _ _ _ _ (re_spaces_miss c s pos Ec)).
      f_equal. apply IH; [exact Hs|lia].
Qed.

(** Spaces before a line feed. *)

Lemma re_spaces_before_newline_nowhere (s : str) :
  forall pos : nat,
    spaces_ok s = true -> search_from re_spaces_before_newline s pos = None.
Proof.
  induction s as [|c s IH]; intros pos Hok; [reflexivity|].
  cbn [spaces_ok] in Hok. apply andb_true_iff in Hok as [Hc Hs].
  rewrite search_from_miss; [apply IH; exact Hs|].
  unfold match_here, re_spaces_before_newline, pattern. cbn [run run_rep].
  unfold is_char at 1.
  destruct (c =? SP)%N eqn:Ec; [|reflexivity].
  destruct s as [|c' s]; [discriminate|].
  apply andb_true_iff in Hc as [H1 H2].
  apply negb_true_iff in H1. apply negb_true_iff in H2.
  cbn [run_rep]. unfold is_char. rewrite H1. cbn [run]. rewrite H2.
  reflexivity.
Qed.

(** Ideographic spaces. *)

Lemma line_char_dead_ideographic (c : N) :
  (line_char c || (c =? LF)%N) = true -> dead re_ideographic_space c.
Proof.
  intros H rest pos. unfold match_here, re_ideographic_space, pattern.
  cbn [run]. assert (E : (c =? 12288)%N = false).
  { chars. }
  rewrite E. reflexivity.
Qed.

Lemma exported_chars (Ls : list line) :
  forallb good_line Ls = true ->
  forallb (fun c => line_char c || (c =? LF)%N) (exported Ls) = true.
Proof.
  induction Ls as [|L Ls IH]; intros H; [reflexivity|].
  cbn [forallb] in H. apply andb_true_iff in H as [HL HLs].
  cbn [exported forallb]. rewrite forallb_app, (IH HLs), andb_true_r.
  change (line_char LF || (LF =? LF)%N) with true. cbn [andb].
  apply (forallb_impl line_char); [|apply line_text_chars; auto].
  intros c Hc. rewrite Hc. reflexivity.
Qed.

(** Trimming. *)

Lemma ends_with_token_app (a b : str) :
  ends_with_token b -> ends_with_token (a ++ b).
Proof.
  intros (s & c & -> & Hc). exists (a ++ s), c.
  rewrite app_assoc. split; [reflexivity|exact Hc].
Qed.

Lemma ends_with_token_cons (a : N) (b : str) :
  ends_with_token b -> ends_with_token (a :: b).
Proof. apply (ends_with_token_app [a]). Qed.

Lemma token_ends_with_token (u : str) :
  u <> [] -> forallb token_char u = true -> ends_with_token u.
Proof.
  intros Hne Htok. destruct (exists_last Hne) as (s & c & ->).
  exists s, c. split; [reflexivity|].
  rewrite forallb_app in Htok. apply andb_true_iff in Htok as [_ Hc].
  simpl in Hc. rewrite andb_true_r in Hc. exact Hc.
Qed.

Lemma tail_text_ends_with_token :
  forall (es : list entry) (e : entry),
    good_entry e = true ->
    forallb good_entry es = true ->
    ends_with_token (tail_text e es []).
Proof.
  induction es as [|e' es IH]; intros e He Hes.
  - destruct (good_entry_facts e He) as [Hu _].
    destruct (plain_token_facts _ Hu) as (Hne & Htok & _).
    cbn [tail_text]. rewrite app_nil_r. apply token_ends_with_token; auto.
  - simpl in Hes. apply andb_true_iff in Hes as [He' Hes].
    cbn [tail_text]. apply ends_with_token_app.
    repeat apply ends_with_token_cons.
    apply ends_with_token_app. repeat apply ends_with_token_cons.
    apply IH; auto.
Qed.

Lemma line_text_ends_with_token (L : line) :
  good_line L = true -> ends_with_token (line_text L []).
Proof.
  intros HL. unfold good_line in HL. apply andb_true_iff in HL as [He Hes].
  unfold line_text. apply ends_with_token_cons, ends_with_token_app.
  repeat apply ends_with_token_cons. apply tail_text_ends_with_token; auto.
Qed.

Lemma exported_ends_with_token (Ls : list line) (L : line) :
  forallb good_line (L :: Ls) = true ->
  ends_with_token (line_text L [] ++ exported Ls).
Proof.
  revert L. induction Ls as [|L' Ls IH]; intros L H.
  - cbn [exported]. rewrite app_nil_r. apply line_text_ends_with_token.
    cbn [forallb] in H. apply andb_true_iff in H as [HL _]. exact HL.
  - cbn [forallb] in H. apply andb_true_iff in H as [_ H].
    cbn [exported]. apply ends_with_token_app, ends_with_token_cons.
    apply IH. exact H.
Qed.

Lemma trim_end_keep (x : str) : ends_with_token x -> trim_end x = x.
Proof.
  intros (s & c & -> & Hc). unfold trim_end.
  rewrite rev_app_distr. cbn [rev app].
  assert (Hsp : is_space c = false) by chars.
  cbn [trim_start]. rewrite Hsp. cbn [rev]. rewrite rev_involutive.
  reflexivity.
Qed.


(** Line breaks. *)

Lemma re_any_newline_miss (c : N) (rest : str) (pos : nat) :
  line_char c = true -> match_here re_any_newline (c :: rest) pos = None.
Proof.
  intros H. unfold match_here, re_any_newline, pattern. cbn [run].
  assert (E1 : (c =? CR)%N = false) by chars.
  assert (E2 : (c =? LF)%N = false) by chars.
  rewrite E1, E2. reflexivity.
Qed.

Lemma re_any_newline_hit (rest : str) (pos : nat) :
  match_here re_any_newline (LF :: rest) pos
  = Some (mkMatch pos (List.length [LF] + pos) [(0%nat, [LF])]).
Proof.
  unfold match_here, re_any_newline, pattern. cbn [run].
  change (LF =? CR)%N with false. change (LF =? LF)%N with true. cbv iota.
  replace (S pos - pos)%nat with 1%nat by lia. reflexivity.
Qed.

Lemma replace_newline_line (rep xs rest : str) (fuel : nat) :
  forall pos : nat,
    forallb line_char xs = true ->
    replace_all (S fuel) re_any_newline rep (xs ++ rest) pos
    = xs ++ replace_all (S fuel) re_any_newline rep rest
                        (List.length xs + pos)%nat.
Proof.
  induction xs as [|x xs IH]; intros pos H; [reflexivity|].
  simpl in H. apply andb_true_iff in H as [Hx Hxs].
  cbn [app]. rewrite replace_all_miss by (apply re_any_newline_miss; exact Hx).
  rewrite (IH (S pos) Hxs). cbn [List.length]. rewrite Nat.add_succ_r.
  reflexivity.
Qed.

Lemma tail_text_mark (mark : str) :
  forall (es : list entry) (e : entry),
    tail_text e es mark = tail_text e es [] ++ mark.
Proof.
  induction es as [|e' es IH]; intros e; cbn [tail_text].
  - rewrite app_nil_r. reflexivity.
  - rewrite (IH e'). rewrite <- app_assoc. cbn [app].
    rewrite <- app_assoc. reflexivity.
Qed.

Lemma line_text_mark (L : line) (mark : str) :
  line_text L mark = line_text L [] ++ mark.
Proof.
  unfold line_text. rewrite (tail_text_mark mark). cbn [app].
  rewrite <- app_assoc. reflexivity.
Qed.

Lemma replace_newline_exported (Ls : list line) :
  forall (L : line) (fuel pos : nat),
    forallb good_line (L :: Ls) = true ->
    (List.length (exported Ls) < fuel)%nat ->
    replace_all fuel re_any_newline (br ++ [LF])
                (line_text L [] ++ exported Ls) pos
    = normalised L Ls.
Proof.
  induction Ls as [|L' Ls IH]; intros L fuel pos H Hfuel;
    (destruct fuel as [|fuel]; [cbn [List.length] in Hfuel; lia|]);
    cbn [forallb] in H; apply andb_true_iff in H as [HL HLs];
    rewrite replace_newline_line by (apply line_text_chars; auto).
  - cbn [exported normalised replace_all search_from].
    rewrite app_nil_r. reflexivity.
  - cbn [exported normalised].
    change (LF :: line_text L' [] ++ exported Ls)
      with ([LF] ++ (line_text L' [] ++ exported Ls)).
    rewrite (replace_all_hit re_any_newline (br ++ [LF]) [LF] _ fuel _
               [(0%nat, [LF])]);
      [|discriminate|apply re_any_newline_hit].
    rewrite IH; [|exact HLs|].
    + rewrite (line_text_mark L br). rewrite <- !app_assoc. reflexivity.
    + cbn [exported List.length] in Hfuel. rewrite length_app in Hfuel. lia.
Qed.


(** ** No offset directive *)

Lemma fold_case_bracket (c : N) :
  (c =? LBRACK)%N = false -> (fold_case c =? fold_case 91)%N = false.
Proof.
  intros H. unfold fold_case at 1. change (fold_case 91) with 91%N.
  destruct ((97 <=? c) && (c <=? 122))%N eqn:E; chars.
Qed.

Lemma fold_case_digit (c : N) :
  is_digit c = true -> (fold_case c =? fold_case 111)%N = false.
Proof.
  intros H. unfold fold_case at 1. change (fold_case 111) with 79%N.
  destruct ((97 <=? c) && (c <=? 122))%N eqn:E; chars.
Qed.

Lemma re_offset_i_nowhere (s : str) :
  forall pos : nat, guarded s = true -> search_from re_offset_i s pos = None.
Proof.
  induction s as [|c s IH]; intros pos Hok; [reflexivity|].
  cbn [guarded] in Hok. apply andb_true_iff in Hok as [Hc Hs].
  rewrite search_from_miss; [apply IH; exact Hs|].
  unfold match_here, re_offset_i, pattern.
  change (chars_i "[offset:")
    with (Seq (Seq (Seq (Seq (Seq (Seq (Seq (ChrI 91) (ChrI 111)) (ChrI 102))
                                  (ChrI 102)) (ChrI 115)) (ChrI 101))
                    (ChrI 116)) (ChrI 58)).
  cbn [run].
  destruct (c =? LBRACK)%N eqn:Ec.
  - destruct s as [|c' s]; [discriminate|].
    rewrite (fold_case_digit c' Hc).
    destruct (fold_case c =? fold_case 91)%N; reflexivity.
  - rewrite (fold_case_bracket c Ec). reflexivity.
Qed.

Lemma guarded_skip (xs rest : str) :
  forallb inner_char xs = true -> guarded (xs ++ rest) = guarded rest.
Proof.
  induction xs as [|x xs IH]; intros H; [reflexivity|].
  simpl in H. apply andb_true_iff in H as [Hx Hxs].
  cbn [app guarded].
  assert (E : (x =? LBRACK)%N = false) by chars.
  rewrite E. apply IH, Hxs.
Qed.

Lemma guarded_line_text (L : line) (mark rest : str) :
  forallb inner_char mark = true ->
  good_line L = true ->
  guarded (line_text L mark ++ rest) = guarded rest.
Proof.
  intros Hmark HL. unfold good_line in HL. apply andb_true_iff in HL as [He Hes].
  destruct (good_entry_facts _ He) as [_ Hq].
  destruct (stamp_head _ Hq) as (c & t & Hhead & Hc).
  pose proof (stamp_tokens _ Hq) as Htok.
  unfold line_text. cbn [app guarded]. change (LBRACK =? LBRACK)%N with true.
  cbv iota. rewrite <- app_assoc.
  rewrite (guarded_skip _ _ (forallb_impl _ _ _ token_is_inner_char Htok)).
  rewrite Hhead. cbn [app]. rewrite Hc. cbn [andb guarded].
  change (RBRACK =? LBRACK)%N with false. change (SP =? LBRACK)%N with false.
  cbn [andb].
  apply guarded_skip. apply tail_text_chars; auto.
Qed.

Lemma guarded_normalised (Ls : list line) :
  forall L : line,
    forallb good_line (L :: Ls) = true -> guarded (normalised L Ls) = true.
Proof.
  induction Ls as [|L' Ls IH]; intros L H;
    cbn [forallb] in H; apply andb_true_iff in H as [HL HLs];
    cbn [normalised].
  - rewrite <- (app_nil_r (line_text L [])).
    rewrite (guarded_line_text L [] [] eq_refl HL). reflexivity.
  - rewrite (guarded_line_text L br _ br_inner_chars HL).
    cbn [guarded]. change (LF =? LBRACK)%N with false. cbn [andb].
    apply IH. exact HLs.
Qed.

(** ** Splitting into lines *)






(** ** The patterns on an exported line *)

Lemma firstn_length_app (ys tail : str) (p : nat) :
  firstn (List.length ys + p - p) (ys ++ tail) = ys.
Proof.
  rewrite Nat.add_sub, firstn_app, firstn_all, Nat.sub_diag.
  cbn [firstn]. apply app_nil_r.
Qed.

Lemma match_here_some (r : re) (rest : str) (pos e : nat) (cs : caps) :
  run r rest pos [] (fun _ pos' cs' => Some (pos', cs')) = Some (e, cs) ->
  match_here r rest pos
  = Some (mkMatch pos e (set_cap 0 (firstn (e - pos) rest) cs)).
Proof. intros H. unfold match_here. rewrite H. reflexivity. Qed.













(** ** The inline tag that makes a file enhanced *)



Lemma in_forallb (p : N -> bool) (s : str) (c : N) :
  forallb p s = true -> In c s -> p c = true.
Proof. intros H. rewrite forallb_forall in H. apply H. Qed.







(** ** The first word of a line *)












(** ** The tagged words of a line *)









Lemma decimal_char_not_LT (c : N) :
  is_decimal_char c = true -> (c =? LT)%N = false.
Proof. intros H. unfold is_decimal_char in H. chars. Qed.




(** ** No closing tag in an exported line *)





(** ** The loop over the lines *)



(** ** From the collected lines to the timeline *)

Lemma str_eqb_eq (a : str) : forall b, str_eqb a b = true -> a = b.
Proof.
  induction a as [|x a IH]; intros [|y b] H; try discriminate; auto.
  cbn [str_eqb] in H. apply andb_true_iff in H as [Hx Hab].
  apply N.eqb_eq in Hx. subst y. rewrite (IH b Hab). reflexivity.
Qed.











(** ** The events of the repair passes *)

Lemma In_upfrom (n : nat) :
  forall (i j : Z), In j (upfrom i n) <-> i <= j < i + Z.of_nat n.
Proof.
  induction n as [|n IH]; intros i j; cbn [upfrom In].
  - lia.
  - rewrite IH. lia.
Qed.

Lemma In_downfrom (n : nat) :
  forall (i j : Z), In j (downfrom i n) <-> i - Z.of_nat n < j <= i.
Proof.
  induction n as [|n IH]; intros i j; cbn [downfrom In].
  - lia.
  - rewrite IH. lia.
Qed.

Lemma NoDup_upfrom (n : nat) : forall i : Z, NoDup (upfrom i n).
Proof.
  induction n as [|n IH]; intros i; cbn [upfrom]; constructor; auto.
  rewrite In_upfrom. lia.
Qed.

Lemma NoDup_downfrom (n : nat) : forall i : Z, NoDup (downfrom i n).
Proof.
  induction n as [|n IH]; intros i; cbn [downfrom]; constructor; auto.
  rewrite In_downfrom. lia.
Qed.

Lemma cleared_events_ext (cmp : value -> value -> bool) (t : value)
    (ws ws' : list word) (js : list Z) :
  (forall j, In j js -> at_index ws j = at_index ws' j) ->
  cleared_events cmp t ws js = cleared_events cmp t ws' js.
Proof.
  induction js as [|j js IH]; intros H; [reflexivity|].
  unfold cleared_events. cbn [flat_map]. fold (cleared_events cmp t ws js).
  fold (cleared_events cmp t ws' js).
  rewrite (H j (or_introl eq_refl)), IH; [reflexivity|].
  intros j' Hj'. apply H. right. exact Hj'.
Qed.

Lemma cleared_events_cons (cmp : value -> value -> bool) (t : value)
    (ws : list word) (j : Z) (js : list Z) (w : word) :
  at_index ws j = Some w ->
  cleared_events cmp t ws (j :: js)
  = (if timed w && cmp (time w) t then [timeChanged j VNull] else [])
    ++ cleared_events cmp t ws js.
Proof. intros H. unfold cleared_events. cbn [flat_map]. rewrite H. reflexivity. Qed.

Lemma In_cleared_events (cmp : value -> value -> bool) (t : value)
    (ws : list word) (js : list Z) (j : Z) (v : value) :
  In (timeChanged j v) (cleared_events cmp t ws js)
  <-> v = VNull /\ In j js
      /\ exists w, at_index ws j = Some w
                   /\ timed w = true /\ cmp (time w) t = true.
Proof.
  unfold cleared_events. rewrite in_flat_map. split.
  - intros (j' & Hj' & Hin).
    destruct (at_index ws j') as [w|] eqn:E; [|destruct Hin].
    destruct (timed w && cmp (time w) t) eqn:Ec; [|destruct Hin].
    destruct Hin as [Hin|[]]. injection Hin as <- <-.
    apply andb_true_iff in Ec as [H1 H2]. eauto 6.
  - intros (-> & Hj & w & Hw & H1 & H2). exists j. split; [exact Hj|].
    rewrite Hw, H1, H2. left. reflexivity.
Qed.

Lemma NoDup_cleared_events (cmp : value -> value -> bool) (t : value)
    (ws : list word) (js : list Z) :
  NoDup js -> NoDup (List.map event_index (cleared_events cmp t ws js)).
Proof.
  induction js as [|j js IH]; intros H; [constructor|].
  inversion H as [|? ? Hnot Hrest]; subst.
  unfold cleared_events. cbn [flat_map]. fold (cleared_events cmp t ws js).
  rewrite map_app. specialize (IH Hrest).
  destruct (at_index ws j) as [w|]; [|exact IH].
  destruct (timed w && cmp (time w) t); [|exact IH].
  cbn [List.map app event_index]. constructor; [|exact IH].
  intros Hin. apply in_map_iff in Hin as ([j' v] & Hj' & Hin).
  cbn [event_index] in Hj'. subst j'.
  apply In_cleared_events in Hin as (_ & Hin & _). contradiction.
Qed.

Lemma forward_pass_log (fuel : nat) :
  forall (i : Z) (t : value) (ws : list word) (log : list event),
    0 <= i ->
    Z.of_nat (List.length ws) - i <= Z.of_nat fuel ->
    exists ws',
      forward_pass fuel i t (ws, log)
      = Ok (ws', log ++ cleared_events value_le t ws
                          (upfrom i (Z.to_nat (Z.of_nat (List.length ws) - i)))).
Proof.
  induction fuel as [|fuel IH]; intros i t ws log Hi Hfuel.
  - exists ws. cbn [forward_pass].
    replace (Z.to_nat (Z.of_nat (List.length ws) - i)) with O by lia.
    cbn [upfrom cleared_events flat_map]. rewrite app_nil_r. reflexivity.
  - cbn [forward_pass fst snd].
    destruct (Z.ltb_spec i (Z.of_nat (List.length ws))) as [Hlt|Hge].
    + destruct (at_index_in_range ws i) as [w Hw]; [lia|]. rewrite Hw.
      replace (Z.to_nat (Z.of_nat (List.length ws) - i))
        with (S (Z.to_nat (Z.of_nat (List.length ws) - (i + 1)))) by lia.
      cbn [upfrom]. rewrite (cleared_events_cons _ _ _ _ _ _ Hw).
      unfold timed.
      destruct (is_truthy (time w) && value_le (time w) t) eqn:Ec.
      * destruct (IH (i + 1) t (set_time ws i VNull)
                     (log ++ [timeChanged i VNull])) as (ws' & Hrun);
          [lia|rewrite length_set_time; lia|].
        exists ws'. rewrite Hrun, length_set_time, <- app_assoc.
        do 4 f_equal. apply cleared_events_ext.
        intros j Hj. apply In_upfrom in Hj. rewrite at_index_set_time.
        destruct (Z.eqb_spec j i); [lia|reflexivity].
      * destruct (IH (i + 1) t ws log) as (ws' & Hrun); [lia|lia|].
        exists ws'. rewrite Hrun. reflexivity.
    + exists ws.
      replace (Z.to_nat (Z.of_nat (List.length ws) - i)) with O by lia.
      cbn [upfrom cleared_events flat_map]. rewrite app_nil_r. reflexivity.
Qed.

Lemma backward_pass_log (fuel : nat) :
  forall (i : Z) (t : value) (ws : list word) (log : list event),
    i < Z.of_nat (List.length ws) ->
    i + 1 <= Z.of_nat fuel ->
    exists ws',
      backward_pass fuel i t (ws, log)
      = Ok (ws', log ++ cleared_events value_ge t ws
                          (downfrom i (Z.to_nat (i + 1)))).
Proof.
  induction fuel as [|fuel IH]; intros i t ws log Hi Hfuel.
  - exists ws. cbn [backward_pass].
    replace (Z.to_nat (i + 1)) with O by lia.
    cbn [downfrom cleared_events flat_map]. rewrite app_nil_r. reflexivity.
  - cbn [backward_pass fst snd].
    destruct (Z.leb_spec 0 i) as [Hle|Hneg].
    + destruct (at_index_in_range ws i) as [w Hw]; [lia|]. rewrite Hw.
      replace (Z.to_nat (i + 1)) with (S (Z.to_nat (i - 1 + 1))) by lia.
      cbn [downfrom]. rewrite (cleared_events_cons _ _ _ _ _ _ Hw).
      unfold timed.
      destruct (is_truthy (time w) && value_ge (time w) t) eqn:Ec.
      * destruct (IH (i - 1) t (set_time ws i VNull)
                     (log ++ [timeChanged i VNull])) as (ws' & Hrun);
          [rewrite length_set_time; lia|lia|].
        exists ws'. rewrite Hrun, <- app_assoc.
        do 4 f_equal. apply cleared_events_ext.
        intros j Hj. apply In_downfrom in Hj. rewrite at_index_set_time.
        destruct (Z.eqb_spec j i); [lia|reflexivity].
      * destruct (IH (i - 1) t ws log) as (ws' & Hrun); [lia|lia|].
        exists ws'. rewrite Hrun. reflexivity.
    + exists ws.
      replace (Z.to_nat (i + 1)) with O by lia.
      cbn [downfrom cleared_events flat_map]. rewrite app_nil_r. reflexivity.
Qed.

(** The whole log of a call that sets a Number. *)
Lemma setTimeOfWord_log (index : Z) (t : value) (l : Lyrics) (w : word) :
  at_index (words l) index = Some w ->
  is_nullish t = false ->
  exists l',
    setTimeOfWord index t l
    = Ok (l',
          (if loose_neq (time w) t then [timeChanged index t] else [])
          ++ cleared_events value_le t (words l)
               (upfrom (index + 1) (Z.to_nat (length_of l - (index + 1))))
          ++ cleared_events value_ge t (words l)
               (downfrom (index - 1) (Z.to_nat index))).
Proof.
  intros Hw Ht. pose proof (at_index_Some_range _ _ _ Hw) as Hi.
  unfold setTimeOfWord. rewrite Hw, Ht.
  set (ws := set_time (words l) index t).
  set (log := if loose_neq (time w) t then [timeChanged index t] else []).
  assert (Hlen : List.length ws = List.length (words l))
    by apply length_set_time.
  destruct (forward_pass_spec (List.length ws) (index + 1) t ws log)
    as (ws1 & log1 & Hrun1 & Hlen1 & Hat1); [lia|lia|].
  destruct (forward_pass_log (List.length ws) (index + 1) t ws log)
    as (ws1' & Hlog1); [lia|lia|].
  rewrite Hlog1 in Hrun1. injection Hrun1 as -> <-.
  rewrite Hlog1. cbn [bind].
  destruct (backward_pass_log (List.length ws) (index - 1) t ws1
              (log ++ cleared_events value_le t ws
                 (upfrom (index + 1)
                    (Z.to_nat (Z.of_nat (List.length ws) - (index + 1))))))
    as (ws2 & Hlog2); [lia|lia|].
  rewrite Hlog2. cbn [bind fst snd].
  exists (mkLyrics ws2 (duration l)). f_equal. f_equal.
  rewrite <- app_assoc. f_equal. unfold length_of. rewrite Hlen. f_equal.
  - apply cleared_events_ext. intros j Hj. apply In_upfrom in Hj.
    subst ws. rewrite at_index_set_time.
    destruct (Z.eqb_spec j index); [lia|reflexivity].
  - replace (index - 1 + 1) with index by lia.
    apply cleared_events_ext. intros j Hj. apply In_downfrom in Hj.
    rewrite Hat1. subst ws. rewrite at_index_set_time.
    destruct (Z.eqb_spec j index); [lia|].
    destruct (at_index (words l) j) as [wj|]; [|reflexivity].
    cbn [option_map]. unfold cleared_from.
    destruct (Z.leb_spec (index + 1) j); [lia|reflexivity].
Qed.

(** ** One call of setTimeOfWord, position by position *)

(** What a call leaves at position [j], whatever the new time is. *)
Lemma setTimeOfWord_at (index : Z) (t : value) (l l' : Lyrics)
    (log : list event) :
  setTimeOfWord index t l = Ok (l', log) ->
  duration l' = duration l
  /\ List.length (words l') = List.length (words l)
  /\ forall j,
       at_index (words l') j
       = option_map
           (fun w =>
              if j =? index then mkWord (text w) t
              else if negb (is_nullish t) && is_truthy (time w)
                      && (if index <? j then value_le (time w) t
                          else value_ge (time w) t)
                   then mkWord (text w) VNull
                   else w)
           (at_index (words l) j).
Proof.
  intros H.
  destruct (at_index (words l) index) as [w|] eqn:Hw;
    [|unfold setTimeOfWord in H; rewrite Hw in H; discriminate].
  pose proof (at_index_Some_range _ _ _ Hw) as Hi.
  destruct (is_nullish t) eqn:Ht.
  - rewrite (setTimeOfWord_clear index t l w Hw Ht) in H.
    injection H as <- <-. cbn [duration words].
    split; [reflexivity|]. split; [apply length_set_time|].
    intros j. rewrite at_index_set_time. cbn [negb andb].
    destruct (Z.eqb_spec j index); [reflexivity|].
    destruct (at_index (words l) j); reflexivity.
  - destruct (setTimeOfWord_spec index t l Hi Ht)
      as (l2 & log2 & Hrun & Hdur & Hlen & Hat).
    rewrite Hrun in H. injection H as <- <-.
    split; [exact Hdur|]. split; [unfold length_of in Hlen; lia|].
    intros j. rewrite Hat.
    destruct (at_index (words l) j) as [wj|]; [|reflexivity].
    cbn [option_map negb andb]. unfold repaired, timed. reflexivity.
Qed.

Lemma at_index_ext (a b : list word) :
  (forall j, at_index a j = at_index b j) -> a = b.
Proof.
  intros H. apply nth_error_ext. intros n.
  specialize (H (Z.of_nat n)). unfold at_index in H.
  destruct (Z.ltb_spec (Z.of_nat n) 0); [lia|].
  rewrite Nat2Z.id in H. exact H.
Qed.

Lemma at_index_map_text (ws : list word) (j : Z) :
  0 <= j ->
  nth_error (List.map text ws) (Z.to_nat j) = option_map text (at_index ws j).
Proof.
  intros Hj. unfold at_index. destruct (Z.ltb_spec j 0); [lia|].
  apply nth_error_map.
Qed.

Lemma loose_neq_refl (t : value) :
  t <> VNum NaN -> loose_neq t t = false.
Proof.
  destruct t as [| |[| | |q]]; intros H; try reflexivity.
  - contradiction.
  - cbn. rewrite Qeq_bool_refl. reflexivity.
Qed.

Lemma event_index_cleared (cmp : value -> value -> bool) (t : value)
    (ws : list word) (js : list Z) (j : Z) :
  In j (List.map event_index (cleared_events cmp t ws js)) -> In j js.
Proof.
  intros H. apply in_map_iff in H as ([j' v] & Hj & Hin).
  cbn [event_index] in Hj. subst j'.
  apply In_cleared_events in Hin as (_ & Hin & _). exact Hin.
Qed.

Lemma cleared_events_nil (cmp : value -> value -> bool) (t : value)
    (ws : list word) (js : list Z) :
  (forall j w, In j js -> at_index ws j = Some w ->
               timed w && cmp (time w) t = false) ->
  cleared_events cmp t ws js = [].
Proof.
  induction js as [|j js IH]; intros H; [reflexivity|].
  unfold cleared_events. cbn [flat_map]. fold (cleared_events cmp t ws js).
  rewrite IH by (intros j' w Hj'; apply H; right; exact Hj').
  destruct (at_index ws j) as [w|] eqn:E; [|reflexivity].
  rewrite (H j w (or_introl eq_refl) E). reflexivity.
Qed.

Lemma truthy_not_null (v : value) : is_truthy v = true -> v <> VNull.
Proof. intros H ->. discriminate H. Qed.

(** ** getIndexForTime up to a word timed at the timestamp *)

Lemma Qle_bool_false_lt (a b : Q) : Qle_bool a b = false -> (b < a)%Q.
Proof.
  intros H. apply Qnot_le_lt. intros Hle.
  apply Qle_bool_iff in Hle. congruence.
Qed.




(** ** The anchors getApproximateTime finds *)






(** ** What getIndexForTime returns *)

Lemma getIndexForTime_loop_number (ws : list word) :
  forall (i len : Z) (dur : value) (ts e : number) (ei : Z),
    ws <> [] ->
    len = i + Z.of_nat (List.length ws) ->
    exists n, getIndexForTime_loop ws i len dur ts e ei = VNum n.
Proof.
  induction ws as [|w ws IH]; intros i len dur ts e ei Hne Hlen;
    [contradiction|].
  cbn [getIndexForTime_loop].
  destruct ws as [|w' ws].
  - cbn [List.length] in Hlen.
    assert (Hlast : (i =? len - 1) = true) by (apply Z.eqb_eq; lia).
    rewrite Hlast. cbn [orb]. eauto.
  - match goal with
    | |- context [if ?c then _ else _] => destruct c
    end; [eauto|].
    destruct (is_truthy (time w));
      apply IH; try discriminate; cbn [List.length] in *; lia.
Qed.




(** ** Positions as list indices *)

Lemma at_index_nth (ws : list word) (j : Z) (w : word) :
  at_index ws j = Some w -> 0 <= j /\ nth_error ws (Z.to_nat j) = Some w.
Proof.
  unfold at_index. destruct (Z.ltb_spec j 0); [discriminate|]. auto.
Qed.

Lemma nth_at_index (ws : list word) (m : nat) (w : word) :
  nth_error ws m = Some w -> at_index ws (Z.of_nat m) = Some w.
Proof.
  intros H. unfold at_index. destruct (Z.ltb_spec (Z.of_nat m) 0); [lia|].
  rewrite Nat2Z.id. exact H.
Qed.


(** ** More of toTimer *)

Lemma Qfloor_range (x : Q) (lo hi : Z) :
  (inject_Z lo <= x)%Q -> (x < inject_Z hi)%Q -> lo <= Qfloor x < hi.
Proof.
  intros Hlo Hhi. split.
  - rewrite <- (Qfloor_Z lo). apply Qfloor_resp_le. exact Hlo.
  - rewrite Zlt_Qlt. eapply Qle_lt_trans; [apply Qfloor_le|exact Hhi].
Qed.

Lemma floor_hours (q : Q) :
  Num.floor (Num.div (Fin q) (Fin 3600)) = ofZ (hours q).
Proof.
  unfold hours. cbn [Num.div Num.floor]. change (zeroQ 3600) with false.
  cbn [fin Num.floor]. rewrite Qred_correct. reflexivity.
Qed.

Lemma floor_minutes_of_hour (q : Q) :
  (0 <= q)%Q ->
  Num.floor (Num.rem (Num.div (Fin q) (Fin 60)) (Fin 60))
  = ofZ (minutes q mod 60).
Proof.
  intros Hq. cbn [Num.div]. change (zeroQ 60) with false. unfold fin.
  rewrite floor_seconds.
  - unfold seconds, minutes. rewrite Qred_correct. reflexivity.
  - rewrite Qred_correct. apply Qle_shift_div_l; [reflexivity|].
    rewrite Qmult_0_l. exact Hq.
Qed.


(** ** Replacing and splitting add no character of their own *)

Lemma forallb_skipn {A : Type} (f : A -> bool) (n : nat) (xs : list A) :
  forallb f xs = true -> forallb f (skipn n xs) = true.
Proof.
  revert xs. induction n as [|n IH]; intros [|x xs] H; auto.
  cbn [forallb] in H. apply andb_true_iff in H as [_ H].
  cbn [skipn]. apply IH. exact H.
Qed.

Lemma forallb_rev {A : Type} (f : A -> bool) (xs : list A) :
  forallb f (rev xs) = forallb f xs.
Proof.
  induction xs as [|x xs IH]; [reflexivity|].
  cbn [rev forallb]. rewrite forallb_app, IH. cbn [forallb].
  rewrite andb_true_r. apply andb_comm.
Qed.

Lemma replace_all_chars (P : N -> bool) (r : re) (rep : str) (fuel : nat) :
  forall (rest : str) (pos : nat),
    forallb P rep = true ->
    forallb P rest = true ->
    forallb P (replace_all fuel r rep rest pos) = true.
Proof.
  induction fuel as [|fuel IH]; intros rest pos Hrep Hrest; [exact Hrest|].
  cbn [replace_all]. destruct (search_from r rest pos) as [m|]; [|exact Hrest].
  pose proof (forallb_firstn P (m_index m - pos) rest Hrest) as Hb.
  pose proof (forallb_skipn P (m_end m - pos) rest Hrest) as Ha.
  destruct (Nat.eqb (m_end m) (m_index m)).
  - destruct (skipn (m_end m - pos) rest) as [|c after].
    + rewrite forallb_app, Hb, Hrep. reflexivity.
    + cbn [forallb] in Ha. apply andb_true_iff in Ha as [Hc Ha].
      rewrite !forallb_app. cbn [forallb].
      rewrite Hb, Hrep, Hc, (IH after _ Hrep Ha). reflexivity.
  - rewrite !forallb_app, Hb, Hrep, (IH _ _ Hrep Ha). reflexivity.
Qed.

Lemma regex_replace_chars (P : N -> bool) (r : re) (rep s : str) :
  forallb P rep = true -> forallb P s = true ->
  forallb P (regex_replace r rep s) = true.
Proof. intros. unfold regex_replace. apply replace_all_chars; assumption. Qed.

Lemma trim_start_chars (P : N -> bool) (s : str) :
  forallb P s = true -> forallb P (trim_start s) = true.
Proof.
  induction s as [|c s IH]; intros H; [reflexivity|].
  cbn [trim_start]. destruct (is_space c); [|exact H].
  cbn [forallb] in H. apply andb_true_iff in H as [_ H]. auto.
Qed.

Lemma trim_chars (P : N -> bool) (s : str) :
  forallb P s = true -> forallb P (trim s) = true.
Proof.
  intros H. unfold trim, trim_end. rewrite forallb_rev.
  apply trim_start_chars. rewrite forallb_rev.
  apply trim_start_chars. exact H.
Qed.

Lemma normalize_chars (P : N -> bool) (s : str) :
  P SP = true -> P LF = true -> forallb P br = true ->
  forallb P s = true -> forallb P (normalize s) = true.
Proof.
  intros Hsp Hlf Hbr Hs. unfold normalize.
  apply regex_replace_chars.
  - rewrite forallb_app, Hbr. cbn [forallb]. rewrite Hlf. reflexivity.
  - apply trim_chars. apply regex_replace_chars.
    + cbn [forallb]. rewrite Hlf. reflexivity.
    + apply regex_replace_chars; [reflexivity|].
      apply regex_replace_chars; [|exact Hs].
      cbn [forallb]. rewrite Hsp. reflexivity.
Qed.

Lemma split_loop_chars (P : N -> bool) (r : re) (rest : str) :
  forall (q : nat) (piece : str) (skip : nat),
    forallb P rest = true ->
    forallb P piece = true ->
    forallb (forallb P) (split_loop r rest q piece skip) = true.
Proof.
  induction rest as [|c rest IH]; intros q piece skip Hrest Hpiece.
  - cbn [split_loop forallb]. rewrite forallb_rev, Hpiece. reflexivity.
  - cbn [forallb] in Hrest. apply andb_true_iff in Hrest as [Hc Hrest].
    assert (Hone : forallb P [c] = true) by (cbn [forallb]; rewrite Hc; auto).
    assert (Hmore : forallb P (c :: piece) = true)
      by (cbn [forallb]; rewrite Hc; auto).
    cbn [split_loop]. destruct skip as [|skip]; [|apply IH; assumption].
    destruct (match_here r (c :: rest) q) as [m|]; [|apply IH; assumption].
    destruct (Nat.eqb (m_end m) q).
    + destruct piece as [|p piece]; [apply IH; assumption|].
      cbn [forallb]. rewrite forallb_rev. cbn [forallb] in Hpiece.
      cbn [forallb]. rewrite Hpiece. apply IH; assumption.
    + cbn [forallb]. rewrite forallb_rev, Hpiece. apply IH; auto.
Qed.

Lemma regex_split_chars (P : N -> bool) (r : re) (s : str) :
  forallb P s = true -> forallb (forallb P) (regex_split r s) = true.
Proof.
  intros H. unfold regex_split. destruct s as [|c s].
  - destruct (match_here r [] 0); reflexivity.
  - apply split_loop_chars; [exact H|reflexivity].
Qed.

(** ** toELRC on words without a time *)

Lemma toELRC_loop_untimed (ws : list word) :
  forall result : str,
    forallb (fun w => negb (is_truthy (time w))) ws = true ->
    toELRC_loop ws false false result
    = result ++ flat_map (fun w => SP :: stripped (text w)) ws.
Proof.
  induction ws as [|w ws IH]; intros result H.
  - cbn [toELRC_loop flat_map]. rewrite app_nil_r. reflexivity.
  - cbn [forallb] in H. apply andb_true_iff in H as [Hw Hws].
    apply negb_true_iff in Hw.
    cbn [toELRC_loop flat_map orb]. rewrite Hw, andb_false_r.
    rewrite (IH _ Hws), <- app_assoc. reflexivity.
Qed.

(** ** fromLRC on a text without an opening bracket *)

Lemma guarded_no_bracket (s : str) :
  forallb not_bracket s = true -> guarded s = true.
Proof.
  induction s as [|c s IH]; intros H; [reflexivity|].
  cbn [forallb] in H. apply andb_true_iff in H as [Hc Hs].
  cbn [guarded]. unfold not_bracket in Hc. apply negb_true_iff in Hc.
  rewrite Hc, (IH Hs). reflexivity.
Qed.

Lemma re_line_nowhere (l : str) :
  forall pos : nat,
    forallb not_bracket l = true -> search_from re_line l pos = None.
Proof.
  induction l as [|c l IH]; intros pos H.
  - cbn [search_from]. unfold match_here, re_line, pattern. cbn [run].
    destruct (Nat.eqb pos 0); reflexivity.
  - cbn [forallb] in H. apply andb_true_iff in H as [Hc Hl].
    unfold not_bracket in Hc. apply negb_true_iff in Hc.
    rewrite search_from_miss; [apply IH; exact Hl|].
    unfold match_here, re_line, pattern. cbn [run].
    destruct (Nat.eqb pos 0); [|reflexivity]. rewrite Hc. reflexivity.
Qed.

Lemma next_enhanced_without_brackets (lines : list str) :
  forallb (forallb not_bracket) lines = true ->
  next_enhanced_lines lines = Ok ([], []).
Proof.
  induction lines as [|l lines IH]; intros H; [reflexivity|].
  cbn [forallb] in H. apply andb_true_iff in H as [Hl Hls].
  cbn [next_enhanced_lines]. unfold regex_match.
  rewrite (re_line_nowhere l 0 Hl). exact (IH Hls).
Qed.

Lemma next_plain_without_brackets (lines : list str) :
  forallb (forallb not_bracket) lines = true ->
  next_plain_lines lines = ([], []).
Proof.
  induction lines as [|l lines IH]; intros H; [reflexivity|].
  cbn [forallb] in H. apply andb_true_iff in H as [Hl Hls].
  cbn [next_plain_lines]. unfold regex_match.
  rewrite (re_line_nowhere l 0 Hl). exact (IH Hls).
Qed.

(** ** Splitting at white space *)

Lemma run_rep_greedy_some (p : N -> bool) (k : cont) (rest : str) :
  (forall r pos cs, exists a, k r pos cs = Some a) ->
  forall (pos : nat) (cs : caps),
    exists a, run_rep true 0 p rest pos cs k = Some a.
Proof.
  intros Hk. induction rest as [|c rest IH]; intros pos cs; cbn [run_rep].
  - apply Hk.
  - destruct (p c); [|apply Hk].
    destruct (IH (S pos) cs) as (a & Ha). rewrite Ha. eauto.
Qed.

Lemma final_mono : k_mono (fun _ pos' cs => Some (pos', cs)).
Proof. intros rest pos cs e cs' E. inversion E. lia. Qed.

Lemma whitespace_miss (c : N) (rest : str) (q : nat) :
  is_space c = false -> match_here re_whitespace (c :: rest) q = None.
Proof.
  intros H. unfold match_here, re_whitespace, pattern. cbn [run run_rep].
  rewrite H. reflexivity.
Qed.

Lemma whitespace_hit (c : N) (rest : str) (q : nat) :
  is_space c = true ->
  exists m, match_here re_whitespace (c :: rest) q = Some m
            /\ (S q <= m_end m)%nat.
Proof.
  intros H. unfold match_here, re_whitespace, pattern. cbn [run run_rep].
  rewrite H.
  destruct (run_rep_greedy_some is_space (fun _ pos' cs => Some (pos', cs))
              rest ltac:(eauto) (S q) []) as ([e cs] & He).
  rewrite He. eexists. split; [reflexivity|]. cbn [m_end].
  apply (run_rep_mono is_space _ final_mono rest true 0 (S q) [] e cs He).
Qed.

(** Whatever the input, no piece holds a white space character. *)
Lemma split_whitespace_pieces (rest : str) :
  forall (q : nat) (piece : str) (skip : nat),
    forallb is_nonspace piece = true ->
    forallb (forallb is_nonspace)
            (split_loop re_whitespace rest q piece skip) = true.
Proof.
  induction rest as [|c rest IH]; intros q piece skip Hpiece.
  - cbn [split_loop forallb]. rewrite forallb_rev, Hpiece. reflexivity.
  - cbn [split_loop]. destruct skip as [|skip]; [|apply IH; exact Hpiece].
    destruct (is_space c) eqn:Hc.
    + destruct (whitespace_hit c rest q Hc) as (m & Hm & Hend).
      rewrite Hm. destruct (Nat.eqb_spec (m_end m) q) as [E|_]; [lia|].
      cbn [forallb]. rewrite forallb_rev, Hpiece. apply IH. reflexivity.
    + rewrite (whitespace_miss c rest q Hc). apply IH.
      cbn [forallb]. unfold is_nonspace at 1. rewrite Hc. exact Hpiece.
Qed.

Lemma regex_split_whitespace_pieces (s : str) :
  forallb (forallb is_nonspace) (regex_split re_whitespace s) = true.
Proof.
  unfold regex_split. destruct s as [|c s]; [reflexivity|].
  apply split_whitespace_pieces. reflexivity.
Qed.

Lemma trim_start_all_space (s : str) :
  forallb is_space s = true -> trim_start s = [].
Proof.
  induction s as [|c s IH]; intros H; [reflexivity|].
  cbn [forallb] in H. apply andb_true_iff in H as [Hc Hs].
  cbn [trim_start]. rewrite Hc. exact (IH Hs).
Qed.

Lemma trim_start_head (c : N) (s : str) :
  is_space c = false -> trim_start (c :: s) = c :: s.
Proof. intros H. cbn [trim_start]. rewrite H. reflexivity. Qed.

Lemma trim_nonspace (s : str) : forallb is_nonspace s = true -> trim s = s.
Proof.
  intros H. unfold trim, trim_end.
  assert (Hs : forall t, forallb is_nonspace t = true -> trim_start t = t).
  { intros [|c t] Ht; [reflexivity|]. cbn [forallb] in Ht.
    apply andb_true_iff in Ht as [Hc _]. apply negb_true_iff in Hc.
    apply trim_start_head. exact Hc. }
  rewrite (Hs s H), Hs, rev_involutive; [reflexivity|].
  rewrite forallb_rev. exact H.
Qed.

(** Every word [text_words] makes of pieces without white space. *)
Lemma text_words_spec (d : value) (items : list str) (w : word) :
  forallb (forallb is_nonspace) items = true ->
  In w (text_words items d) ->
  time w = d /\ In (text w) items /\ text w <> [] /\ text w <> br.
Proof.
  intros Hitems Hin. unfold text_words in Hin.
  apply in_flat_map in Hin as (item & Hitem & Hw).
  rewrite forallb_forall in Hitems. specialize (Hitems item Hitem).
  destruct item as [|c item]; [destruct Hw|].
  destruct (str_eqb (c :: item) br) eqn:E; [destruct Hw|].
  destruct Hw as [<-|[]]. cbn [time text].
  rewrite (trim_nonspace _ Hitems).
  repeat split; auto; [discriminate|].
  intros Hbr. rewrite Hbr in E. discriminate E.
Qed.

(** ** A text given as lines of words *)

Lemma text_token_facts (u : str) :
  text_token u = true ->
  u <> [] /\ forallb is_nonspace u = true /\ str_eqb u br = false.
Proof.
  unfold text_token. destruct u as [|c u]; [discriminate|].
  intros H. apply andb_true_iff in H as [H1 H2].
  apply negb_true_iff in H2. repeat split; auto. discriminate.
Qed.

Lemma token_line_facts (L : text_line) :
  token_line L = true ->
  text_token (fst L) = true /\ forallb text_token (snd L) = true.
Proof. unfold token_line. intros H. apply andb_true_iff in H. exact H. Qed.

Lemma nonspace_is_line_char (c : N) :
  is_nonspace c = true -> line_char c = true.
Proof.
  intros H. unfold line_char, inner_char, token_char, is_nonspace in *.
  destruct (is_space c); [discriminate|].
  destruct (c =? LT)%N, (c =? LBRACK)%N, (c =? RBRACK)%N, (c =? SP)%N;
    reflexivity.
Qed.

Lemma nonspace_not_space (c : N) : is_nonspace c = true -> is_space c = false.
Proof. unfold is_nonspace. apply negb_true_iff. Qed.

Lemma nonspace_not_SP (c : N) : is_nonspace c = true -> (c =? SP)%N = false.
Proof.
  intros H. apply nonspace_not_space in H.
  destruct (N.eqb_spec c SP) as [->|]; [discriminate H|reflexivity].
Qed.

Lemma nonspace_not_LF (c : N) : is_nonspace c = true -> (c =? LF)%N = false.
Proof.
  intros H. apply nonspace_not_space in H.
  destruct (N.eqb_spec c LF) as [->|]; [discriminate H|reflexivity].
Qed.

Lemma br_nonspace : forallb is_nonspace br = true.
Proof. reflexivity. Qed.

Lemma line_of_head (u : str) (us : list str) :
  text_token u = true ->
  exists c rest, line_of u us = c :: rest /\ is_nonspace c = true.
Proof.
  intros H. destruct (text_token_facts u H) as (Hne & Hns & _).
  destruct u as [|c u]; [contradiction|].
  cbn [forallb] in Hns. apply andb_true_iff in Hns as [Hc _].
  destruct us; cbn [line_of app]; eauto.
Qed.

Lemma line_of_chars (us : list str) :
  forall u : str,
    text_token u = true -> forallb text_token us = true ->
    forallb line_char (line_of u us) = true.
Proof.
  induction us as [|u' us IH]; intros u Hu Hus;
    destruct (text_token_facts u Hu) as (_ & Hns & _);
    pose proof (forallb_impl _ _ _ nonspace_is_line_char Hns) as Hl.
  - exact Hl.
  - cbn [forallb] in Hus. apply andb_true_iff in Hus as [Hu' Hus].
    cbn [line_of]. rewrite forallb_app, Hl. cbn [forallb].
    rewrite (IH u' Hu' Hus). reflexivity.
Qed.

Lemma spaces_ok_after_SP (c : N) (s : str) :
  spaces_ok (SP :: c :: s)
  = negb (c =? SP)%N && negb (c =? LF)%N && spaces_ok (c :: s).
Proof. reflexivity. Qed.

Lemma spaces_ok_line_of (rest : str) (us : list str) :
  forall u : str,
    text_token u = true -> forallb text_token us = true ->
    spaces_ok (line_of u us ++ rest) = spaces_ok rest.
Proof.
  induction us as [|u' us IH]; intros u Hu Hus;
    destruct (text_token_facts u Hu) as (_ & Hns & _);
    assert (Hsp : forallb (fun c => negb (c =? SP)%N) u = true)
      by (apply (forallb_impl is_nonspace); [|exact Hns];
          intros c Hc; rewrite (nonspace_not_SP c Hc); reflexivity).
  - cbn [line_of]. apply spaces_ok_skip. exact Hsp.
  - cbn [forallb] in Hus. apply andb_true_iff in Hus as [Hu' Hus].
    cbn [line_of]. rewrite <- app_assoc. rewrite (spaces_ok_skip _ _ Hsp).
    destruct (line_of_head u' us Hu') as (c & t & E & Hc).
    cbn [app]. specialize (IH u' Hu' Hus). rewrite E in *. cbn [app] in *.
    rewrite spaces_ok_after_SP.
    rewrite (nonspace_not_SP c Hc), (nonspace_not_LF c Hc). cbn [negb andb].
    exact IH.
Qed.

Lemma spaces_ok_text_of (Ls : list text_line) :
  forall L : text_line,
    forallb token_line (L :: Ls) = true -> spaces_ok (text_of L Ls) = true.
Proof.
  induction Ls as [|L' Ls IH]; intros L H;
    cbn [forallb] in H; apply andb_true_iff in H as [HL HLs];
    destruct (token_line_facts L HL) as [Hu Hus]; cbn [text_of].
  - rewrite <- (app_nil_r (line_of _ _)).
    rewrite (spaces_ok_line_of [] _ _ Hu Hus). reflexivity.
  - rewrite (spaces_ok_line_of _ _ _ Hu Hus). cbn [spaces_ok].
    change (LF =? SP)%N with false. cbv iota. exact (IH L' HLs).
Qed.

Lemma text_of_chars (Ls : list text_line) :
  forall L : text_line,
    forallb token_line (L :: Ls) = true ->
    forallb (fun c => line_char c || (c =? LF)%N) (text_of L Ls) = true.
Proof.
  assert (Hw : forall s, forallb line_char s = true ->
                forallb (fun c => line_char c || (c =? LF)%N) s = true).
  { intros s. apply forallb_impl. intros c Hc. rewrite Hc. reflexivity. }
  induction Ls as [|L' Ls IH]; intros L H;
    cbn [forallb] in H; apply andb_true_iff in H as [HL HLs];
    destruct (token_line_facts L HL) as [Hu Hus]; cbn [text_of].
  - apply Hw, line_of_chars; assumption.
  - rewrite forallb_app, (Hw _ (line_of_chars _ _ Hu Hus)). cbn [forallb].
    change (LF =? LF)%N with true. rewrite orb_true_r. exact (IH L' HLs).
Qed.

Lemma token_last (u : str) :
  text_token u = true ->
  exists s c, u = s ++ [c] /\ is_space c = false.
Proof.
  intros H. destruct (text_token_facts u H) as (Hne & Hns & _).
  destruct (exists_last Hne) as (s & c & ->). exists s, c.
  split; [reflexivity|]. rewrite forallb_app in Hns.
  apply andb_true_iff in Hns as [_ Hc]. cbn [forallb] in Hc.
  rewrite andb_true_r in Hc. apply nonspace_not_space. exact Hc.
Qed.

Lemma line_of_last (us : list str) :
  forall u : str,
    text_token u = true -> forallb text_token us = true ->
    exists s c, line_of u us = s ++ [c] /\ is_space c = false.
Proof.
  induction us as [|u' us IH]; intros u Hu Hus; cbn [line_of].
  - apply token_last. exact Hu.
  - cbn [forallb] in Hus. apply andb_true_iff in Hus as [Hu' Hus].
    destruct (IH u' Hu' Hus) as (s & c & E & Hc).
    exists (u ++ SP :: s), c. rewrite E, <- app_assoc. auto.
Qed.

Lemma text_of_last (Ls : list text_line) :
  forall L : text_line,
    forallb token_line (L :: Ls) = true ->
    exists s c, text_of L Ls = s ++ [c] /\ is_space c = false.
Proof.
  induction Ls as [|L' Ls IH]; intros L H;
    cbn [forallb] in H; apply andb_true_iff in H as [HL HLs];
    destruct (token_line_facts L HL) as [Hu Hus]; cbn [text_of].
  - apply line_of_last; assumption.
  - destruct (IH L' HLs) as (s & c & E & Hc).
    exists (line_of (fst L) (snd L) ++ LF :: s), c.
    rewrite E, <- app_assoc. auto.
Qed.

Lemma trim_text_of (L : text_line) (Ls : list text_line) :
  forallb token_line (L :: Ls) = true -> trim (text_of L Ls) = text_of L Ls.
Proof.
  intros H. destruct (text_of_last Ls L H) as (s & c & E & Hc).
  assert (Hhead : exists c0 t, text_of L Ls = c0 :: t /\ is_space c0 = false).
  { cbn [forallb] in H. apply andb_true_iff in H as [HL _].
    destruct (token_line_facts L HL) as [Hu _].
    destruct (line_of_head (fst L) (snd L) Hu) as (c0 & t & E0 & Hc0).
    apply nonspace_not_space in Hc0.
    destruct Ls; cbn [text_of]; rewrite E0; cbn [app]; eauto. }
  destruct Hhead as (c0 & t & E0 & Hc0).
  unfold trim. rewrite E0, (trim_start_head c0 t Hc0), <- E0, E.
  unfold trim_end. rewrite rev_app_distr. cbn [rev app].
  rewrite (trim_start_head c _ Hc). cbn [rev]. rewrite rev_involutive.
  reflexivity.
Qed.

Lemma replace_newline_text_of (Ls : list text_line) :
  forall (L : text_line) (fuel pos : nat),
    forallb token_line (L :: Ls) = true ->
    (List.length Ls < fuel)%nat ->
    replace_all fuel re_any_newline (br ++ [LF]) (text_of L Ls) pos
    = marked_text_of L Ls.
Proof.
  induction Ls as [|L' Ls IH]; intros L fuel pos H Hfuel;
    (destruct fuel as [|fuel]; [cbn [List.length] in Hfuel; lia|]);
    cbn [forallb] in H; apply andb_true_iff in H as [HL HLs];
    destruct (token_line_facts L HL) as [Hu Hus];
    cbn [text_of marked_text_of].
  - rewrite <- (app_nil_r (line_of _ _)) at 1.
    rewrite replace_newline_line by (apply line_of_chars; assumption).
    cbn [replace_all search_from]. rewrite app_nil_r. reflexivity.
  - rewrite replace_newline_line by (apply line_of_chars; assumption).
    change (LF :: text_of L' Ls) with ([LF] ++ text_of L' Ls).
    rewrite (replace_all_hit re_any_newline (br ++ [LF]) [LF] _ fuel _
               [(0%nat, [LF])]);
      [|discriminate|apply re_any_newline_hit].
    rewrite IH; [|exact HLs|cbn [List.length] in Hfuel; lia].
    rewrite <- !app_assoc. reflexivity.
Qed.

Lemma length_text_of (Ls : list text_line) :
  forall L : text_line, (List.length Ls <= List.length (text_of L Ls))%nat.
Proof.
  induction Ls as [|L' Ls IH]; intros L; cbn [text_of List.length]; [lia|].
  rewrite length_app. cbn [List.length]. specialize (IH L'). lia.
Qed.

Lemma normalize_text_of (L : text_line) (Ls : list text_line) :
  forallb token_line (L :: Ls) = true ->
  normalize (text_of L Ls) = marked_text_of L Ls.
Proof.
  intros H. unfold normalize.
  assert (E1 : regex_replace re_spaces [SP] (text_of L Ls) = text_of L Ls).
  { unfold regex_replace. apply replace_spaces_identity; [|lia].
    apply spaces_ok_text_of. exact H. }
  rewrite E1.
  assert (E2 : regex_replace re_ideographic_space [] (text_of L Ls)
               = text_of L Ls).
  { apply regex_replace_no_match. apply search_from_all_dead; [|reflexivity].
    intros x Hx. apply line_char_dead_ideographic.
    pose proof (text_of_chars Ls L H) as Hall.
    rewrite forallb_forall in Hall. apply Hall. exact Hx. }
  rewrite E2.
  assert (E3 : regex_replace re_spaces_before_newline [LF] (text_of L Ls)
               = text_of L Ls).
  { apply regex_replace_no_match. apply re_spaces_before_newline_nowhere.
    apply spaces_ok_text_of. exact H. }
  rewrite E3, (trim_text_of L Ls H).
  unfold regex_replace. apply replace_newline_text_of; [exact H|].
  pose proof (length_text_of Ls L). lia.
Qed.

(** ** The words fromText finds in it *)

Lemma split_whitespace_token (xs rest : str) :
  forall (q : nat) (piece : str),
    forallb is_nonspace xs = true ->
    split_loop re_whitespace (xs ++ rest) q piece 0
    = split_loop re_whitespace rest (List.length xs + q)%nat
                 (rev xs ++ piece) 0.
Proof.
  induction xs as [|x xs IH]; intros q piece H; [reflexivity|].
  cbn [forallb] in H. apply andb_true_iff in H as [Hx Hxs].
  cbn [app split_loop].
  rewrite (whitespace_miss x _ q (nonspace_not_space x Hx)).
  rewrite (IH (S q) (x :: piece) Hxs).
  cbn [List.length rev]. rewrite Nat.add_succ_r, <- app_assoc. reflexivity.
Qed.

Lemma split_whitespace_separator (c : N) (rest : str) (q : nat)
    (piece : str) :
  is_space c = true ->
  stops is_space rest = true ->
  split_loop re_whitespace (c :: rest) q piece 0
  = rev piece :: split_loop re_whitespace rest (S q) [] 0.
Proof.
  intros Hc Hstop. cbn [split_loop].
  assert (Hm : match_here re_whitespace (c :: rest) q
               = Some (mkMatch q (S q) (set_cap 0 (firstn (S q - q) (c :: rest)) []))).
  { unfold match_here, re_whitespace, pattern. cbn [run run_rep].
    rewrite Hc.
    rewrite (run_rep_greedy_full is_space [] rest _ (S q, []) (S q) []
               eq_refl Hstop eq_refl).
    reflexivity. }
  rewrite Hm. cbn [m_end].
  destruct (Nat.eqb_spec (S q) q) as [E|_]; [lia|].
  replace (S q - q - 1)%nat with 0%nat by lia. reflexivity.
Qed.

Lemma stops_at_token (u rest : str) :
  text_token u = true -> stops is_space (u ++ rest) = true.
Proof.
  intros H. destruct (text_token_facts u H) as (Hne & Hns & _).
  destruct u as [|c u]; [contradiction|].
  cbn [forallb] in Hns. apply andb_true_iff in Hns as [Hc _].
  cbn [app stops]. exact Hc.
Qed.

Lemma stops_at_line (u : str) (us : list str) (rest : str) :
  text_token u = true -> stops is_space (line_of u us ++ rest) = true.
Proof.
  intros H. destruct us; cbn [line_of]; rewrite <- ?app_assoc;
    apply stops_at_token; exact H.
Qed.

Lemma stops_at_text (L : text_line) (Ls : list text_line) :
  forallb token_line (L :: Ls) = true ->
  stops is_space (marked_text_of L Ls) = true.
Proof.
  intros H. cbn [forallb] in H. apply andb_true_iff in H as [HL _].
  destruct (token_line_facts L HL) as [Hu _].
  destruct Ls; cbn [marked_text_of].
  - rewrite <- (app_nil_r (line_of _ _)). apply stops_at_line. exact Hu.
  - apply stops_at_line. exact Hu.
Qed.

(** The last line, and a line followed by a line feed and more. *)
Lemma split_whitespace_last_line (mark : str) (us : list str) :
  forall (u : str) (q : nat),
    text_token u = true -> forallb text_token us = true ->
    forallb is_nonspace mark = true ->
    split_loop re_whitespace (line_of u us ++ mark) q [] 0
    = marked_last u us mark.
Proof.
  induction us as [|u' us IH]; intros u q Hu Hus Hmark;
    destruct (text_token_facts u Hu) as (_ & Hns & _);
    cbn [line_of marked_last].
  - rewrite <- (app_nil_r (u ++ mark)).
    rewrite split_whitespace_token
      by (rewrite forallb_app, Hns, Hmark; reflexivity).
    cbn [split_loop]. rewrite !app_nil_r, rev_involutive. reflexivity.
  - cbn [forallb] in Hus. apply andb_true_iff in Hus as [Hu' Hus].
    rewrite <- app_assoc. cbn [app].
    rewrite (split_whitespace_token u _ q [] Hns).
    rewrite split_whitespace_separator;
      [|reflexivity|apply stops_at_line; exact Hu'].
    rewrite app_nil_r, rev_involutive, (IH u' _ Hu' Hus Hmark).
    reflexivity.
Qed.

Lemma split_whitespace_line (mark rest : str) (more : list str)
    (us : list str) :
  (forall q, split_loop re_whitespace rest q [] 0 = more) ->
  stops is_space rest = true ->
  forall (u : str) (q : nat),
    text_token u = true -> forallb text_token us = true ->
    forallb is_nonspace mark = true ->
    split_loop re_whitespace (line_of u us ++ mark ++ LF :: rest) q [] 0
    = marked_last u us mark ++ more.
Proof.
  intros Hmore Hstop.
  induction us as [|u' us IH]; intros u q Hu Hus Hmark;
    destruct (text_token_facts u Hu) as (_ & Hns & _);
    cbn [line_of marked_last].
  - rewrite app_assoc.
    rewrite split_whitespace_token
      by (rewrite forallb_app, Hns, Hmark; reflexivity).
    rewrite split_whitespace_separator; [|reflexivity|exact Hstop].
    rewrite app_nil_r, rev_involutive, Hmore. reflexivity.
  - cbn [forallb] in Hus. apply andb_true_iff in Hus as [Hu' Hus].
    rewrite <- app_assoc. cbn [app].
    rewrite (split_whitespace_token u _ q [] Hns).
    rewrite split_whitespace_separator;
      [|reflexivity|apply stops_at_line; exact Hu'].
    rewrite app_nil_r, rev_involutive, (IH u' _ Hu' Hus Hmark).
    reflexivity.
Qed.

Lemma split_marked_text (Ls : list text_line) :
  forall (L : text_line) (q : nat),
    forallb token_line (L :: Ls) = true ->
    split_loop re_whitespace (marked_text_of L Ls) q [] 0 = all_words L Ls.
Proof.
  induction Ls as [|L' Ls IH]; intros L q H; pose proof H as Hall;
    cbn [forallb] in H; apply andb_true_iff in H as [HL HLs];
    destruct (token_line_facts L HL) as [Hu Hus];
    cbn [marked_text_of all_words].
  - rewrite <- (app_nil_r (line_of _ _)).
    apply split_whitespace_last_line; auto.
  - exact (split_whitespace_line br (marked_text_of L' Ls) (all_words L' Ls)
             (snd L) (fun q' => IH L' q' HLs) (stops_at_text L' Ls HLs)
             (fst L) q Hu Hus br_nonspace).
Qed.

Lemma marked_last_tokens (mark : str) (us : list str) :
  forall u : str,
    text_token u = true -> forallb text_token us = true ->
    mark = [] \/ mark = br ->
    forallb text_token (marked_last u us mark) = true.
Proof.
  induction us as [|u' us IH]; intros u Hu Hus Hmark; cbn [marked_last].
  - cbn [forallb]. rewrite andb_true_r.
    destruct Hmark as [->| ->]; [rewrite app_nil_r; exact Hu|].
    destruct (text_token_facts u Hu) as (Hne & Hns & _).
    destruct u as [|c u]; [contradiction|].
    unfold text_token. cbn [app]. fold (@app N).
    change (c :: u ++ br) with ((c :: u) ++ br).
    rewrite forallb_app, Hns. cbn [andb forallb].
    apply negb_true_iff. destruct (str_eqb ((c :: u) ++ br) br) eqn:E;
      [|reflexivity].
    apply str_eqb_eq in E. apply (f_equal (@List.length N)) in E.
    rewrite length_app in E. cbn in E. lia.
  - cbn [forallb] in Hus. apply andb_true_iff in Hus as [Hu' Hus].
    cbn [forallb]. rewrite Hu, (IH u' Hu' Hus Hmark). reflexivity.
Qed.

Lemma all_words_tokens (Ls : list text_line) :
  forall L : text_line,
    forallb token_line (L :: Ls) = true ->
    forallb text_token (all_words L Ls) = true.
Proof.
  induction Ls as [|L' Ls IH]; intros L H;
    cbn [forallb] in H; apply andb_true_iff in H as [HL HLs];
    destruct (token_line_facts L HL) as [Hu Hus]; cbn [all_words].
  - apply marked_last_tokens; auto.
  - rewrite forallb_app, (marked_last_tokens br _ _ Hu Hus), (IH L' HLs);
      auto.
Qed.

Lemma text_words_tokens (d : value) (items : list str) :
  forallb text_token items = true ->
  text_words items d = List.map (fun t => mkWord t d) items.
Proof.
  induction items as [|item items IH]; intros H; [reflexivity|].
  cbn [forallb] in H. apply andb_true_iff in H as [Hi His].
  destruct (text_token_facts item Hi) as (Hne & Hns & Hbr).
  unfold text_words. cbn [flat_map List.map]. fold (text_words items d).
  rewrite (IH His). destruct item as [|c item]; [contradiction|].
  rewrite Hbr. cbn [negb app]. rewrite (trim_nonspace _ Hns). reflexivity.
Qed.

(** The pieces [split] finds in the text as [fromText] prepares it. *)
Lemma fromText_pieces (L : text_line) (Ls : list text_line) :
  forallb token_line (L :: Ls) = true ->
  regex_split re_whitespace (normalize (text_of L Ls)) = all_words L Ls.
Proof.
  intros H. rewrite (normalize_text_of L Ls H). unfold regex_split.
  destruct (marked_text_of L Ls) as [|c s] eqn:E.
  - cbn [forallb] in H. apply andb_true_iff in H as [HL _].
    destruct (token_line_facts L HL) as [Hu _].
    destruct (line_of_head (fst L) (snd L) Hu) as (c & t & E0 & _).
    destruct Ls; cbn [marked_text_of] in E; rewrite E0 in E;
      discriminate E.
  - rewrite <- E. apply split_marked_text. exact H.
Qed.

(** ** From a text to an exported file and back *)







(** ** Timing the words one after the other *)

Lemma increasing_tail (t : Q) (ts : list Q) :
  increasing (t :: ts) = true -> increasing ts = true.
Proof.
  cbn [increasing]. destruct ts as [|t' ts]; [reflexivity|].
  intros H. apply andb_true_iff in H as [_ H]. exact H.
Qed.

Lemma increasing_head (t t' : Q) (ts : list Q) :
  increasing (t :: t' :: ts) = true -> (t < t')%Q.
Proof.
  cbn [increasing]. intros H. apply andb_true_iff in H as [H _].
  apply negb_true_iff in H. apply Qle_bool_false_lt. exact H.
Qed.

(** The times of the words before the position of the next call are all
    below the time of that call. *)
Lemma taps_run (ts : list Q) :
  forall (i : Z) (l : Lyrics),
    increasing ts = true ->
    0 <= i ->
    i + Z.of_nat (List.length ts) <= length_of l ->
    (forall j w t0, 0 <= j < i -> at_index (words l) j = Some w ->
                    is_truthy (time w) = true ->
                    hd_error ts = Some t0 ->
                    exists q, time w = VNum (Fin q) /\ (q < t0)%Q) ->
    exists l' log,
      run_calls (taps i ts) l = Ok (l', log)
      /\ (forall j w, 0 <= j < i -> at_index (words l) j = Some w ->
                      at_index (words l') j = Some w)
      /\ (forall n t w, nth_error ts n = Some t ->
                        at_index (words l) (i + Z.of_nat n) = Some w ->
                        at_index (words l') (i + Z.of_nat n)
                        = Some (mkWord (text w) (VNum (Fin t)))).
Proof.
  induction ts as [|t0 ts IH]; intros i l Hinc Hi Hlen Hbelow.
  - exists l, []. split; [reflexivity|]. split; [auto|].
    intros n t w Hn. destruct n; discriminate.
  - cbn [List.length] in Hlen. cbn [taps run_calls].
    destruct (setTimeOfWord_total i (VNum (Fin t0)) l ltac:(lia))
      as (l1 & log1 & Hrun1 & _ & Hlen1).
    destruct (setTimeOfWord_at i _ l l1 log1 Hrun1) as (_ & _ & Hat).
    rewrite Hrun1. cbn [bind fst snd].
    assert (Hkept : forall j w, 0 <= j < i -> at_index (words l) j = Some w ->
                      at_index (words l1) j = Some w).
    { intros j w Hj Hw. rewrite Hat, Hw. cbn [option_map is_nullish negb andb].
      destruct (Z.eqb_spec j i); [lia|].
      destruct (Z.ltb_spec i j); [lia|].
      destruct (is_truthy (time w)) eqn:Htr; [|reflexivity].
      destruct (Hbelow j w t0 Hj Hw Htr eq_refl) as (q & Hq & Hlt).
      rewrite Hq. cbn [andb]. unfold value_ge, Num.ge. cbn.
      destruct (Qle_bool t0 q) eqn:E; [|reflexivity].
      apply Qle_bool_iff in E. exfalso. apply (Qlt_irrefl t0).
      eapply Qle_lt_trans; eauto. }
    assert (Hset : forall w, at_index (words l) i = Some w ->
                     at_index (words l1) i
                     = Some (mkWord (text w) (VNum (Fin t0)))).
    { intros w Hw. rewrite Hat, Hw, Z.eqb_refl. reflexivity. }
    destruct (IH (i + 1) l1 (increasing_tail _ _ Hinc) ltac:(lia)
                ltac:(lia)) as (l' & log' & Hrun & Hbefore & Hafter).
    + intros j w1 t1 Hj Hw1 Htr Hhd.
      destruct ts as [|t1' ts]; [discriminate|]. injection Hhd as ->.
      pose proof (increasing_head _ _ _ Hinc) as Hlt.
      destruct (Z.eq_dec j i) as [->|Hne].
      * destruct (at_index_in_range (words l) i) as [w Hw];
          [unfold length_of in Hlen; lia|].
        rewrite (Hset w Hw) in Hw1. injection Hw1 as <-.
        exists t0. split; [reflexivity|exact Hlt].
      * destruct (at_index_in_range (words l) j) as [w Hw];
          [unfold length_of in Hlen; lia|].
        rewrite (Hkept j w ltac:(lia) Hw) in Hw1. injection Hw1 as <-.
        destruct (Hbelow j w t0 ltac:(lia) Hw Htr eq_refl) as (q & Hq & Hq').
        exists q. split; [exact Hq|]. eapply Qlt_trans; eauto.
    + rewrite Hrun. cbn [bind fst snd]. eexists. eexists.
      split; [reflexivity|]. split.
      * intros j w Hj Hw. apply Hbefore; [lia|]. apply Hkept; auto.
      * intros n t w Hn Hw. destruct n as [|n].
        -- injection Hn as <-. replace (i + Z.of_nat 0) with i in * by lia.
           apply Hbefore; [lia|]. apply Hset. exact Hw.
        -- cbn [nth_error] in Hn.
           replace (i + Z.of_nat (S n)) with (i + 1 + Z.of_nat n) in * by lia.
           assert (Hw1 : exists w1, at_index (words l1) (i + 1 + Z.of_nat n)
                                    = Some w1 /\ text w1 = text w).
           { rewrite Hat, Hw. cbn [option_map]. eexists. split; [reflexivity|].
             destruct (_ =? _); [reflexivity|].
             destruct (_ && _); reflexivity. }
           destruct Hw1 as (w1 & Hw1 & Htext).
           rewrite (Hafter n t w1 Hn Hw1), Htext. reflexivity.
Qed.

(** ** A greedy run that has to give back *)

Lemma run_rep_greedy_none_tail (p : N -> bool) (c : N) (zs tail : str)
    (k : cont) :
  forall (pos : nat) (cs : caps),
    (forall x rest pos' cs', x <> c -> k (x :: rest) pos' cs' = None) ->
    (forall pos' cs', k tail pos' cs' = None) ->
    stops p tail = true ->
    existsb (N.eqb c) zs = false ->
    run_rep true 0 p (zs ++ tail) pos cs k = None.
Proof.
  induction zs as [|z zs IH]; intros pos cs Hk Htail Hstop Hc.
  - cbn [app]. destruct tail as [|t tail]; cbn [run_rep]; [apply Htail|].
    cbn [stops] in Hstop. apply negb_true_iff in Hstop. rewrite Hstop.
    apply Htail.
  - cbn [existsb] in Hc. apply orb_false_iff in Hc as [Hz Hzs].
    apply N.eqb_neq in Hz.
    cbn [app run_rep]. rewrite (IH (S pos) cs Hk Htail Hstop Hzs).
    assert (Hkz : k (z :: zs ++ tail) pos cs = None)
      by (apply Hk; congruence).
    rewrite Hkz. destruct (p z); reflexivity.
Qed.

Lemma run_rep_greedy_last_tail (p : N -> bool) (c : N) (ys zs tail : str)
    (k : cont) a :
  forall (pos : nat) (cs : caps),
    forallb p ys = true ->
    p c = true ->
    (forall x rest pos' cs', x <> c -> k (x :: rest) pos' cs' = None) ->
    (forall pos' cs', k tail pos' cs' = None) ->
    stops p tail = true ->
    existsb (N.eqb c) zs = false ->
    k (c :: zs ++ tail) (List.length ys + pos)%nat cs = Some a ->
    run_rep true 0 p (ys ++ c :: zs ++ tail) pos cs k = Some a.
Proof.
  induction ys as [|y ys IH]; intros pos cs Hp Hpc Hk Htail Hstop Hc Hhit.
  - cbn [app run_rep]. rewrite Hpc.
    rewrite (run_rep_greedy_none_tail p c zs tail k (S pos) cs Hk Htail
               Hstop Hc).
    exact Hhit.
  - cbn [forallb] in Hp. apply andb_true_iff in Hp as [Hy Hys].
    cbn [app run_rep]. rewrite Hy.
    rewrite (IH (S pos) cs Hys Hpc Hk Htail Hstop Hc); [reflexivity|].
    rewrite Nat.add_succ_r. exact Hhit.
Qed.

(** ** The offset tag at the head of a text *)

Lemma digit_not_RBRACK (c : N) : is_digit c = true -> (c =? RBRACK)%N = false.
Proof. intros H. chars. Qed.

(** What follows the header of the tag: the digits are captured whole. *)
Lemma offset_value_run (ds rest : str) (pos : nat) (cs : caps) :
  forallb is_digit ds = true ->
  run (Group 1 (Rep true 0 is_dot) >> Chr RBRACK)
      (ds ++ RBRACK :: br ++ LF :: rest) pos cs
      (fun _ pos' cs' => Some (pos', cs'))
  = Some (S (List.length ds + pos), set_cap 1 ds cs).
Proof.
  intros Hd. cbn [run].
  rewrite (run_rep_greedy_last_tail is_dot RBRACK ds br (LF :: rest) _
             (S (List.length ds + pos), set_cap 1 ds cs)).
  - reflexivity.
  - exact (forallb_impl _ _ _ digit_is_dot Hd).
  - reflexivity.
  - intros x r pos' cs' Hx. cbn [run].
    apply N.eqb_neq in Hx. rewrite Hx. reflexivity.
  - intros pos' cs'. reflexivity.
  - reflexivity.
  - reflexivity.
  - cbn [run]. change (RBRACK =? RBRACK)%N with true. cbv iota.
    rewrite firstn_length_app. reflexivity.
Qed.

Lemma offset_text_shape (name : string) (ds rest : str) :
  offset_tag name ds ++ br ++ LF :: rest
  = lit name ++ (ds ++ RBRACK :: br ++ LF :: rest).
Proof. unfold offset_tag. rewrite <- !app_assoc. reflexivity. Qed.


Lemma offset_i_match (name : string) (ds rest : str) :
  name = "[offset:"%string \/ name = "[OFFSET:"%string ->
  forallb is_digit ds = true ->
  exists m,
    regex_match re_offset_i (offset_tag name ds ++ br ++ LF :: rest) = Some m.
Proof.
  intros Hname Hd. rewrite offset_text_shape. unfold regex_match.
  eexists. apply search_from_hit, match_here_some.
  unfold re_offset_i, pattern.
  destruct Hname as [-> | ->].
  - change (run (chars_i "[offset:" >> Group 1 (Rep true 0 is_dot)
                 >> Chr RBRACK)
                (lit "[offset:" ++ ds ++ RBRACK :: br ++ LF :: rest) 0 []
                (fun _ pos' cs' => Some (pos', cs')))
      with (run (Group 1 (Rep true 0 is_dot) >> Chr RBRACK)
                (ds ++ RBRACK :: br ++ LF :: rest) 8 []
                (fun _ pos' cs' => Some (pos', cs'))).
    apply offset_value_run. exact Hd.
  - change (run (chars_i "[offset:" >> Group 1 (Rep true 0 is_dot)
                 >> Chr RBRACK)
                (lit "[OFFSET:" ++ ds ++ RBRACK :: br ++ LF :: rest) 0 []
                (fun _ pos' cs' => Some (pos', cs')))
      with (run (Group 1 (Rep true 0 is_dot) >> Chr RBRACK)
                (ds ++ RBRACK :: br ++ LF :: rest) 8 []
                (fun _ pos' cs' => Some (pos', cs'))).
    apply offset_value_run. exact Hd.
Qed.

(** The case-sensitive pattern finds no tag where every ["["] is followed
    by a digit, nor at a tag spelled in upper case. *)
Lemma re_offset_nowhere (s : str) :
  forall pos : nat, guarded s = true -> search_from re_offset s pos = None.
Proof.
  induction s as [|c s IH]; intros pos Hok; [reflexivity|].
  cbn [guarded] in Hok. apply andb_true_iff in Hok as [Hc Hs].
  rewrite search_from_miss; [apply IH; exact Hs|].
  unfold match_here, re_offset, pattern.
  change (chars "[offset:")
    with (Seq (Seq (Seq (Seq (Seq (Seq (Seq (Chr 91) (Chr 111)) (Chr 102))
                                  (Chr 102)) (Chr 115)) (Chr 101))
                    (Chr 116)) (Chr 58)).
  cbn [run].
  destruct (c =? LBRACK)%N eqn:Ec.
  - destruct s as [|c' s]; [discriminate|].
    assert (Hc' : (c' =? 111)%N = false) by chars.
    rewrite Hc'. destruct (c =? 91)%N; reflexivity.
  - change 91%N with LBRACK. rewrite Ec. reflexivity.
Qed.

Lemma re_offset_dead (c : N) : (c =? LBRACK)%N = false -> dead re_offset c.
Proof.
  intros H rest pos. unfold match_here, re_offset, pattern.
  change (chars "[offset:")
    with (Seq (Seq (Seq (Seq (Seq (Seq (Seq (Chr 91) (Chr 111)) (Chr 102))
                                  (Chr 102)) (Chr 115)) (Chr 101))
                    (Chr 116)) (Chr 58)).
  cbn [run]. change 91%N with LBRACK. rewrite H. reflexivity.
Qed.

Lemma offset_upper_case_missed (ds rest : str) :
  forallb is_digit ds = true ->
  guarded rest = true ->
  regex_match re_offset (offset_tag "[OFFSET:" ds ++ br ++ LF :: rest) = None.
Proof.
  intros Hd Hg. rewrite offset_text_shape. unfold regex_match.
  change (lit "[OFFSET:" ++ ds ++ RBRACK :: br ++ LF :: rest)
    with (LBRACK :: lit "OFFSET:" ++ ds ++ RBRACK :: br ++ LF :: rest).
  rewrite search_from_miss by reflexivity.
  rewrite search_from_dead by (intros x Hx; apply re_offset_dead;
    cbn in Hx; repeat (destruct Hx as [<-|Hx]; [reflexivity|]); destruct Hx).
  rewrite search_from_dead.
  - change (RBRACK :: br ++ LF :: rest)
      with ((RBRACK :: br ++ [LF]) ++ rest).
    rewrite search_from_dead.
    + apply re_offset_nowhere. exact Hg.
    + intros x Hx. apply re_offset_dead.
      cbn in Hx. repeat (destruct Hx as [<-|Hx]; [reflexivity|]). destruct Hx.
  - intros x Hx. apply re_offset_dead.
    pose proof (in_forallb _ _ _ Hd Hx) as Hdx. chars.
Qed.

(** ** A first line of its own before the exported lines *)

Lemma normalize_prefixed (P : str) (L : line) (Ls : list line) :
  P <> [] ->
  forallb is_nonspace P = true ->
  forallb good_line (L :: Ls) = true ->
  normalize (P ++ exported (L :: Ls)) = P ++ br ++ LF :: normalised L Ls.
Proof.
  intros Hne HP H.
  assert (Hline : forallb line_char P = true)
    by exact (forallb_impl _ _ _ nonspace_is_line_char HP).
  assert (Hok : spaces_ok (P ++ exported (L :: Ls)) = true).
  { rewrite spaces_ok_skip; [apply spaces_ok_exported; exact H|].
    apply (forallb_impl is_nonspace); [|exact HP].
    intros c Hc. rewrite (nonspace_not_SP c Hc). reflexivity. }
  unfold normalize.
  assert (E1 : regex_replace re_spaces [SP] (P ++ exported (L :: Ls))
               = P ++ exported (L :: Ls)).
  { unfold regex_replace. apply replace_spaces_identity; [exact Hok|lia]. }
  rewrite E1.
  assert (E2 : regex_replace re_ideographic_space [] (P ++ exported (L :: Ls))
               = P ++ exported (L :: Ls)).
  { apply regex_replace_no_match. apply search_from_all_dead; [|reflexivity].
    intros x Hx. apply line_char_dead_ideographic.
    apply in_app_or in Hx as [Hx|Hx].
    - rewrite (in_forallb _ _ _ Hline Hx). reflexivity.
    - pose proof (exported_chars (L :: Ls) H) as Hall.
      rewrite forallb_forall in Hall. apply Hall. exact Hx. }
  rewrite E2.
  assert (E3 : regex_replace re_spaces_before_newline [LF]
                 (P ++ exported (L :: Ls))
               = P ++ exported (L :: Ls)).
  { apply regex_replace_no_match. apply re_spaces_before_newline_nowhere.
    exact Hok. }
  rewrite E3.
  assert (E4 : trim (P ++ exported (L :: Ls)) = P ++ exported (L :: Ls)).
  { unfold trim. destruct P as [|c P]; [contradiction|].
    cbn [forallb] in HP. apply andb_true_iff in HP as [Hc _].
    cbn [app]. rewrite (trim_start_head c _ (nonspace_not_space c Hc)).
    apply (trim_end_keep (c :: P ++ exported (L :: Ls))).
    apply ends_with_token_cons, ends_with_token_app.
    cbn [exported]. apply ends_with_token_cons.
    apply exported_ends_with_token. exact H. }
  rewrite E4. unfold regex_replace. cbn [exported].
  rewrite replace_newline_line by exact Hline.
  change (LF :: line_text L [] ++ exported Ls)
    with ([LF] ++ (line_text L [] ++ exported Ls)).
  rewrite (replace_all_hit re_any_newline (br ++ [LF]) [LF] _ _ _
             [(0%nat, [LF])]);
    [|discriminate|apply re_any_newline_hit].
  rewrite replace_newline_exported; [|exact H|].
  - rewrite <- !app_assoc. reflexivity.
  - rewrite ?length_app. cbn [List.length]. rewrite ?length_app. lia.
Qed.



Lemma offset_tag_nonspace (name : string) (ds : str) :
  name = "[offset:"%string \/ name = "[OFFSET:"%string ->
  forallb is_digit ds = true ->
  offset_tag name ds <> [] /\ forallb is_nonspace (offset_tag name ds) = true.
Proof.
  intros Hname Hd. unfold offset_tag. split.
  - destruct Hname as [-> | ->]; discriminate.
  - rewrite !forallb_app, (forallb_impl _ _ _ digit_is_nonspace Hd).
    destruct Hname as [-> | ->]; reflexivity.
Qed.



(** ** The value of the offset *)



(** ** The words, with an offset *)





(** ** Multiples of 1/8 *)

Lemma eighth_multiple (q : Q) :
  eighth q = true ->
  exists m : Z, 8 * Qnum q = m * Z.pos (Qden q).
Proof.
  unfold eighth. intros H. apply Z.eqb_eq in H.
  exists (8 * Qnum q / Z.pos (Qden q)).
  rewrite (Z.mul_comm (_ / _)). apply Z.div_exact; [lia|exact H].
Qed.

Lemma eighth_thousandths (q : Q) (m : Z) :
  8 * Qnum q = m * Z.pos (Qden q) ->
  Qfloor (q * 1000) = 125 * m.
Proof.
  intros Hm. destruct q as [n d]. cbn [Qnum Qden] in Hm.
  unfold Qmult, Qfloor. cbn [Qnum Qden].
  rewrite Pos.mul_1_r.
  replace (n * 1000) with (125 * m * Z.pos d) by lia.
  apply Z.div_mul. lia.
Qed.


Lemma eighth_millis (q : Q) :
  eighth q = true -> exists k, 0 <= k < 8 /\ millis q = 125 * k.
Proof.
  intros H. destruct (eighth_multiple q H) as [m Hm].
  unfold millis. rewrite (eighth_thousandths q m Hm).
  exists (m mod 8). split; [apply Z.mod_pos_bound; lia|].
  change 1000 with (125 * 8). rewrite Z.mul_mod_distr_l by lia. reflexivity.
Qed.






(** ** Such values are values of binary64 *)

Lemma eighth_small_binary64 (q : Q) :
  eighth q = true -> (Qabs q < inject_Z (10 ^ 15))%Q -> binary64 q.
Proof.
  intros H Hq. destruct (eighth_multiple q H) as [m Hm].
  exists m, (-3). split; [|split; [lia|]].
  - destruct q as [n d]. cbn [Qnum Qden] in Hm.
    unfold Qabs, Qlt, inject_Z in Hq. cbn [Qnum Qden] in Hq.
    rewrite Z.mul_1_r in Hq.
    assert (Hd : 0 < Z.pos d) by lia.
    assert (Hn : 8 * Z.abs n < 8 * 10 ^ 15 * Z.pos d) by lia.
    assert (Hmd : Z.abs m * Z.pos d = 8 * Z.abs n).
    { rewrite <- (Z.abs_eq (Z.pos d)) at 1 by lia.
      rewrite <- Z.abs_mul, <- Hm, Z.abs_mul. reflexivity. }
    assert (Hlt : Z.abs m < 8 * 10 ^ 15) by nia.
    change (2 ^ 53) with 9007199254740992.
    change (10 ^ 15) with 1000000000000000 in Hlt. lia.
  - change (Qpower 2 (-3)) with (1 # 8)%Q.
    destruct q as [n d]. cbn [Qnum Qden] in Hm.
    unfold Qeq, Qmult, inject_Z. cbn [Qnum Qden]. lia.
Qed.

Lemma exact_value_binary64 (q : Q) : exact_value q = true -> binary64 q.
Proof.
  unfold exact_value. rewrite andb_true_iff, negb_true_iff.
  intros [He Hb]. apply eighth_small_binary64; [exact He|].
  destruct (Qlt_le_dec (Qabs q) (inject_Z (10 ^ 14))) as [Hlt|Hge].
  - eapply Qlt_trans; [exact Hlt|]. rewrite <- Zlt_Qlt. reflexivity.
  - apply Qle_bool_iff in Hge. congruence.
Qed.

Lemma eighth_plus (a b : Q) :
  eighth a = true -> eighth b = true -> eighth (a + b) = true.
Proof.
  intros Ha Hb.
  destruct (eighth_multiple a Ha) as [m Hm].
  destruct (eighth_multiple b Hb) as [k Hk].
  unfold eighth. apply Z.eqb_eq.
  destruct a as [na da], b as [nb db]. cbn [Qnum Qden] in *.
  unfold Qplus. cbn [Qnum Qden]. rewrite Pos2Z.inj_mul.
  replace (8 * (na * Z.pos db + nb * Z.pos da))
    with ((m + k) * (Z.pos da * Z.pos db)) by nia.
  apply Z.mod_mul. lia.
Qed.

Lemma eighth_opp (a : Q) : eighth a = true -> eighth (- a) = true.
Proof.
  intros Ha. destruct (eighth_multiple a Ha) as [m Hm].
  unfold eighth. apply Z.eqb_eq.
  destruct a as [n d]. cbn [Qnum Qden Qopp] in *.
  replace (8 * - n) with (- m * Z.pos d) by lia.
  apply Z.mod_mul. lia.
Qed.


(** The sum and the difference of two such values are values of binary64,
    and so is what [toTimer] computes on the way to the milliseconds. *)
Lemma exact_value_sum (a b : Q) :
  exact_value a = true -> exact_value b = true ->
  binary64 (a + b) /\ binary64 (a - b).
Proof.
  unfold exact_value. rewrite !andb_true_iff, !negb_true_iff.
  intros [Ha Hla] [Hb Hlb].
  assert (Ba : (Qabs a < inject_Z (10 ^ 14))%Q).
  { destruct (Qlt_le_dec (Qabs a) (inject_Z (10 ^ 14))) as [H|H]; [exact H|].
    apply Qle_bool_iff in H. congruence. }
  assert (Bb : (Qabs b < inject_Z (10 ^ 14))%Q).
  { destruct (Qlt_le_dec (Qabs b) (inject_Z (10 ^ 14))) as [H|H]; [exact H|].
    apply Qle_bool_iff in H. congruence. }
  assert (Hsum : (inject_Z (10 ^ 14) + inject_Z (10 ^ 14)
                  < inject_Z (10 ^ 15))%Q).
  { rewrite <- inject_Z_plus, <- Zlt_Qlt. reflexivity. }
  split; apply eighth_small_binary64.
  - apply eighth_plus; assumption.
  - eapply Qle_lt_trans; [apply Qabs_triangle|].
    eapply Qlt_trans; [|exact Hsum].
    apply Qplus_lt_le_compat; [exact Ba|apply Qlt_le_weak; exact Bb].
  - apply eighth_plus; [assumption|apply eighth_opp; assumption].
  - unfold Qminus. eapply Qle_lt_trans; [apply Qabs_triangle|].
    rewrite Qabs_opp.
    eapply Qlt_trans; [|exact Hsum].
    apply Qplus_lt_le_compat; [exact Ba|apply Qlt_le_weak; exact Bb].
Qed.

Lemma eighth_fraction (q : Q) :
  eighth q = true ->
  ((q - inject_Z (Qfloor q)) * 1000 == inject_Z (millis q))%Q
  /\ binary64 ((q - inject_Z (Qfloor q)) * 1000).
Proof.
  intros H. destruct (eighth_multiple q H) as [m Hm].
  assert (E : ((q - inject_Z (Qfloor q)) * 1000 == inject_Z (millis q))%Q).
  { unfold millis. rewrite Z.mod_eq by lia.
    rewrite Qfloor_times_1000, (eighth_thousandths q m Hm).
    assert (Eq : (q * 1000 == inject_Z (125 * m))%Q).
    { destruct q as [n d]. cbn [Qnum Qden] in Hm.
      unfold Qeq, Qmult, inject_Z. cbn [Qnum Qden]. lia. }
    unfold Z.sub. rewrite inject_Z_plus, inject_Z_opp, <- Eq.
    rewrite (inject_Z_mult 1000). change (inject_Z 1000) with 1000%Q. ring. }
  split; [exact E|].
  destruct (eighth_millis q H) as (k & Hk & Hmil).
  exists (millis q), 0. split; [|split; [lia|]].
  - rewrite Hmil. change (2 ^ 53) with 9007199254740992. lia.
  - rewrite E. change (Qpower 2 0) with 1%Q. ring.
Qed.

(** ** getApproximateTime on an index that is not integral *)

Lemma fractional_comp (q r : Q) : q == r -> fractional q = fractional r.
Proof.
  intros H. unfold fractional. f_equal.
  rewrite (Qfloor_comp q r H).
  destruct (Qeq_bool r (inject_Z (Qfloor r))) eqn:E.
  - apply Qeq_bool_iff. rewrite H. apply Qeq_bool_iff. exact E.
  - destruct (Qeq_bool q (inject_Z (Qfloor r))) eqn:E'; [|reflexivity].
    apply Qeq_bool_iff in E'. rewrite H in E'. apply Qeq_bool_iff in E'.
    congruence.
Qed.

Lemma fractional_minus_Z (q : Q) (k : Z) :
  fractional q = true -> fractional (q - inject_Z k) = true.
Proof.
  unfold fractional. rewrite !negb_true_iff. intros H.
  destruct (Qeq_bool (q - inject_Z k) (inject_Z (Qfloor (q - inject_Z k))))
    eqn:E; [|reflexivity].
  apply Qeq_bool_iff in E. rewrite Qfloor_minus_Z in E.
  unfold Z.sub in E. rewrite inject_Z_plus, inject_Z_opp in E.
  assert (Hq : q == inject_Z (Qfloor q)) by lra.
  apply Qeq_bool_iff in Hq. congruence.
Qed.

Lemma at_number_fractional (ws : list word) (i : number) (q : Q) :
  approx i q -> fractional q = true -> at_number ws i = None.
Proof.
  intros (q' & -> & Hq) H. rewrite <- (fractional_comp q' q Hq) in H.
  unfold fractional in H. apply negb_true_iff in H.
  cbn [at_number]. rewrite H. reflexivity.
Qed.

Lemma ge_zero_approx (i : number) (q : Q) :
  approx i q -> Num.ge i (Fin 0) = Qle_bool 0 q.
Proof.
  intros (q' & -> & Hq). unfold Num.ge. cbn [Num.le].
  apply Qle_bool_comp; [reflexivity|exact Hq].
Qed.

Lemma lt_length_approx (i : number) (q : Q) (len : Z) :
  approx i q -> Num.lt i (ofZ len) = negb (Qle_bool (inject_Z len) q).
Proof.
  intros (q' & -> & Hq). cbn [Num.lt ofZ]. f_equal.
  apply Qle_bool_comp; [reflexivity|exact Hq].
Qed.

Lemma approx_before (q : Q) : approx (Num.sub (Fin q) (Fin 1)) (q - inject_Z 1).
Proof. apply approx_sub; apply approx_Fin. Qed.

Lemma approx_after (q : Q) : approx (Num.add (Fin q) (Fin 1)) (q - inject_Z (-1)).
Proof.
  eapply approx_eq; [apply approx_add; apply approx_Fin|].
  change (inject_Z (-1)) with (-1)%Q. ring.
Qed.

Lemma getApproximateTime_fraction_outside (l : Lyrics) (q : Q) :
  fractional q = true ->
  (1 <= Qabs q)%Q ->
  getApproximateTime (ANumber (Fin q)) l = Throw TypeError.
Proof.
  intros Hf Habs. cbn [getApproximateTime search_earlier].
  rewrite (ge_zero_approx _ _ (approx_before q)).
  change (inject_Z 1) with 1%Q.
  destruct (Qlt_le_dec q 0) as [Hneg|Hpos].
  - rewrite (Qabs_neg q) in Habs by (apply Qlt_le_weak; exact Hneg).
    assert (E : Qle_bool 0 (q - 1) = false).
    { destruct (Qle_bool 0 (q - 1)) eqn:E; [|reflexivity].
      apply Qle_bool_iff in E. lra. }
    rewrite E. cbn [bind search_later].
    rewrite (lt_length_approx _ _ _ (approx_after q)).
    assert (E' : Qle_bool (inject_Z (Z.of_nat (List.length (words l))))
                          (q - inject_Z (-1)) = false).
    { destruct (Qle_bool _ (q - inject_Z (-1))) eqn:E'; [|reflexivity].
      apply Qle_bool_iff in E'. change (inject_Z (-1)) with (-1)%Q in E'.
      assert (H0 : (inject_Z 0 <= inject_Z (Z.of_nat (List.length (words l))))%Q)
        by (rewrite <- Zle_Qle; lia).
      change (inject_Z 0) with 0%Q in H0.
      assert (Hq : q == inject_Z (-1)) by (change (inject_Z (-1)) with (-1)%Q; lra).
      rewrite (fractional_comp q _ Hq) in Hf. discriminate Hf. }
    rewrite E'. cbn [negb].
    rewrite (at_number_fractional _ _ _ (approx_after q)
               (fractional_minus_Z q (-1) Hf)).
    reflexivity.
  - rewrite (Qabs_pos q Hpos) in Habs.
    assert (E : Qle_bool 0 (q - 1) = true) by (apply Qle_bool_iff; lra).
    rewrite E.
    rewrite (at_number_fractional _ _ _ (approx_before q)
               (fractional_minus_Z q 1 Hf)).
    reflexivity.
Qed.

Lemma getApproximateTime_fraction_inside (l : Lyrics) (q : Q) :
  fractional q = true ->
  (Qabs q < 1)%Q ->
  ((q + 1 < inject_Z (length_of l))%Q ->
   getApproximateTime (ANumber (Fin q)) l = Throw TypeError)
  /\ ((inject_Z (length_of l) <= q + 1)%Q ->
      exists r, getApproximateTime (ANumber (Fin q)) l = Ok r).
Proof.
  intros Hf Habs. apply Qabs_Qlt_condition in Habs as [Hlo Hhi].
  unfold length_of. cbn [getApproximateTime search_earlier].
  rewrite (ge_zero_approx _ _ (approx_before q)).
  change (inject_Z 1) with 1%Q.
  assert (E : Qle_bool 0 (q - 1) = false).
  { destruct (Qle_bool 0 (q - 1)) eqn:E; [|reflexivity].
    apply Qle_bool_iff in E. lra. }
  rewrite E. cbn [bind search_later].
  rewrite (lt_length_approx _ _ _ (approx_after q)).
  change (inject_Z (-1)) with (-1)%Q.
  split; intros Hlen.
  - assert (E' : Qle_bool (inject_Z (Z.of_nat (List.length (words l))))
                          (q - -1) = false).
    { destruct (Qle_bool _ (q - -1)) eqn:E'; [|reflexivity].
      apply Qle_bool_iff in E'. lra. }
    rewrite E'. cbn [negb].
    rewrite (at_number_fractional _ _ _ (approx_after q)
               (fractional_minus_Z q (-1) Hf)).
    reflexivity.
  - assert (E' : Qle_bool (inject_Z (Z.of_nat (List.length (words l))))
                          (q - -1) = true) by (apply Qle_bool_iff; lra).
    rewrite E'. cbn [negb bind]. eauto.
Qed.


(** * The claims *)

(** C1, as stated, fails: on two untimed words, timing the second at 0 and
    then the first at 5 leaves [5, 0], both explicit and out of order,
    because the forward pass tests the truthiness of each later time. *)
Lemma zero_time_survives_the_forward_pass :
  run_calls [(1, VNum (Fin 0)); (0, VNum (Fin 5))] two_untimed
  = Ok (mkLyrics [at_time "la" 5; at_time "la" 0] (VNum (Fin 10)),
        [timeChanged 1 (VNum (Fin 0)); timeChanged 0 (VNum (Fin 5))])
  /\ ~ monotone is_explicit [at_time "la" 5; at_time "la" 0].
Proof.
  split; [reflexivity|].
  intros H.
  specialize (H 0 1 (at_time "la" 5) (at_time "la" 0)).
  assert (Hle : value_le (VNum (Fin 5)) (VNum (Fin 0)) = true).
  { apply H; try reflexivity. lia. }
  discriminate Hle.
Qed.

(** C1 (amended): on a timeline that satisfies the invariant for the times
    the code counts as set (those that convert to true: neither null, 0
    nor NaN), every sequence of setTimeOfWord calls at valid indices runs
    to completion, and after each call any two words i < j with such times
    have time(i) <= time(j). *)
Theorem setTimeOfWord_keeps_timed_words_ordered (l : Lyrics)
    (calls : list (Z * value)) (n : nat) :
  is_monotone is_truthy (words l) = true ->
  forallb (valid_call l) calls = true ->
  exists l' log,
    run_calls (firstn n calls) l = Ok (l', log)
    /\ monotone is_truthy (words l').
Proof.
  intros Hmono Hvalid.
  destruct (run_calls_keeps_monotone (firstn n calls) l)
    as (l' & log & Hrun & _ & Hm).
  - apply is_monotone_monotone. exact Hmono.
  - apply forallb_firstn. exact Hvalid.
  - eauto.
Qed.

Lemma setTimeOfWord_keeps_timed_words_ordered_witness :
  exists l' log,
    run_calls (firstn 2 [(1, VNum (Fin 5)); (0, VNum (Fin 7))]) three_untimed
    = Ok (l', log)
    /\ monotone is_truthy (words l').
Proof.
  apply (setTimeOfWord_keeps_timed_words_ordered
           three_untimed [(1, VNum (Fin 5)); (0, VNum (Fin 7))] 2);
    reflexivity.
Defined.

(** C8: for every index outside [0, length), setTimeOfWord fails: reading
    [this[index].time] raises a TypeError before anything is changed. *)
Theorem setTimeOfWord_index_out_of_range (index : Z) (t : value) (l : Lyrics) :
  index < 0 \/ length_of l <= index ->
  setTimeOfWord index t l = Throw TypeError.
Proof.
  intros H. unfold setTimeOfWord.
  rewrite at_index_out_of_range by exact H. reflexivity.
Qed.

Lemma setTimeOfWord_index_out_of_range_witness :
  setTimeOfWord 2 (VNum (Fin 1)) two_untimed = Throw TypeError.
Proof.
  apply setTimeOfWord_index_out_of_range. right. vm_compute. discriminate.
Defined.




(** C7, as stated, fails: the indices -1 and length are not valid, yet
    getApproximateTime returns a number for them; the assertion only
    rejects an index that is not a Number. *)
Lemma getApproximateTime_accepts_neighbours_of_the_range :
  getApproximateTime (ANumber (ofZ (-1))) two_untimed = Ok (Fin (-10))
  /\ getApproximateTime (ANumber (ofZ 2)) two_untimed = Ok (Fin 20).
Proof. split; reflexivity. Qed.

(** C7 (amended): getApproximateTime(index) does not fail for any valid
    integer index, nor for index -1, index = length or NaN.  For every
    other integer, for +Infinity and -Infinity and for every non-integer
    index of magnitude 1 or more it fails with the TypeError of reading a
    missing word.  For a non-integer index between -1 and 1 it fails, in
    the same way, when index + 1 is below the length and returns
    otherwise; the failure is stated for an index at least 2^-52 away
    from 0 and from 1 in magnitude, since a closer one rounds to an
    integer when 1 is added to it in binary64.  The assertion "index must
    be a Number" fails for a string, and for null and undefined the read
    of index.constructor is a TypeError. *)
Theorem getApproximateTime_failures (l : Lyrics) :
  (forall z, -1 <= z <= length_of l ->
             exists r, getApproximateTime (ANumber (ofZ z)) l = Ok r)
  /\ (forall z, z < -1 \/ length_of l < z ->
                getApproximateTime (ANumber (ofZ z)) l = Throw TypeError)
  /\ (forall q, fractional q = true ->
                (1 <= Qabs q)%Q ->
                getApproximateTime (ANumber (Fin q)) l = Throw TypeError)
  /\ (forall q, fractional q = true ->
                (1 # 4503599627370496 <= Qabs q)%Q ->
                (Qabs q <= 1 - (1 # 4503599627370496))%Q ->
                (q + 1 < inject_Z (length_of l))%Q ->
                getApproximateTime (ANumber (Fin q)) l = Throw TypeError)
  /\ (forall q, fractional q = true ->
                (Qabs q < 1)%Q ->
                (inject_Z (length_of l) <= q + 1)%Q ->
                exists r, getApproximateTime (ANumber (Fin q)) l = Ok r)
  /\ getApproximateTime (ANumber NaN) l = Ok NaN
  /\ getApproximateTime (ANumber PInf) l = Throw TypeError
  /\ getApproximateTime (ANumber NInf) l = Throw TypeError
  /\ (forall s, getApproximateTime (AString s) l
                = Throw (AssertionError "index must be a Number"))
  /\ getApproximateTime AUndefined l = Throw TypeError
  /\ getApproximateTime ANull l = Throw TypeError.
Proof.
  repeat split.
  - intros z Hz. apply getApproximateTime_returns. exact Hz.
  - intros z Hz. apply getApproximateTime_throws. exact Hz.
  - intros q Hf Hq. apply getApproximateTime_fraction_outside; assumption.
  - intros q Hf _ Hq Hlen.
    apply (proj1 (getApproximateTime_fraction_inside l q Hf
                    ltac:(eapply Qle_lt_trans; [exact Hq|reflexivity]))).
    exact Hlen.
  - intros q Hf Hq Hlen.
    apply (proj2 (getApproximateTime_fraction_inside l q Hf Hq)). exact Hlen.
Qed.

Lemma getApproximateTime_failures_witness :
  (exists r, getApproximateTime (ANumber (ofZ 1)) three_timed = Ok r)
  /\ getApproximateTime (ANumber (ofZ 5)) three_timed = Throw TypeError
  /\ getApproximateTime (ANumber (Fin (5 # 2))) three_timed = Throw TypeError
  /\ getApproximateTime (ANumber (Fin (1 # 2))) three_timed = Throw TypeError
  /\ (exists r, getApproximateTime (ANumber (Fin (1 # 2)))
                  (mkLyrics [untimed "la"] (VNum (Fin 10))) = Ok r).
Proof.
  split; [|split; [|split; [|split]]].
  - apply (proj1 (getApproximateTime_failures three_timed) 1).
    vm_compute. split; discriminate.
  - apply (proj1 (proj2 (getApproximateTime_failures three_timed)) 5).
    right. reflexivity.
  - apply (proj1 (proj2 (proj2 (getApproximateTime_failures three_timed)))
             (5 # 2)); [reflexivity|vm_compute; discriminate].
  - apply (proj1 (proj2 (proj2 (proj2
             (getApproximateTime_failures three_timed)))) (1 # 2));
      [reflexivity|vm_compute; discriminate|vm_compute; discriminate
      |vm_compute; reflexivity].
  - apply (proj1 (proj2 (proj2 (proj2 (proj2
             (getApproximateTime_failures
                (mkLyrics [untimed "la"] (VNum (Fin 10)))))))) (1 # 2));
      [reflexivity|vm_compute; reflexivity|vm_compute; discriminate].
Defined.

(** C9: a time of 0 is handled as no time.  The repair passes of
    setTimeOfWord leave a word at 0 as it is, whatever time is being set;
    getIndexForTime, getApproximateTime and toELRC give the same result
    when every 0 is replaced by null. *)
Theorem zero_time_counts_as_untimed :
  (forall index t l l' log j w,
      setTimeOfWord index t l = Ok (l', log) ->
      j <> index ->
      at_index (words l) j = Some w ->
      is_zero_time (time w) = true ->
      at_index (words l') j = Some w)
  /\ (forall timestamp l,
         getIndexForTime timestamp (forget_zero l) = getIndexForTime timestamp l)
  /\ (forall index l,
         getApproximateTime index (forget_zero l) = getApproximateTime index l)
  /\ (forall l, toELRC (forget_zero l) = toELRC l).
Proof.
  split; [|split; [|split]].
  - intros index t l l' log j w. apply setTimeOfWord_spares_zero.
  - intros timestamp l. unfold getIndexForTime, forget_zero, length_of.
    cbn [duration words]. rewrite getIndexForTime_loop_forget_zero, length_map.
    reflexivity.
  - intros index l. unfold getApproximateTime, forget_zero.
    cbn [duration words]. destruct index; try reflexivity.
    rewrite length_map, search_earlier_forget_zero, search_later_forget_zero.
    reflexivity.
  - intros l. unfold toELRC, forget_zero. cbn [words].
    apply toELRC_loop_forget_zero.
Qed.

Lemma zero_time_counts_as_untimed_witness :
  at_index
    (words (mkLyrics [at_time "la" 5; at_time "la" 0] (VNum (Fin 10)))) 1
  = Some (at_time "la" 0).
Proof.
  apply (proj1 zero_time_counts_as_untimed 0 (VNum (Fin 5)) zero_second
               (mkLyrics [at_time "la" 5; at_time "la" 0] (VNum (Fin 10)))
               [timeChanged 0 (VNum (Fin 5))] 1 (at_time "la" 0));
    try reflexivity.
  discriminate.
Defined.

(** C10: getIndexForTime can return an index outside [0, length).  On two
    untimed words with duration 10, the timestamp 30 lies beyond the
    duration and the extrapolated index 3 is returned as it is. *)
Theorem getIndexForTime_is_not_clamped :
  exists (l : Lyrics) (timestamp : number) (index : Z),
    l = two_untimed
    /\ words l <> []
    /\ is_truthy (duration l) = true
    /\ option_map time (at_index (words l) (length_of l - 1)) = Some VNull
    /\ Num.lt (to_number (duration l)) timestamp = true
    /\ timestamp = Num.mul (Fin 3) (to_number (duration l))
    /\ getIndexForTime timestamp l = Ok (VNum (ofZ index))
    /\ index = 3
    /\ length_of l - 1 < index.
Proof.
  exists two_untimed, (Fin 30), 3.
  repeat split; try reflexivity; try discriminate.
Qed.

(** C2: in a file without inline tags the word at position k of a line is
    given the time of the k-th timed line of the file, not the time of its
    own line.  Here the two words of the first line come out at 1 and 2,
    and so do the two words of the second line. *)
Theorem fromLRC_plain_word_timed_by_its_position :
  fromLRC (lit "[00:01.00]a b" ++ [LF] ++ lit "[00:02.00]c d") (VNum (Fin 10))
  = Ok (mkLyrics [at_time "a" 1; at_time "b<br>" 2;
                  at_time "c" 1; at_time "d" 2] (VNum (Fin 10))).
Proof. vm_compute. reflexivity. Qed.

(** C4: on the line of the scenario the first word is read twice, once as
    the first blank-delimited token of the line and once as the word of
    the first inline tag, so three words come back; the closing tag adds
    a time and no word. *)
Theorem fromLRC_leading_inline_tag_repeats_the_word :
  fromLRC (lit "[00:01.00]<00:01.00> a <00:02.00> b <00:03.00>" ++ [LF])
          (VNum (Fin 10))
  = Ok (mkLyrics [at_time "a" 1; at_time "a" 1; at_time "b" 2]
                 (VNum (Fin 10))).
Proof. vm_compute. reflexivity. Qed.


(** The milliseconds field of ten: the test [ms > 10] sends it to the
    two-zero padding. *)
Example toTimer_ten_milliseconds :
  toTimer (VNum (Fin (1 # 100))) false = lit "00:00.0010".
Proof. vm_compute. reflexivity. Qed.




(** A timeline without a second word in any line is exported without an
    inline tag and read back by the other branch of [processLyrics],
    where the word looks up its time by its position in the line. *)
Example fromLRC_toELRC_single_word :
  fromLRC (lit "[00:01.00]a") (VNum (Fin 10))
  = Ok (mkLyrics [at_time "a" 1] (VNum (Fin 10)))
  /\ fromLRC (toELRC (mkLyrics [at_time "a" 1] (VNum (Fin 10))))
             (VNum (Fin 10))
     = Ok (mkLyrics [mkWord (lit "a") (VNum NaN)] (VNum (Fin 10))).
Proof. split; vm_compute; reflexivity. Qed.



(** * Further properties *)

(** X1: a successful call of setTimeOfWord(index, t) leaves the duration
    and every text as they were, gives the word at index the time t, and
    leaves every other word alone unless t is a Number and the word is
    timed (its time converts to true) at or before t when it comes later,
    at or after t when it comes earlier; such a word is set to null. *)
Theorem setTimeOfWord_effect (index : Z) (t : value) (l l' : Lyrics)
    (log : list event) :
  setTimeOfWord index t l = Ok (l', log) ->
  duration l' = duration l
  /\ List.map text (words l') = List.map text (words l)
  /\ forall j w,
       at_index (words l) j = Some w ->
       at_index (words l') j
       = Some (if j =? index then mkWord (text w) t
               else if negb (is_nullish t) && is_truthy (time w)
                       && (if index <? j then value_le (time w) t
                           else value_ge (time w) t)
                    then mkWord (text w) VNull
                    else w).
Proof.
  intros H. destruct (setTimeOfWord_at index t l l' log H) as (Hd & Hlen & Hat).
  split; [exact Hd|]. split.
  - apply nth_error_ext. intros n.
    rewrite <- (Nat2Z.id n), !at_index_map_text by lia.
    rewrite Hat. destruct (at_index (words l) (Z.of_nat n)) as [w|];
      [|reflexivity].
    cbn [option_map]. f_equal.
    destruct (Z.of_nat n =? index); [reflexivity|].
    destruct (negb (is_nullish t) && is_truthy (time w)
              && (if index <? Z.of_nat n then value_le (time w) t
                  else value_ge (time w) t)); reflexivity.
  - intros j w Hw. rewrite Hat, Hw. reflexivity.
Qed.

Lemma setTimeOfWord_effect_witness :
  duration three_timed = duration three_timed
  /\ List.map text [at_time "do" 1; at_time "re" 5; untimed "mi"]
     = List.map text (words three_timed)
  /\ forall j w,
       at_index (words three_timed) j = Some w ->
       at_index [at_time "do" 1; at_time "re" 5; untimed "mi"] j
       = Some (if j =? 1 then mkWord (text w) (VNum (Fin 5))
               else if negb (is_nullish (VNum (Fin 5))) && is_truthy (time w)
                       && (if 1 <? j then value_le (time w) (VNum (Fin 5))
                           else value_ge (time w) (VNum (Fin 5)))
                    then mkWord (text w) VNull
                    else w).
Proof.
  apply (setTimeOfWord_effect 1 (VNum (Fin 5)) three_timed
           (mkLyrics [at_time "do" 1; at_time "re" 5; untimed "mi"]
                     (VNum (Fin 10)))
           [timeChanged 1 (VNum (Fin 5)); timeChanged 2 VNull]).
  reflexivity.
Defined.

(** X2: the log of a successful call names every change and nothing else.
    An event for position j is emitted exactly when, at index, the old
    time differs from t (by the loose comparison of the code) and, at any
    other position, the time is no longer what it was; the event carries
    the time the word has after the call, and no position is named
    twice. *)
Theorem setTimeOfWord_events (index : Z) (t : value) (l l' : Lyrics)
    (log : list event) :
  setTimeOfWord index t l = Ok (l', log) ->
  NoDup (List.map event_index log)
  /\ forall j v,
       In (timeChanged j v) log
       <-> exists w w',
             at_index (words l) j = Some w
             /\ at_index (words l') j = Some w'
             /\ v = time w'
             /\ (if j =? index then loose_neq (time w) t = true
                 else time w' <> time w).
Proof.
  intros H. destruct (setTimeOfWord_at index t l l' log H) as (_ & _ & Hat).
  destruct (at_index (words l) index) as [w|] eqn:Hw;
    [|unfold setTimeOfWord in H; rewrite Hw in H; discriminate].
  pose proof (at_index_Some_range _ _ _ Hw) as Hi.
  assert (Hfirst : forall j v,
             In (timeChanged j v)
                (if loose_neq (time w) t then [timeChanged index t] else [])
             <-> j = index /\ v = t /\ loose_neq (time w) t = true).
  { intros j v. destruct (loose_neq (time w) t); cbn [In].
    - split.
      + intros [E|[]]. injection E as <- <-. auto.
      + intros (-> & -> & _). left. reflexivity.
    - split; [intros []|intros (_ & _ & E); discriminate E]. }
  destruct (is_nullish t) eqn:Ht.
  - rewrite (setTimeOfWord_clear index t l w Hw Ht) in H.
    injection H as <- <-. split.
    + destruct (loose_neq (time w) t); cbn; repeat constructor. intros [].
    + intros j v. rewrite Hfirst. split.
      * intros (-> & -> & E). exists w, (mkWord (text w) t).
        cbn [words]. rewrite at_index_set_time, Z.eqb_refl, Hw.
        cbn [option_map time]. auto.
      * intros (wj & wj' & Hj & Hj' & -> & Hc).
        cbn [words] in Hj'. rewrite at_index_set_time, Hj in Hj'.
        destruct (Z.eqb_spec j index) as [->|Hne].
        -- cbn [option_map] in Hj'. injection Hj' as <-.
           assert (wj = w) by congruence. subst wj. auto.
        -- injection Hj' as <-. contradiction.
  - destruct (setTimeOfWord_log index t l w Hw Ht) as (l2 & Hlog).
    rewrite Hlog in H. injection H as -> <-.
    set (first := if loose_neq (time w) t then [timeChanged index t] else [])
      in *.
    set (fwd := cleared_events value_le t (words l)
                  (upfrom (index + 1)
                          (Z.to_nat (length_of l - (index + 1))))).
    set (bwd := cleared_events value_ge t (words l)
                  (downfrom (index - 1) (Z.to_nat index))).
    split.
    + rewrite !map_app. apply NoDup_app; [|apply NoDup_app|].
      * subst first. destruct (loose_neq (time w) t); cbn;
          repeat constructor. intros [].
      * apply NoDup_cleared_events, NoDup_upfrom.
      * apply NoDup_cleared_events, NoDup_downfrom.
      * intros j Hf Hb. apply event_index_cleared in Hf, Hb.
        apply In_upfrom in Hf. apply In_downfrom in Hb. lia.
      * intros j Hf Hb.
        assert (j = index).
        { subst first. destruct (loose_neq (time w) t); cbn in Hf;
            [|destruct Hf]. destruct Hf as [<-|[]]. reflexivity. }
        subst j. apply in_app_or in Hb as [Hb|Hb];
          apply event_index_cleared in Hb;
          [apply In_upfrom in Hb|apply In_downfrom in Hb]; lia.
    + intros j v. rewrite !in_app_iff. subst first. rewrite Hfirst.
      subst fwd bwd. rewrite !In_cleared_events, In_upfrom, In_downfrom.
      split.
      * intros [(-> & -> & E)|[(-> & Hj & wj & Hwj & H1 & H2)
                              |(-> & Hj & wj & Hwj & H1 & H2)]].
        -- exists w, (mkWord (text w) t).
           rewrite Hat, Hw, Z.eqb_refl. cbn [option_map time]. auto.
        -- exists wj, (mkWord (text wj) VNull). rewrite Hat, Hwj.
           cbn [option_map negb andb].
           destruct (Z.eqb_spec j index) as [->|Hne]; [lia|].
           destruct (Z.ltb_spec index j); [|lia].
           unfold timed in H1. rewrite H1, H2. cbn [negb andb time].
           repeat split; auto. intros E. symmetry in E.
           revert E. apply truthy_not_null. exact H1.
        -- exists wj, (mkWord (text wj) VNull). rewrite Hat, Hwj.
           cbn [option_map negb andb].
           destruct (Z.eqb_spec j index) as [->|Hne]; [lia|].
           destruct (Z.ltb_spec index j); [lia|].
           unfold timed in H1. rewrite H1, H2. cbn [negb andb time].
           repeat split; auto. intros E. symmetry in E.
           revert E. apply truthy_not_null. exact H1.
      * intros (wj & wj' & Hj & Hj' & -> & Hc).
        pose proof (at_index_Some_range _ _ _ Hj) as Hrange.
        rewrite Hat, Hj in Hj'. cbn [option_map negb andb] in Hj'.
        destruct (Z.eqb_spec j index) as [->|Hne].
        -- injection Hj' as <-. left.
           assert (wj = w) by congruence. subst wj. auto.
        -- right.
           destruct (is_truthy (time wj)
                     && (if index <? j then value_le (time wj) t
                         else value_ge (time wj) t)) eqn:Ec;
             injection Hj' as <-; [|contradiction].
           apply andb_true_iff in Ec as [E1 E2].
           destruct (Z.ltb_spec index j); [left|right];
             (split; [reflexivity|]); (split; [unfold length_of; lia|]);
             exists wj; auto.
Qed.

Lemma setTimeOfWord_events_witness :
  NoDup (List.map event_index
                  [timeChanged 1 (VNum (Fin 5)); timeChanged 2 VNull])
  /\ forall j v,
       In (timeChanged j v) [timeChanged 1 (VNum (Fin 5)); timeChanged 2 VNull]
       <-> exists w w',
             at_index (words three_timed) j = Some w
             /\ at_index [at_time "do" 1; at_time "re" 5; untimed "mi"] j
                = Some w'
             /\ v = time w'
             /\ (if j =? 1 then loose_neq (time w) (VNum (Fin 5)) = true
                 else time w' <> time w).
Proof.
  apply (setTimeOfWord_events 1 (VNum (Fin 5)) three_timed
           (mkLyrics [at_time "do" 1; at_time "re" 5; untimed "mi"]
                     (VNum (Fin 10)))
           [timeChanged 1 (VNum (Fin 5)); timeChanged 2 VNull]).
  reflexivity.
Defined.

(** X3: setTimeOfWord is idempotent.  Repeating a successful call with
    the same index and the same time, other than NaN, changes nothing and
    emits no event. *)
Theorem setTimeOfWord_twice (index : Z) (t : value) (l l' : Lyrics)
    (log : list event) :
  setTimeOfWord index t l = Ok (l', log) ->
  t <> VNum NaN ->
  setTimeOfWord index t l' = Ok (l', []).
Proof.
  intros H Hnan.
  destruct (setTimeOfWord_at index t l l' log H) as (_ & _ & Hat).
  destruct (at_index (words l) index) as [w|] eqn:Hw;
    [|unfold setTimeOfWord in H; rewrite Hw in H; discriminate].
  pose proof (at_index_Some_range _ _ _ Hw) as Hi.
  assert (Hw' : at_index (words l') index = Some (mkWord (text w) t)).
  { rewrite Hat, Hw, Z.eqb_refl. reflexivity. }
  destruct (is_nullish t) eqn:Ht.
  - rewrite (setTimeOfWord_clear index t l' _ Hw' Ht). cbn [time].
    rewrite (loose_neq_refl t Hnan). f_equal. f_equal.
    destruct l' as [ws' d']. cbn [words duration] in *. f_equal.
    apply at_index_ext. intros j. rewrite at_index_set_time.
    destruct (Z.eqb_spec j index) as [->|]; [|reflexivity].
    rewrite Hw'. reflexivity.
  - assert (Hkept : forall j w', j <> index ->
               at_index (words l') j = Some w' ->
               is_truthy (time w')
               && (if index <? j then value_le (time w') t
                   else value_ge (time w') t) = false).
    { intros j w' Hne Hj. rewrite Hat in Hj.
      destruct (at_index (words l) j) as [wj|]; [|discriminate].
      cbn [option_map negb andb] in Hj.
      destruct (Z.eqb_spec j index); [contradiction|].
      destruct (is_truthy (time wj)
                && (if index <? j then value_le (time wj) t
                    else value_ge (time wj) t)) eqn:Ec;
        injection Hj as <-; [reflexivity|exact Ec]. }
    destruct (setTimeOfWord_log index t l' _ Hw' Ht) as (l2 & Hlog).
    cbn [time] in Hlog. rewrite (loose_neq_refl t Hnan) in Hlog.
    rewrite !cleared_events_nil in Hlog.
    + destruct (setTimeOfWord_at index t l' l2 _ Hlog) as (Hd2 & _ & Hat2).
      rewrite Hlog. cbn [app]. f_equal. f_equal.
      destruct l' as [ws' d'], l2 as [ws2 d2]. cbn [words duration] in *.
      f_equal; [|exact Hd2].
      apply at_index_ext. intros j. rewrite Hat2.
      destruct (at_index ws' j) as [w'|] eqn:Hj; [|reflexivity].
      cbn [option_map]. rewrite Ht. cbn [negb andb]. f_equal.
      destruct (Z.eqb_spec j index) as [->|Hne].
      * rewrite Hw' in Hj. injection Hj as <-. reflexivity.
      * rewrite (Hkept j w' Hne Hj). reflexivity.
    + intros j w' Hj Hw2. apply In_downfrom in Hj.
      specialize (Hkept j w' ltac:(lia) Hw2).
      destruct (Z.ltb_spec index j); [lia|]. exact Hkept.
    + intros j w' Hj Hw2. apply In_upfrom in Hj.
      specialize (Hkept j w' ltac:(lia) Hw2).
      destruct (Z.ltb_spec index j); [|lia]. exact Hkept.
Qed.

Lemma setTimeOfWord_twice_witness :
  setTimeOfWord 1 (VNum (Fin 5))
                (mkLyrics [at_time "do" 1; at_time "re" 5; untimed "mi"]
                          (VNum (Fin 10)))
  = Ok (mkLyrics [at_time "do" 1; at_time "re" 5; untimed "mi"]
                 (VNum (Fin 10)), []).
Proof.
  apply (setTimeOfWord_twice 1 (VNum (Fin 5)) three_timed _
           [timeChanged 1 (VNum (Fin 5)); timeChanged 2 VNull]).
  - reflexivity.
  - discriminate.
Defined.



(** X5: getIndexForTime fails, on its assertion 'No duration set.',
    exactly when the duration does not convert to true (undefined, null,
    0, NaN).  With a duration set it never fails: it returns undefined on
    the empty timeline and a Number on every other one. *)
Theorem getIndexForTime_outcome (timestamp : number) (l : Lyrics) :
  match getIndexForTime timestamp l with
  | Throw e =>
      is_truthy (duration l) = false
      /\ e = AssertionError "No duration set."
  | Ok VUndefined => is_truthy (duration l) = true /\ words l = []
  | Ok (VNum _) => is_truthy (duration l) = true /\ words l <> []
  | Ok VNull => False
  end.
Proof.
  unfold getIndexForTime, assert.
  destruct (is_truthy (duration l)) eqn:Hd; cbn [bind]; [|auto].
  destruct (words l) as [|w ws] eqn:Hw.
  - cbn [getIndexForTime_loop]. auto.
  - destruct (getIndexForTime_loop_number (w :: ws) 0 (length_of l)
                (duration l) timestamp (Fin 0) 0) as (n & Hn).
    + discriminate.
    + unfold length_of. rewrite Hw. lia.
    + rewrite Hn. split; [reflexivity|discriminate].
Qed.





(** X10: with hours, toTimer renders a time from 0 up to 100 hours as
    hh:mm:ss, eight characters: the whole hours, the minutes within the
    hour and the seconds within the minute, each zero-padded to two
    digits; the milliseconds are left out. *)
Theorem toTimer_with_hours (q : Q) :
  (0 <= q)%Q ->
  (q < 360000)%Q ->
  toTimer (VNum (Fin q)) true
  = zero_pad 2 (hours q) ++ lit ":" ++ zero_pad 2 (minutes q mod 60)
    ++ lit ":" ++ zero_pad 2 (seconds q)
  /\ List.length (toTimer (VNum (Fin q)) true) = 8%nat.
Proof.
  intros Hq Hbig.
  assert (Hh : 0 <= hours q < 100).
  { unfold hours. apply Qfloor_range.
    - apply Qle_shift_div_l; [reflexivity|]. rewrite Qmult_0_l. exact Hq.
    - apply Qlt_shift_div_r; [reflexivity|]. exact Hbig. }
  assert (Hm : 0 <= minutes q mod 60 < 60) by (apply Z.mod_pos_bound; lia).
  assert (Hs : 0 <= seconds q < 60) by (apply Z.mod_pos_bound; lia).
  assert (E : toTimer (VNum (Fin q)) true
              = zero_pad 2 (hours q) ++ lit ":"
                ++ zero_pad 2 (minutes q mod 60)
                ++ lit ":" ++ zero_pad 2 (seconds q)).
  { unfold toTimer. cbv zeta. cbn [to_number].
    rewrite floor_hours, (floor_minutes_of_hour q Hq), (floor_seconds q Hq).
    rewrite !padded_two_digits.
    rewrite !two_digits_zero_pad
      by (change (10 ^ 21) with 1000000000000000000000; lia).
    reflexivity. }
  split; [exact E|].
  rewrite E, !length_app.
  assert (Hw : 10 ^ Z.of_nat 2 = 100) by reflexivity.
  rewrite (length_zero_pad_small 2 (hours q)) by lia.
  rewrite (length_zero_pad_small 2 (minutes q mod 60)) by lia.
  rewrite (length_zero_pad_small 2 (seconds q)) by lia.
  reflexivity.
Qed.

Lemma toTimer_with_hours_witness :
  toTimer (VNum (Fin 3725)) true
  = zero_pad 2 (hours 3725) ++ lit ":" ++ zero_pad 2 (minutes 3725 mod 60)
    ++ lit ":" ++ zero_pad 2 (seconds 3725)
  /\ List.length (toTimer (VNum (Fin 3725)) true) = 8%nat.
Proof.
  apply (toTimer_with_hours 3725).
  - unfold Qle. cbn. lia.
  - unfold Qlt. cbn. lia.
Defined.

(** X11: a timeline none of whose words is timed is exported by toELRC as
    a single line stamped 00:00.000: a line feed, the stamp, then every
    word after a space, without its "<br>"; no inline tag is written and
    no further line is begun. *)
Theorem toELRC_untimed (w : word) (ws : list word) (d : value) :
  forallb (fun w' => negb (is_truthy (time w'))) (w :: ws) = true ->
  toELRC (mkLyrics (w :: ws) d)
  = LF :: lit "[00:00.000]"
       ++ flat_map (fun w' => SP :: stripped (text w')) (w :: ws).
Proof.
  intros H. cbn [forallb] in H. apply andb_true_iff in H as [Hw Hws].
  apply negb_true_iff in Hw.
  unfold toELRC. cbn [words toELRC_loop orb]. rewrite Hw, andb_false_r.
  rewrite (toELRC_loop_untimed ws _ Hws).
  change (toTimer (VNum (Fin 0)) false) with (lit "00:00.000").
  cbn [flat_map app]. rewrite <- !app_assoc. reflexivity.
Qed.

Lemma toELRC_untimed_witness :
  toELRC (mkLyrics [untimed "do<br>"; untimed "re"] (VNum (Fin 10)))
  = LF :: lit "[00:00.000]"
       ++ flat_map (fun w' => SP :: stripped (text w'))
                   [untimed "do<br>"; untimed "re"].
Proof.
  apply (toELRC_untimed (untimed "do<br>") [untimed "re"] (VNum (Fin 10))).
  reflexivity.
Defined.

(** X12: a text without any "[" holds no timed line: fromLRC returns the
    empty timeline for it, with the duration given, and does not fail. *)
Theorem fromLRC_without_brackets (text : str) (d : value) :
  forallb not_bracket text = true ->
  fromLRC text d = Ok (mkLyrics [] d).
Proof.
  intros H. unfold fromLRC.
  assert (Hn : forallb not_bracket (normalize text) = true)
    by (apply normalize_chars; auto).
  unfold processLyrics. unfold regex_match at 1.
  rewrite (re_offset_i_nowhere _ 0 (guarded_no_bracket _ Hn)). cbn [bind].
  pose proof (regex_split_chars not_bracket re_line_break _ Hn) as Hlines.
  destruct (regex_match re_inline_tag _); unfold next.
  - rewrite (next_enhanced_without_brackets _ Hlines). reflexivity.
  - rewrite (next_plain_without_brackets _ Hlines). reflexivity.
Qed.

Lemma fromLRC_without_brackets_witness :
  fromLRC (lit "la la <00:01.00> la") (VNum (Fin 10))
  = Ok (mkLyrics [] (VNum (Fin 10))).
Proof.
  apply (fromLRC_without_brackets (lit "la la <00:01.00> la")).
  reflexivity.
Defined.

(** X13: whatever the text, every word fromText makes carries the
    duration as its time, and its text is not empty, holds no white space
    character and is not "<br>"; the timeline has the duration given. *)
Theorem fromText_words (s : str) (d : value) :
  duration (fromText s d) = d
  /\ forall w, In w (words (fromText s d)) ->
               time w = d
               /\ text w <> []
               /\ text w <> br
               /\ forallb is_nonspace (text w) = true.
Proof.
  split; [reflexivity|]. intros w Hin. unfold fromText in Hin.
  cbn [words] in Hin.
  pose proof (regex_split_whitespace_pieces (normalize s)) as Hp.
  destruct (text_words_spec d _ w Hp Hin) as (Ht & Hitem & Hne & Hbr).
  repeat split; auto.
  rewrite forallb_forall in Hp. exact (Hp _ Hitem).
Qed.

(** X14: a text of white space only (blanks, tabs, line breaks,
    ideographic spaces), the empty text included, gives the empty
    timeline. *)
Theorem fromText_blank (s : str) (d : value) :
  forallb is_space s = true ->
  fromText s d = mkLyrics [] d.
Proof.
  intros H. unfold fromText.
  assert (Hs : forallb is_space
                 (regex_replace re_spaces_before_newline [LF]
                    (regex_replace re_ideographic_space []
                       (regex_replace re_spaces [SP] s))) = true).
  { repeat (apply regex_replace_chars; [reflexivity|]). exact H. }
  assert (Hn : normalize s = []).
  { unfold normalize, trim. rewrite (trim_start_all_space _ Hs).
    reflexivity. }
  rewrite Hn. reflexivity.
Qed.

Lemma fromText_blank_witness :
  fromText [SP; LF; 9%N; 12288%N; CR; LF] (VNum (Fin 10))
  = mkLyrics [] (VNum (Fin 10)).
Proof.
  apply (fromText_blank [SP; LF; 9%N; 12288%N; CR; LF]). reflexivity.
Defined.

(** X15: fromText keeps the words and marks the line breaks.  For a text
    given as lines of words - words that are not empty, hold no white
    space and are not "<br>", joined by single spaces, the lines by line
    feeds - the timeline holds the words in order, each at the duration,
    the last word of every line but the last with "<br>" appended. *)
Theorem fromText_lines (L : text_line) (Ls : list text_line) (d : value) :
  forallb token_line (L :: Ls) = true ->
  fromText (text_of L Ls) d
  = mkLyrics (List.map (fun t => mkWord t d) (all_words L Ls)) d.
Proof.
  intros H. unfold fromText.
  rewrite (fromText_pieces L Ls H).
  rewrite (text_words_tokens d _ (all_words_tokens Ls L H)).
  reflexivity.
Qed.

Lemma fromText_lines_witness :
  fromText (text_of (lit "do", [lit "re"]) [(lit "mi", [])]) (VNum (Fin 10))
  = mkLyrics (List.map (fun t => mkWord t (VNum (Fin 10)))
                       (all_words (lit "do", [lit "re"]) [(lit "mi", [])]))
             (VNum (Fin 10)).
Proof.
  apply (fromText_lines (lit "do", [lit "re"]) [(lit "mi", [])]).
  reflexivity.
Defined.



(** X17: timing the words one after the other keeps every time.  On any
    timeline, the calls setTimeOfWord(0, t0), setTimeOfWord(1, t1), ...
    with strictly increasing finite times, one call per word from the
    first on, all succeed, and afterwards word n holds the time tn. *)
Theorem setTimeOfWord_in_order (ts : list Q) (l : Lyrics) :
  increasing ts = true ->
  Z.of_nat (List.length ts) <= length_of l ->
  exists l' log,
    run_calls (taps 0 ts) l = Ok (l', log)
    /\ forall n t w,
         nth_error ts n = Some t ->
         nth_error (words l) n = Some w ->
         nth_error (words l') n = Some (mkWord (text w) (VNum (Fin t))).
Proof.
  intros Hinc Hlen.
  destruct (taps_run ts 0 l Hinc ltac:(lia) ltac:(lia))
    as (l' & log & Hrun & _ & Hafter).
  - intros j w t0 Hj. lia.
  - exists l', log. split; [exact Hrun|].
    intros n t w Hn Hw. apply nth_at_index in Hw.
    specialize (Hafter n t w Hn Hw). cbn [Z.add] in Hafter.
    apply at_index_nth in Hafter as [_ Hafter].
    rewrite Nat2Z.id in Hafter. exact Hafter.
Qed.

Lemma setTimeOfWord_in_order_witness :
  exists l' log,
    run_calls (taps 0 [1%Q; 2%Q]) three_timed = Ok (l', log)
    /\ forall n t w,
         nth_error [1%Q; 2%Q] n = Some t ->
         nth_error (words three_timed) n = Some w ->
         nth_error (words l') n = Some (mkWord (text w) (VNum (Fin t))).
Proof.
  apply (setTimeOfWord_in_order [1%Q; 2%Q] three_timed).
  - reflexivity.
  - unfold length_of. cbn. lia.
Defined.

(** X18: _assignTime guards setTimeOfWord on the right.  For an index
    that is not negative it never fails; it answers true exactly when
    the media is loaded (readyState other than 0), not paused, and the
    index is below the number of words, and then the word at the index
    holds the current time; otherwise the timeline is left as it was and
    no event is emitted. *)
Theorem assignTime_guarded (index : Z) (m : media) (l : Lyrics) :
  0 <= index ->
  exists ok l' log,
    _assignTime index m l = Ok (ok, (l', log))
    /\ (ok = true
        <-> readyState m <> 0 /\ paused m = false /\ index < length_of l)
    /\ (ok = false -> l' = l /\ log = [])
    /\ (ok = true ->
        exists w, at_index (words l) index = Some w
                  /\ at_index (words l') index
                     = Some (mkWord (text w) (VNum (currentTime m)))).
Proof.
  intros Hi. unfold _assignTime.
  destruct (Z.eqb_spec (readyState m) 0) as [Hr|Hr]; cbn [orb].
  - exists false, l, []. split; [reflexivity|].
    split; [split; [discriminate|intros (H & _); contradiction]|].
    split; [auto|discriminate].
  - destruct (paused m) eqn:Hp.
    + exists false, l, []. split; [reflexivity|].
      split; [split; [discriminate|intros (_ & H & _); discriminate]|].
      split; [auto|discriminate].
    + destruct (Z.leb_spec (length_of l) index) as [Hge|Hlt].
      * exists false, l, []. split; [reflexivity|].
        split; [split; [discriminate|intros (_ & _ & H); lia]|].
        split; [auto|discriminate].
      * destruct (setTimeOfWord_total index (VNum (currentTime m)) l
                    ltac:(lia)) as (l' & log & Hrun & _).
        destruct (setTimeOfWord_at index _ l l' log Hrun) as (_ & _ & Hat).
        rewrite Hrun. cbn [bind].
        exists true, l', log. split; [reflexivity|].
        split; [split; auto|]. split; [discriminate|].
        intros _. destruct (at_index_in_range (words l) index) as [w Hw];
          [unfold length_of in Hlt; lia|].
        exists w. split; [exact Hw|].
        rewrite Hat, Hw, Z.eqb_refl. reflexivity.
Qed.

Lemma assignTime_guarded_witness :
  exists ok l' log,
    _assignTime 1 (mkMedia 4 false (Fin 3)) three_timed = Ok (ok, (l', log))
    /\ (ok = true
        <-> readyState (mkMedia 4 false (Fin 3)) <> 0
            /\ paused (mkMedia 4 false (Fin 3)) = false
            /\ 1 < length_of three_timed)
    /\ (ok = false -> l' = three_timed /\ log = [])
    /\ (ok = true ->
        exists w, at_index (words three_timed) 1 = Some w
                  /\ at_index (words l') 1
                     = Some (mkWord (text w)
                               (VNum (currentTime (mkMedia 4 false (Fin 3)))))).
Proof.
  apply (assignTime_guarded 1 (mkMedia 4 false (Fin 3)) three_timed). lia.
Defined.



(** X20: the tag is found without regard to case but read with regard to
    it.  Behind a first line "[OFFSET:N]" the same export makes fromLRC
    fail with a TypeError: the case-sensitive pattern finds no match to
    read the value from. *)
Theorem fromLRC_offset_upper_case (L : line) (Ls : list line) (z : Z)
    (d : value) :
  forallb good_line (L :: Ls) = true ->
  0 <= z ->
  fromLRC (offset_tag "[OFFSET:" (nat_to_str z) ++ exported (L :: Ls)) d
  = Throw TypeError.
Proof.
  intros Hgood Hz.
  destruct (nat_to_str_spec z Hz) as (Hd & Hne & Hv).
  destruct (offset_tag_nonspace "[OFFSET:" _ (or_intror eq_refl) Hd)
    as [HPne HP].
  unfold fromLRC. rewrite (normalize_prefixed _ L Ls HPne HP Hgood).
  unfold processLyrics.
  destruct (offset_i_match "[OFFSET:" (nat_to_str z) (normalised L Ls)
              (or_intror eq_refl) Hd) as (mi & Hmi).
  rewrite Hmi.
  rewrite (offset_upper_case_missed _ _ Hd (guarded_normalised Ls L Hgood)).
  reflexivity.
Qed.

Lemma fromLRC_offset_upper_case_witness :
  fromLRC (offset_tag "[OFFSET:" (nat_to_str 500)
           ++ exported (fst sample_lines :: snd sample_lines))
          (VNum (Fin 10))
  = Throw TypeError.
Proof.
  apply (fromLRC_offset_upper_case (fst sample_lines) (snd sample_lines) 500).
  - vm_compute. reflexivity.
  - lia.
Defined.
